(** * cctop: the session discovery, fusion and state-inference engine

    A shallow embedding of the Go package [internal/session] of cctop
    (files [types.go], [discover.go], [metadata.go]) and the properties its
    specification states about it.

    Go strings are byte sequences, so they are modelled as [list ascii].
    Go's [int] is taken to be 64 bits wide (the platforms cctop supports),
    and [time.Duration] is an [int64] count of nanoseconds: both are [Z]
    with the wrap-around written out where the program does arithmetic. *)

From Stdlib Require Import ZArith Lia Ascii String DecimalString Floats Uint63.
From Stdlib Require Import Sorting.Sorted Sorting.Permutation.
From stdpp Require Import base option list gmap strings.

Local Open Scope Z_scope.

(** ** Bytes and strings *)

Abbreviation gostring := (list ascii).

(** A string literal of the program, as its bytes. *)
Definition str (s : string) : gostring := list_ascii_of_string s.

(** The value of a byte, [0..255]. *)
Definition code (c : ascii) : Z := Z.of_N (N_of_ascii c).

Definition byte_eqb (a b : ascii) : bool := Ascii.eqb a b.

Definition NL : ascii := "010"%char.
Definition SP : ascii := " "%char.

(** ** Package [strings] of the Go standard library

    Only the functions the program calls, with the behaviour the Go
    documentation gives them on byte strings. *)

Module strings.

(** [strings.HasPrefix(s, prefix)]. *)
Fixpoint HasPrefix (s prefix : gostring) {struct prefix} : bool :=
  match prefix, s with
  | [], _ => true
  | _ :: _, [] => false
  | p :: prefix', c :: s' => byte_eqb p c && HasPrefix s' prefix'
  end.

(** [strings.Index(s, substr)]: the index of the first instance of
    [substr] in [s]; Go's [-1] is [None]. *)
Fixpoint Index (s substr : gostring) : option nat :=
  if HasPrefix s substr then Some 0%nat
  else match s with
       | [] => None
       | _ :: s' => S <$> Index s' substr
       end.

(** [strings.Contains(s, substr)]. *)
Definition Contains (s substr : gostring) : bool :=
  bool_decide (is_Some (Index s substr)).

(** [strings.IndexByte(s, c)]. *)
Fixpoint IndexByte (s : gostring) (c : ascii) : option nat :=
  match s with
  | [] => None
  | d :: s' => if byte_eqb d c then Some 0%nat else S <$> IndexByte s' c
  end.

(** [strings.LastIndexByte(s, c)]. *)
Fixpoint LastIndexByte (s : gostring) (c : ascii) : option nat :=
  match s with
  | [] => None
  | d :: s' =>
      match LastIndexByte s' c with
      | Some i => Some (S i)
      | None => if byte_eqb d c then Some 0%nat else None
      end
  end.

(** [strings.TrimRight(s, cutset)] for a cut set of ASCII bytes (the
    program only ever passes a line feed). *)
Fixpoint TrimRight (s cutset : gostring) : gostring :=
  match s with
  | [] => []
  | c :: s' =>
      match TrimRight s' cutset with
      | [] => if bool_decide (c ∈ cutset) then [] else [c]
      | t => c :: t
      end
  end.

(** [strings.TrimLeft(s, cutset)] for a cut set of ASCII bytes. *)
Fixpoint TrimLeft (s cutset : gostring) : gostring :=
  match s with
  | [] => []
  | c :: s' => if bool_decide (c ∈ cutset) then TrimLeft s' cutset else s
  end.

(** The six ASCII white-space bytes: tab, line feed, vertical tab, form
    feed, carriage return and space. *)
Definition asciiSpace (c : ascii) : bool :=
  let n := code c in ((9 <=? n) && (n <=? 13)) || (n =? 32).

(** [unicode.IsSpace], on the UTF-8 encoding of a string: the encodings
    of the white-space runes.  Besides the six ASCII ones these are U+0085,
    U+00A0, U+1680, U+2000..U+200A, U+2028, U+2029, U+202F, U+205F and
    U+3000.  The lead byte of an encoding is never a continuation byte, so
    Go's decoder always arrives at it on a rune boundary, from either end
    of the string. *)
Definition spaceRunes : list (list Z) :=
  [[9]; [10]; [11]; [12]; [13]; [32];
   [194; 133]; [194; 160]; [225; 154; 128];
   [226; 128; 128]; [226; 128; 129]; [226; 128; 130]; [226; 128; 131];
   [226; 128; 132]; [226; 128; 133]; [226; 128; 134]; [226; 128; 135];
   [226; 128; 136]; [226; 128; 137]; [226; 128; 138];
   [226; 128; 168]; [226; 128; 169]; [226; 128; 175];
   [226; 129; 159]; [227; 128; 128]].

Fixpoint startsWith (s : gostring) (p : list Z) {struct p} : bool :=
  match p, s with
  | [], _ => true
  | _ :: _, [] => false
  | k :: p', c :: s' => (code c =? k) && startsWith s' p'
  end.

(** The width in bytes of the white-space rune [s] starts with, [0] when
    it starts with none. *)
Definition spaceWidth (s : gostring) : nat :=
  match find (startsWith s) spaceRunes with
  | Some p => length p
  | None => 0%nat
  end.

(** The same from the other end: [rs] is a string reversed, and the result
    is the width of the white-space rune the string ends with. *)
Definition spaceWidthEnd (rs : gostring) : nat :=
  match find (fun p => startsWith rs (rev p)) spaceRunes with
  | Some p => length p
  | None => 0%nat
  end.

(** Drop leading white space; [skip] counts the bytes of the current
    white-space rune still to be dropped. *)
Fixpoint trimLeftSpace (s : gostring) (skip : nat) : gostring :=
  match s with
  | [] => []
  | _ :: r =>
      match skip with
      | S k => trimLeftSpace r k
      | O => match spaceWidth s with
             | O => s
             | S k => trimLeftSpace r k
             end
      end
  end.

Fixpoint trimRightSpaceRev (rs : gostring) (skip : nat) : gostring :=
  match rs with
  | [] => []
  | _ :: r =>
      match skip with
      | S k => trimRightSpaceRev r k
      | O => match spaceWidthEnd rs with
             | O => rs
             | S k => trimRightSpaceRev r k
             end
      end
  end.

(** [strings.TrimSpace(s)]: leading white space is removed first, then
    trailing white space of what is left. *)
Definition TrimSpace (s : gostring) : gostring :=
  rev (trimRightSpaceRev (rev (trimLeftSpace s 0)) 0).

(** Split around every white-space rune; consecutive separators give
    empty pieces, which [Fields] drops. *)
Fixpoint splitSpace (s : gostring) (skip : nat) : list gostring :=
  match s with
  | [] => [[]]
  | c :: r =>
      match skip with
      | S k => splitSpace r k
      | O =>
          match spaceWidth s with
          | S k => [] :: splitSpace r k
          | O => match splitSpace r 0 with
                 | h :: t => (c :: h) :: t
                 | [] => [[c]]
                 end
          end
      end
  end.

Definition nonEmpty (s : gostring) : bool :=
  match s with [] => false | _ => true end.

(** [strings.Fields(s)]. *)
Definition Fields (s : gostring) : list gostring :=
  List.filter nonEmpty (splitSpace s 0).

(** [strings.Split(s, sep)] for a separator of one byte (the program
    splits on a line feed and on a colon). *)
Fixpoint Split (s : gostring) (sep : ascii) : list gostring :=
  match s with
  | [] => [[]]
  | c :: r =>
      if byte_eqb c sep then [] :: Split r sep
      else match Split r sep with
           | h :: t => (c :: h) :: t
           | [] => [[c]]
           end
  end.

(** [strings.Join(elems, sep)]. *)
Fixpoint Join (elems : list gostring) (sep : gostring) : gostring :=
  match elems with
  | [] => []
  | [e] => e
  | e :: rest => e ++ sep ++ Join rest sep
  end.

(** [strings.ReplaceAll(s, old, new)] for an [old] of one byte. *)
Definition ReplaceAll (s : gostring) (old : ascii) (new : gostring) : gostring :=
  flat_map (fun c => if byte_eqb c old then new else [c]) s.

End strings.

(** ** Package [strconv] *)

Module strconv.

Definition isDigit (c : ascii) : bool := (48 <=? code c) && (code c <=? 57).

(** The number a string of decimal digits denotes. *)
Definition decimal (ds : gostring) : Z :=
  fold_left (fun n c => 10 * n + (code c - 48)) ds 0.

Definition maxInt : Z := 2 ^ 63 - 1.
Definition minInt : Z := - 2 ^ 63.

(** [strconv.Atoi(s)]: the value and whether the error is [nil].  An
    optional sign, then one or more decimal digits.  A syntax error gives
    [0]; a value out of the range of [int] gives the nearest bound together
    with the error. *)
Definition Atoi (s : gostring) : Z * bool :=
  let '(neg, ds) :=
    match s with
    | c :: r =>
        if byte_eqb c "-" then (true, r)
        else if byte_eqb c "+" then (false, r)
        else (false, s)
    | [] => (false, [])
    end in
  if strings.nonEmpty ds && forallb isDigit ds then
    let v := decimal ds in
    if neg then (if v <=? 2 ^ 63 then (- v, true) else (minInt, false))
    else (if v <=? maxInt then (v, true) else (maxInt, false))
  else (0, false).

(** [strconv.Itoa(i)], also what [fmt]'s verb [%d] prints. *)
Definition Itoa (i : Z) : gostring :=
  str (NilZero.string_of_int (Z.to_int i)).

End strconv.

(** ** Package [fmt]: the two verbs the program uses *)

Module fmt.

(** [%d]. *)
Definition d (i : Z) : gostring := strconv.Itoa i.

(** [%02d]: padded with zeros to a width of two, the sign first. *)
Definition d02 (i : Z) : gostring :=
  let digits := strconv.Itoa (Z.abs i) in
  let sign := if i <? 0 then str "-" else [] in
  sign ++ replicate (2 - length sign - length digits) "0"%char ++ digits.

End fmt.

(** ** Machine integers and package [time] *)

Module int64.

(** The value an [int64] holds after an operation whose exact result is [z]. *)
Definition wrap (z : Z) : Z := (z + 2 ^ 63) mod 2 ^ 64 - 2 ^ 63.

Definition add (a b : Z) : Z := wrap (a + b).
Definition mul (a b : Z) : Z := wrap (a * b).

Definition inRange (z : Z) : Prop := - 2 ^ 63 <= z <= 2 ^ 63 - 1.

End int64.

Module time.

(** [time.Duration]: nanoseconds, an [int64]. *)
Definition Duration : Type := Z.

Definition Nanosecond : Duration := 1.
Definition Second : Duration := 1000000000.
Definition Minute : Duration := 60 * Second.
Definition Hour : Duration := 60 * Minute.

Definition minDuration : Duration := - 2 ^ 63.
Definition maxDuration : Duration := 2 ^ 63 - 1.

(** [time.Time]: an instant, in nanoseconds from a fixed origin (wall
    clock; a modification time carries no monotonic reading). *)
Definition Time : Type := Z.

(** [t.Sub(u)]: the duration [t-u], or the largest (smallest) duration
    when [t-u] does not fit one. *)
Definition Sub (t u : Time) : Duration :=
  if maxDuration <? t - u then maxDuration
  else if t - u <? minDuration then minDuration
  else t - u.

(** The zero [Time], January 1 of year 1: the origin of the model is the
    Unix epoch. *)
Definition zero : Time := -62135596800 * 1000000000.

(** [t.After(u)]. *)
Definition After (t u : Time) : bool := u <? t.

(** [float64(i)] for an integer below [2^63] in absolute value. *)
Definition float64 (i : Z) : float :=
  if i <? 0 then PrimFloat.opp (PrimFloat.of_uint63 (Uint63.of_Z (- i)))
  else PrimFloat.of_uint63 (Uint63.of_Z i).

(** [int(f)]: a finite [float64] truncated toward zero. *)
Definition int (f : float) : Z :=
  match Prim2SF f with
  | S754_finite neg m e =>
      let a := if 0 <=? e then Z.pos m * 2 ^ e else Z.pos m / 2 ^ (- e) in
      if neg then - a else a
  | _ => 0
  end.

(** [d.Seconds()]:
    [sec := d / Second; nsec := d % Second;
     return float64(sec) + float64(nsec)/1e9]. *)
Definition Seconds (d : Duration) : float :=
  let sec := Z.quot d Second in
  let nsec := Z.rem d Second in
  PrimFloat.add (float64 sec) (PrimFloat.div (float64 nsec) (float64 Second)).

End time.

(** ** [types.go] *)

(** Modelled from the spec: the constant [StateInput], which [metadata.go]
    returns and the tests compare against, is missing from the [types.go]
    under [src/] (it declares [StateActive], [StateWaiting] and [StateIdle]
    only); the spec's data model gives the state as
    [enum{Active, Waiting, Input, Idle}]. *)
Inductive State : Type :=
| StateActive   (* Claude is generating or processing *)
| StateWaiting  (* Claude has responded, awaiting user input *)
| StateInput    (* blocked on a structured question *)
| StateIdle.    (* Session exists but has been inactive *)

#[global] Instance State_eq_dec : EqDecision State.
Proof. solve_decision. Defined.

(** [Source] represents how a Claude session was launched: ["CLI"],
    ["VSCode"], ["Cursor"], or another IDE name. *)
Module Source.
Record t : Type := mk { Type_ : gostring }.
End Source.

#[global] Instance Source_eq_dec : EqDecision Source.t.
Proof. solve_decision. Defined.

(** [Session] holds all discoverable metadata for a single session. *)
Module Session.
Record t : Type := mk {
  PID : Z;
  CWD : gostring;
  State : State;
  Source : Source.t;
  Project : gostring;
  Topic : gostring;
  Branch : gostring;
  Duration : time.Duration;
  Messages : Z
}.
End Session.

#[global] Instance Session_eq_dec : EqDecision Session.t.
Proof. solve_decision. Defined.

(** [FormatDuration] renders a duration as a compact human-readable string. *)
Definition FormatDuration (duration : time.Duration) : gostring :=
  let totalSeconds := time.int (time.Seconds duration) in
  if totalSeconds <? 0 then str "0s"
  else
    let days := Z.quot totalSeconds 86400 in
    let hours := Z.quot (Z.rem totalSeconds 86400) 3600 in
    let minutes := Z.quot (Z.rem totalSeconds 3600) 60 in
    let seconds := Z.rem totalSeconds 60 in
    if 0 <? days then fmt.d days ++ str "d" ++ fmt.d hours ++ str "h"
    else if 0 <? hours then fmt.d hours ++ str "h" ++ fmt.d02 minutes ++ str "m"
    else if 0 <? minutes then fmt.d minutes ++ str ":" ++ fmt.d02 seconds
    else fmt.d seconds ++ str "s".

(** The two decimal digits of a number below one hundred, as [%02d]
    prints minutes and seconds. *)
Definition twoDigits (n : Z) : gostring :=
  [ascii_of_nat (Z.to_nat (48 + n / 10)); ascii_of_nat (Z.to_nat (48 + n mod 10))].

(** ** [discover.go]: elapsed times *)

(** [ParseEtime] parses the elapsed-time column of [ps]
    ([DD-HH:MM:SS], [HH:MM:SS], [MM:SS] or [SS]) to a [Duration]. *)
Definition ParseEtime (etime : gostring) : time.Duration :=
  let etime := strings.TrimSpace etime in
  let '(days, etime) :=
    match strings.IndexByte etime "-" with
    | Some idx =>
        let '(d, ok) := strconv.Atoi (take idx etime) in
        ((if ok then d else 0), drop (idx + 1) etime)
    | None => (0, etime)
    end in
  let parts := strings.Split etime ":" in
  let '(hours, minutes, seconds) :=
    match parts with
    | [p0; p1; p2] =>
        (fst (strconv.Atoi p0), fst (strconv.Atoi p1), fst (strconv.Atoi p2))
    | [p0; p1] => (0, fst (strconv.Atoi p0), fst (strconv.Atoi p1))
    | [p0] => (0, 0, fst (strconv.Atoi p0))
    | _ => (0, 0, 0)
    end in
  let totalSeconds :=
    int64.add
      (int64.add (int64.add (int64.mul days 86400) (int64.mul hours 3600))
                 (int64.mul minutes 60))
      seconds in
  int64.mul totalSeconds time.Second.

(** The four shapes of an elapsed time, each field a string of digits. *)
Inductive Etime : Type :=
| SS (s : gostring)
| MMSS (m s : gostring)
| HHMMSS (h m s : gostring)
| DHHMMSS (d h m s : gostring).

Definition etimeFields (e : Etime) : list gostring :=
  match e with
  | SS s => [s]
  | MMSS m s => [m; s]
  | HHMMSS h m s => [h; m; s]
  | DHHMMSS d h m s => [d; h; m; s]
  end.

(** The text of an elapsed time. *)
Definition etimeText (e : Etime) : gostring :=
  match e with
  | SS s => s
  | MMSS m s => m ++ str ":" ++ s
  | HHMMSS h m s => h ++ str ":" ++ m ++ str ":" ++ s
  | DHHMMSS d h m s => d ++ str "-" ++ h ++ str ":" ++ m ++ str ":" ++ s
  end.

(** Every field is one or more decimal digits. *)
Definition etimeDigits (e : Etime) : bool :=
  forallb (fun f => strings.nonEmpty f && forallb strconv.isDigit f) (etimeFields e).

(** The number of seconds an elapsed time denotes:
    [days*86400 + hours*3600 + minutes*60 + seconds]. *)
Definition etimeSeconds (e : Etime) : Z :=
  let n := strconv.decimal in
  match e with
  | SS s => n s
  | MMSS m s => n m * 60 + n s
  | HHMMSS h m s => n h * 3600 + n m * 60 + n s
  | DHHMMSS d h m s => n d * 86400 + n h * 3600 + n m * 60 + n s
  end.

(** ** [discover.go]: the process table *)

(** [psEntry] holds raw data parsed from a single [ps] output line. *)
Module psEntry.
Record t : Type := mk {
  PID : Z;
  Etime : gostring;
  TTY : gostring;
  Command : gostring
}.
End psEntry.

#[global] Instance psEntry_eq_dec : EqDecision psEntry.t.
Proof. solve_decision. Defined.

(** One turn of the loop of [ParsePS]: [entries] is the slice built so
    far, and every [continue] leaves it as it is. *)
Definition parsePSLine (entries : list psEntry.t) (line : gostring)
  : list psEntry.t :=
  let line := strings.TrimSpace line in
  if bool_decide (line = []) || strings.HasPrefix line (str "PID") then entries
  else if negb (strings.Contains line (str "claude")) then entries
  else if strings.Contains line (str "grep") then entries
  else
    let fields := strings.Fields line in
    if (length fields <? 4)%nat then entries
    else
      match fields with
      | f0 :: f1 :: f2 :: rest =>
          let '(pid, ok) := strconv.Atoi f0 in
          if negb ok then entries
          else entries ++ [psEntry.mk pid f1 f2 (strings.Join rest (str " "))]
      | _ => entries
      end.

(** [ParsePS] parses [ps -eo pid,etime,tty,command] output, filtering for
    "claude" processes. *)
Definition ParsePS (output : gostring) : list psEntry.t :=
  let lines := strings.Split output NL in
  fold_left parsePSLine lines [].

(** The words of the specification about a line of the process table
    (already trimmed): the header line; a line that names the target
    program; a search command; a line with its four columns and a numeric
    process id; and the entry such a line stands for. *)
Definition psHeader (line : gostring) : bool :=
  strings.HasPrefix line (str "PID").

Definition psTarget (line : gostring) : bool :=
  strings.Contains line (str "claude").

Definition psSearch (line : gostring) : bool :=
  strings.Contains line (str "grep").

Definition psWellFormed (line : gostring) : bool :=
  let fields := strings.Fields line in
  (4 <=? length fields)%nat && snd (strconv.Atoi (nth 0 fields [])).

Definition psAccepted (line : gostring) : bool :=
  negb (psHeader line) && psTarget line && negb (psSearch line)
  && psWellFormed line.

Definition psEntryOf (line : gostring) : psEntry.t :=
  let fields := strings.Fields line in
  psEntry.mk (fst (strconv.Atoi (nth 0 fields []))) (nth 1 fields [])
             (nth 2 fields []) (strings.Join (drop 3 fields) (str " ")).

(** ** The file system

    The program reads the file system and never writes it.  A pass over
    the sessions sees one snapshot: the regular files that can be opened,
    by path, each with its bytes and its modification time, and what
    [filepath.Glob] answers for a pattern ([None] for an error). *)

Module os.

Record File : Type := mkFile {
  contents : gostring;
  ModTime : time.Time
}.

Record FS : Type := mkFS {
  files : gmap gostring File;
  Glob : gostring -> option (list gostring)
}.

(** [info.Size()]. *)
Definition Size (f : File) : Z := Z.of_nat (length (contents f)).

(** [file.ReadAt(chunk, off)] with [len(chunk) = n]: the chunk after the
    call.  Bytes past the end of the file are not read and stay zero (the
    call then reports [io.EOF], which the program does not treat as an
    error). *)
Definition ReadAt (f : File) (n off : Z) : gostring :=
  let got := take (Z.to_nat n) (drop (Z.to_nat off) (contents f)) in
  got ++ replicate (Z.to_nat n - length got) "000"%char.

End os.

(** ** The package's state, and what it asks of the file system *)

(** [cachedMetadata] stores transcript metadata keyed by cwd + mtime. *)
Module cachedMetadata.
Record t : Type := mk {
  FullPath : gostring;
  Topic : gostring;
  Messages : Z;
  Branch : gostring
}.
End cachedMetadata.

#[global] Instance cachedMetadata_eq_dec : EqDecision cachedMetadata.t.
Proof. solve_decision. Defined.

(** A request to the file system, by the call that makes it. *)
Inductive Access : Type :=
| Open (path : gostring)       (* [os.Open] *)
| ReadFile (path : gostring)   (* [os.ReadFile] *)
| Stat (path : gostring)       (* [os.Stat] *)
| Glob (pattern : gostring).   (* [filepath.Glob] *)

#[global] Instance Access_eq_dec : EqDecision Access.
Proof. solve_decision. Defined.

(** The state a pass runs in: [metadataCache], the package's one mutable
    variable, which persists across refresh cycles; and, as a record of
    the pass, the requests made to the file system so far, oldest first. *)
Record Store : Type := mkStore {
  metadataCache : gmap gostring cachedMetadata.t;
  accesses : list Access
}.

(** A computation that may use the cache and the file system. *)
Definition M (A : Type) : Type := Store -> A * Store.

#[global] Instance M_ret : MRet M := fun A (a : A) (st : Store) => (a, st).

#[global] Instance M_bind : MBind M :=
  fun A B (f : A -> M B) (m : M A) (st : Store) =>
    let '(a, st') := m st in f a st'.

Definition access (a : Access) : M unit :=
  fun st => (tt, mkStore (metadataCache st) (accesses st ++ [a])).

(** [cached, ok := metadataCache[key]]. *)
Definition cacheLookup (key : gostring) : M (option cachedMetadata.t) :=
  fun st => (metadataCache st !! key, st).

(** [metadataCache[key] = value]. *)
Definition cacheStore (key : gostring) (value : cachedMetadata.t) : M unit :=
  fun st => (tt, mkStore (<[key := value]> (metadataCache st)) (accesses st)).

(** [os.Open(path)]: the file, or [None] for an error. *)
Definition os_Open (fs : os.FS) (path : gostring) : M (option os.File) :=
  _ ← access (Open path); mret (os.files fs !! path).

(** [os.ReadFile(path)]. *)
Definition os_ReadFile (fs : os.FS) (path : gostring) : M (option gostring) :=
  _ ← access (ReadFile path); mret (os.contents <$> os.files fs !! path).

(** [os.Stat(path)]. *)
Definition os_Stat (fs : os.FS) (path : gostring) : M (option os.File) :=
  _ ← access (Stat path); mret (os.files fs !! path).

(** [filepath.Glob(pattern)]. *)
Definition filepath_Glob (fs : os.FS) (pattern : gostring)
  : M (option (list gostring)) :=
  _ ← access (Glob pattern); mret (os.Glob fs pattern).

(** ** [metadata.go]: the last line of a transcript *)

(** The loop of [ReadLastLine]: [offset] and [buf] are the loop's
    variables.  The result is the line together with the offset the loop
    has reached, that is, the bytes from that offset to the end of the
    file have been read.  The loop runs at most once per byte of the file;
    [None] stands for a budget of turns that was too small. *)
Fixpoint readLastLineLoop (turns : nat) (file : os.File) (offset : Z)
  (buf : gostring) : option (gostring * Z) :=
  if 0 <? offset then
    match turns with
    | O => None
    | S turns' =>
        let readSize := 4096 in
        let readSize := if offset <? readSize then offset else readSize in
        let offset := offset - readSize in
        let chunk := os.ReadAt file readSize offset in
        let buf := chunk ++ buf in
        let content := strings.TrimRight buf [NL] in
        match strings.LastIndexByte content NL with
        | Some lastNewline => Some (drop (lastNewline + 1) content, offset)
        | None => readLastLineLoop turns' file offset buf
        end
    end
  else Some (strings.TrimRight buf [NL], offset).

(** [ReadLastLine] on an open file, with the offset its loop has
    reached. *)
Definition readLastLineOf (file : os.File) : gostring * Z :=
  if os.Size file =? 0 then ([], 0)
  else
    let fileSize := os.Size file in
    default ([], 0)
      (readLastLineLoop (length (os.contents file)) file fileSize []).

(** [ReadLastLine] reads the last non-empty line of a file by seeking from
    the end. *)
Definition ReadLastLine (fs : os.FS) (filePath : gostring) : M gostring :=
  file ← os_Open fs filePath;
  match file with
  | None => mret []
  | Some file => mret (fst (readLastLineOf file))
  end.

(** The last line of a text, read off the whole text: what is left of the
    last line feed once every trailing line feed is dropped. *)
Definition lastLine (text : gostring) : gostring :=
  let content := strings.TrimRight text [NL] in
  match strings.LastIndexByte content NL with
  | Some i => drop (i + 1) content
  | None => content
  end.

(** The same with a single trailing line feed dropped, as the
    specification words it. *)
Definition lastLineTrimOne (text : gostring) : gostring :=
  let content :=
    match rev text with
    | c :: r => if byte_eqb c NL then rev r else text
    | [] => text
    end in
  match strings.LastIndexByte content NL with
  | Some i => drop (i + 1) content
  | None => content
  end.

(** The trimmed text holds no line feed: the loop of [ReadLastLine] goes
    on reading. *)
Definition oneLine (s : gostring) : Prop :=
  strings.LastIndexByte (strings.TrimRight s [NL]) NL = None.

(** A file system that holds one file (for the examples). *)
Definition singleFile (path contents : gostring) (mtime : time.Time) : os.FS :=
  os.mkFS {[ path := os.mkFile contents mtime ]} (fun _ => None).

(** The examples write a JSON text with ['] where the text has a double
    quote. *)
Definition quoted (s : string) : gostring :=
  map (fun c => if byte_eqb c "'" then "034"%char else c) (str s).

(** The state of a process that has just started. *)
Definition emptyStore : Store := mkStore ∅ [].

(** ** [metadata.go]: the records read from JSON *)

(** [sessionsIndexEntry] represents one entry in [sessions-index.json]. *)
Module sessionsIndexEntry.
Record t : Type := mk {
  SessionID : gostring;
  FullPath : gostring;
  FirstPrompt : gostring;
  MessageCount : Z;
  FileMtime : Z;
  Created : gostring;
  Modified : gostring;
  GitBranch : gostring
}.
End sessionsIndexEntry.

(** [sessionsIndex] represents the [sessions-index.json] file. *)
Module sessionsIndex.
Record t : Type := mk { Entries : list sessionsIndexEntry.t }.
End sessionsIndex.

(** The [message] field of a transcript line; [Content] is a
    [json.RawMessage], the bytes of the value as they stand in the line
    (empty when the field is absent). *)
Module jsonlMessage.
Record t : Type := mk {
  Role : gostring;
  Content : gostring
}.
End jsonlMessage.

(** [jsonlLine] represents the relevant fields from a JSONL transcript
    line. *)
Module jsonlLine.
Record t : Type := mk {
  Type_ : gostring;
  Message : jsonlMessage.t;
  Slug : gostring;
  GitBranch : gostring;
  SessionID : gostring;
  CWD : gostring
}.
End jsonlLine.

(** The content blocks [extractMessageText] decodes:
    [struct { Type string; Text string }]. *)
Module textBlock.
Record t : Type := mk { Type_ : gostring; Text : gostring }.
End textBlock.

(** The content blocks [hasToolUse] decodes:
    [struct { Type string; Name string }]. *)
Module toolBlock.
Record t : Type := mk { Type_ : gostring; Name : gostring }.
End toolBlock.

(** [ideLockFile] represents the JSON structure of an IDE lock file. *)
Module ideLockFile.
Record t : Type := mk {
  PID : Z;
  WorkspaceFolders : list gostring;
  IDEName : gostring;
  Transport : gostring
}.
End ideLockFile.

(** Package [encoding/json], as the program uses it: [json.Unmarshal] of a
    text into a zero value of each of the six types the program decodes
    into.  [None] stands for a non-nil error; the program drops whatever
    was decoded when there is one. *)
Class JSON : Type := {
  Unmarshal_jsonlLine : gostring -> option jsonlLine.t;
  Unmarshal_sessionsIndex : gostring -> option sessionsIndex.t;
  Unmarshal_ideLockFile : gostring -> option ideLockFile.t;
  Unmarshal_string : gostring -> option gostring;
  Unmarshal_textBlocks : gostring -> option (list textBlock.t);
  Unmarshal_toolBlocks : gostring -> option (list toolBlock.t)
}.

(** ** [metadata.go]: state detection *)

(** [activeRecentThreshold] is how recently a file must have been modified
    to be considered active (Rule 1 of the state machine). *)
Definition activeRecentThreshold : time.Duration := 30 * time.Second.

(** [activeUserPromptThreshold] is the maximum file age for a user-role
    last line to still count as active (Rule 4 of the state machine). *)
Definition activeUserPromptThreshold : time.Duration := 5 * time.Minute.

(** [maxPromptLength] is the maximum character length for a first-prompt
    topic. *)
Definition maxPromptLength : nat := 200.

(** [maxLinesToScanPrompt] is how many JSONL lines to scan when looking
    for the first user message. *)
Definition maxLinesToScanPrompt : nat := 30.

(** [maxScannerBufferBytes] is the buffer size for scanning long JSONL
    lines. *)
Definition maxScannerBufferBytes : Z := 1024 * 1024.


(** ** Package [path/filepath] (Unix) *)

Module filepath.

(** Drop trailing slashes. *)
Definition trimSlashes (path : gostring) : gostring :=
  strings.TrimRight path (str "/").

(** [filepath.Base(path)]: the last element of [path]; trailing slashes
    are removed first; ["."] for the empty path, ["/"] for a path of
    slashes only. *)
Definition Base (path : gostring) : gostring :=
  if bool_decide (path = []) then str "."
  else
    let path := trimSlashes path in
    let path :=
      match strings.LastIndexByte path "/" with
      | Some i => drop (i + 1) path
      | None => path
      end in
    if bool_decide (path = []) then str "/" else path.

(** One element of a path met by [Clean]; [stack] holds the elements kept
    so far, the last one first. *)
Definition step (rooted : bool) (stack : list gostring) (elem : gostring)
  : list gostring :=
  if bool_decide (elem = []) || bool_decide (elem = str ".") then stack
  else if bool_decide (elem = str "..") then
    match stack with
    | top :: below =>
        if bool_decide (top = str "..") then elem :: stack else below
    | [] => if rooted then [] else [elem]
    end
  else elem :: stack.

(** [filepath.Clean(path)]: the shortest path equivalent to [path] by
    purely lexical processing. *)
Definition Clean (path : gostring) : gostring :=
  let rooted := strings.HasPrefix path (str "/") in
  let stack := fold_left (step rooted) (strings.Split path "/") [] in
  let out := (if rooted then str "/" else []) ++ strings.Join (rev stack) (str "/") in
  if bool_decide (out = []) then str "." else out.

Fixpoint dropEmpty (elem : list gostring) : list gostring :=
  match elem with
  | [] :: rest => dropEmpty rest
  | _ => elem
  end.

(** [filepath.Join(elem...)]: the elements from the first non-empty one
    on, joined with slashes and cleaned. *)
Definition Join (elem : list gostring) : gostring :=
  match dropEmpty elem with
  | [] => []
  | rest => Clean (strings.Join rest (str "/"))
  end.

(** [filepath.Dir(path)]: all but the last element of [path]. *)
Definition Dir (path : gostring) : gostring :=
  match strings.LastIndexByte path "/" with
  | Some i => Clean (take (i + 1) path)
  | None => Clean []
  end.

End filepath.

(** ** Package [regexp]: the two expressions of [metadata.go]

    Both expressions are matched on bytes: every byte they name is ASCII,
    and [.] and a negated class match any other byte or rune alike. *)

Module regexp.

(** [ReplaceAllString(src, "")]: the text outside the successive leftmost
    matches.  [matchAt bol s] is the length of the match that starts at the
    head of [s], when there is one; [bol] tells whether [s] starts a line
    (the start of the text, or just after a line feed); [skip] counts the
    bytes of the current match still to be dropped. *)
Fixpoint removeMatches (matchAt : bool -> gostring -> option nat)
  (s : gostring) (bol : bool) (skip : nat) : gostring :=
  match s with
  | [] => []
  | c :: r =>
      match skip with
      | S k => removeMatches matchAt r (byte_eqb c NL) k
      | O =>
          match matchAt bol s with
          | Some (S k) => removeMatches matchAt r (byte_eqb c NL) k
          | _ => c :: removeMatches matchAt r (byte_eqb c NL) 0
          end
      end
  end.

(** The number of bytes before the end of the line. *)
Definition lineLength (s : gostring) : nat :=
  match strings.IndexByte s NL with
  | Some i => i
  | None => length s
  end.

End regexp.

(** ** [metadata.go]: topic cleaning *)

(** [xmlTagRegex], [<[^>]+>]: a [<], one or more bytes other than [>],
    and a [>]. *)
Definition xmlTagRegex (bol : bool) (s : gostring) : option nat :=
  match s with
  | c :: r =>
      if byte_eqb c "<" then
        match strings.IndexByte r ">" with
        | Some (S k) => Some (S k + 2)%nat
        | _ => None
        end
      else None
  | [] => None
  end.

(** [noiseRegex],
    [(?m)^(Caveat:[^.]*\. |Implement the following plan: *|# |DO NOT .*$|IMPORTANT:.*$|The messages below.*$|No prompt$)]:
    at the start of a line, the first alternative that matches. *)
Definition noiseRegex (bol : bool) (s : gostring) : option nat :=
  if negb bol then None
  else if strings.HasPrefix s (str "Caveat:") then
    let rest := drop 7 s in
    match strings.IndexByte rest "." with
    | Some j =>
        if strings.HasPrefix (drop j rest) (str ". ")
        then Some (7 + j + 2)%nat else None
    | None => None
    end
  else if strings.HasPrefix s (str "Implement the following plan:") then
    let rest := drop 29 s in
    Some (29 + (length rest - length (strings.TrimLeft rest (str " "))))%nat
  else if strings.HasPrefix s (str "# ") then Some 2%nat
  else if strings.HasPrefix s (str "DO NOT ") then Some (regexp.lineLength s)
  else if strings.HasPrefix s (str "IMPORTANT:") then Some (regexp.lineLength s)
  else if strings.HasPrefix s (str "The messages below")
  then Some (regexp.lineLength s)
  else if strings.HasPrefix s (str "No prompt")
          && bool_decide (regexp.lineLength s = 9%nat)
  then Some 9%nat
  else None.

(** What [stripIDESelectionTag] makes of the text between the tags. *)
Definition selectionInner (inner : gostring) : gostring :=
  let inner :=
    match strings.Index inner (str "This may or may not") with
    | Some cutIdx => take cutIdx inner
    | None => inner
    end in
  let inner :=
    match strings.Index inner (str ": ") with
    | Some colonIdx => drop (colonIdx + 2) inner
    | None => inner
    end in
  strings.TrimSpace inner.

(** [stripIDESelectionTag] handles the [<ide_selection>...</ide_selection>]
    wrapper.  Returns the cleaned prompt and true if the tag was found, or
    the original prompt and false if not. *)
Definition stripIDESelectionTag (prompt : gostring) : gostring * bool :=
  if negb (strings.HasPrefix prompt (str "<ide_selection>")) then (prompt, false)
  else
    match strings.Index prompt (str "</ide_selection>") with
    | Some idx =>
        let afterTag :=
          strings.TrimSpace (drop (idx + length (str "</ide_selection>")) prompt) in
        if negb (bool_decide (afterTag = [])) then (afterTag, true)
        else
          let inner :=
            take (idx - length (str "<ide_selection>"))
                 (drop (length (str "<ide_selection>")) prompt) in
          let inner := selectionInner inner in
          if negb (bool_decide (inner = [])) then (inner, true)
          else (str "(IDE selection)", true)
    | None => (prompt, true)
    end.

(** [stripIDEOpenedFileTag] handles the
    [<ide_opened_file>...</ide_opened_file>] wrapper.  Returns a formatted
    display string and true if the tag was found, or empty string and false
    if not. *)
Definition stripIDEOpenedFileTag (prompt : gostring) : gostring * bool :=
  if negb (strings.HasPrefix prompt (str "<ide_opened_file>")) then ([], false)
  else
    match strings.Index prompt (str "opened the file ") with
    | Some idx =>
        let rest := drop (idx + length (str "opened the file ")) prompt in
        match strings.Index rest (str " in the IDE") with
        | Some endIdx =>
            let filePath := take endIdx rest in
            let baseName := filepath.Base filePath in
            (str "(opened " ++ baseName ++ str ")", true)
        | None => (str "(IDE context)", true)
        end
    | None => (str "(IDE context)", true)
    end.

(** [stripXMLAndNoise] strips remaining XML tags and noise prefixes, then
    collapses whitespace. *)
Definition stripXMLAndNoise (prompt : gostring) : gostring :=
  let prompt := regexp.removeMatches xmlTagRegex prompt true 0 in
  let prompt := regexp.removeMatches noiseRegex prompt true 0 in
  strings.Join (strings.Fields prompt) (str " ").

(** [CleanTopic] strips IDE tags and system noise from a first prompt to
    produce a human-readable topic string. *)
Definition CleanTopic (prompt : gostring) : gostring :=
  if bool_decide (prompt = []) then []
  else
    (* Step 1: Handle <ide_selection> wrapper *)
    let '(result, handled) := stripIDESelectionTag prompt in
    if handled && bool_decide (result = []) then []
    else
      let prompt := if handled then result else prompt in
      (* Step 2: Handle <ide_opened_file> wrapper *)
      let '(result, handled) := stripIDEOpenedFileTag prompt in
      if handled then result
      (* Step 3: Strip remaining XML tags and noise prefixes *)
      else stripXMLAndNoise prompt.

(** The words of the specification about a text that is already clean. *)

(** An expression has no match anywhere in the text. *)
Fixpoint noMatch (matchAt : gostring -> option nat) (s : gostring) : bool :=
  match s with
  | [] => true
  | _ :: r => bool_decide (matchAt s = None) && noMatch matchAt r
  end.

(** No angle-bracket tag. *)
Definition noTags (s : gostring) : bool := noMatch (xmlTagRegex true) s.

(** No noise prefix at the start of any line. *)
Definition noNoisePrefix (s : gostring) : bool :=
  forallb (fun line => bool_decide (noiseRegex true line = None))
          (strings.Split s NL).

(** Every white-space rune of the text is a single space that does not
    follow another white-space rune; [afterSpace] tells whether the text
    follows one. *)
Fixpoint singleSpacesFrom (s : gostring) (afterSpace : bool) : bool :=
  match s with
  | [] => true
  | c :: r =>
      match strings.spaceWidth s with
      | O => singleSpacesFrom r false
      | S _ => byte_eqb c SP && negb afterSpace && singleSpacesFrom r true
      end
  end.

(** No white-space run beyond single spaces. *)
Definition singleSpaces (s : gostring) : bool := singleSpacesFrom s false.

(** No white space at either end. *)
Definition trimmed (s : gostring) : bool :=
  (strings.spaceWidth s =? 0)%nat && (strings.spaceWidthEnd (rev s) =? 0)%nat.

(** ** [discover.go]: names *)

(** [shortenIDEName] converts verbose IDE names to short display names. *)
Definition shortenIDEName (fullName : gostring) : gostring :=
  if strings.Contains fullName (str "Visual Studio Code") then str "VSCode"
  else if strings.Contains fullName (str "Cursor") then str "Cursor"
  else if bool_decide (fullName = []) then str "IDE"
  else fullName.

(** [ShortProjectName] returns the last 2 path components (e.g.,
    "personal/myapp"). *)
Definition ShortProjectName (fullPath : gostring) : gostring :=
  let fullPath := strings.TrimRight fullPath (str "/") in
  let name := filepath.Base fullPath in
  let parent := filepath.Base (filepath.Dir fullPath) in
  if bool_decide (parent = str "/") || bool_decide (parent = str ".")
     || bool_decide (parent = [])
  then name
  else parent ++ str "/" ++ name.

(** [EncodePath] converts a filesystem path to Claude's project directory
    format.  Replaces / and . with - *)
Definition EncodePath (path : gostring) : gostring :=
  let result := strings.ReplaceAll path "/" (str "-") in
  strings.ReplaceAll result "." (str "-").

(** ** The machine

    What a pass reads besides the file system: the environment, the
    process table as [ps] prints it ([None] when the command fails), the
    working directories as the platform gives them, which processes are
    alive, the clock, and how the local time zone renders an instant in
    the layout [time.RFC3339Nano]. *)
Record World : Type := mkWorld {
  HOME : gostring;
  GOOS : gostring;
  psOutput : option gostring;
  Readlink : gostring -> option gostring;
  lsofOutput : gostring -> option gostring;
  processAlive : Z -> bool;
  Now : time.Time;
  FormatRFC3339Nano : time.Time -> gostring;
  fileSystem : os.FS
}.

(** ** [discover.go]: candidates *)

(** [runPS] executes ps and returns raw stdout. *)
Definition runPS (w : World) : gostring := default [] (psOutput w).

(** One line of the output of [lsof -Fn]: lines starting with ['p'] are
    PIDs, ['n'] are paths. *)
Definition lsofLine (st : Z * gmap Z gostring) (line : gostring)
  : Z * gmap Z gostring :=
  let '(currentPID, cwdMap) := st in
  match line with
  | [] => st
  | c :: rest =>
      if byte_eqb c "p" then
        let '(pid, ok) := strconv.Atoi rest in
        if ok then (pid, cwdMap) else st
      else if byte_eqb c "n" then
        if negb (currentPID =? 0) then (currentPID, <[currentPID := rest]> cwdMap)
        else st
      else st
  end.

(** [BatchResolveCWDs] resolves working directories for all PIDs in a
    single system call.  On macOS, uses lsof.  On Linux, reads
    [/proc/<pid>/cwd]. *)
Definition BatchResolveCWDs (w : World) (entries : list psEntry.t)
  : gmap Z gostring :=
  if bool_decide (GOOS w = str "linux") then
    fold_left
      (fun cwdMap entry =>
         match Readlink w (str "/proc/" ++ fmt.d (psEntry.PID entry) ++ str "/cwd") with
         | Some link => <[psEntry.PID entry := link]> cwdMap
         | None => cwdMap
         end)
      entries ∅
  else if bool_decide (entries = []) then ∅
  else
    let pidList :=
      strings.Join (map (fun entry => strconv.Itoa (psEntry.PID entry)) entries)
                   (str ",") in
    match lsofOutput w pidList with
    | None => ∅
    | Some out => snd (fold_left lsofLine (strings.Split out NL) (0, ∅))
    end.

(** A session as discovery creates it: the fields not named keep their
    zero values. *)
Definition newSession (pid : Z) (cwd : gostring) (source : gostring)
  (duration : time.Duration) : Session.t :=
  Session.mk pid cwd StateActive (Source.mk source) (ShortProjectName cwd)
             [] [] duration 0.

(** [seenCWDs[cwd]] on a [map[string]bool]. *)
Definition seen (seenCWDs : gmap gostring bool) (cwd : gostring) : bool :=
  default false (seenCWDs !! cwd).

(** One turn of the loop of [discoverCLISessions]; the map [seenCWDs] is
    the caller's, and the turn that accepts a candidate writes to it. *)
Definition cliCandidate (cwdMap : gmap Z gostring)
  (st : list Session.t * gmap gostring bool) (entry : psEntry.t)
  : list Session.t * gmap gostring bool :=
  let '(sessions, seenCWDs) := st in
  (* CLI sessions have a TTY (ttysNNN), IDE sessions have ?? *)
  if bool_decide (psEntry.TTY entry = str "??") then st
  else
    (* Ensure this is a top-level claude command *)
    match strings.Fields (psEntry.Command entry) with
    | [] => st
    | command :: _ =>
        if negb (bool_decide (filepath.Base command = str "claude")) then st
        else
          match cwdMap !! psEntry.PID entry with
          | None => st
          | Some cwd =>
              if bool_decide (cwd = []) then st
              (* Skip if this CWD was already claimed by an IDE session *)
              else if seen seenCWDs cwd then st
              else
                let seenCWDs := <[cwd := true]> seenCWDs in
                let duration := ParseEtime (psEntry.Etime entry) in
                (sessions ++ [newSession (psEntry.PID entry) cwd (str "CLI") duration],
                 seenCWDs)
          end
    end.

(** [discoverCLISessions] finds CLI-launched Claude sessions from ps
    entries; it returns its sessions and leaves the seen-set as the second
    component. *)
Definition discoverCLISessions (entries : list psEntry.t)
  (cwdMap : gmap Z gostring) (seenCWDs : gmap gostring bool)
  : list Session.t * gmap gostring bool :=
  fold_left (cliCandidate cwdMap) entries ([], seenCWDs).

(** ** Package [sort]

    [sort.Slice(x, less)] as its documentation gives it: the slice is
    permuted so that no element is less than one before it, provided
    [less] is a strict weak ordering; the sort is not stable, so the order
    of equal elements is left open. *)

Definition strictWeakOrder {A : Type} (less : A -> A -> bool) : Prop :=
  (forall a, less a a = false) /\
  (forall a b c, less a b = true -> less b c = true -> less a c = true) /\
  (forall a b c, less a b = false -> less b c = false -> less a c = false).

Class Sort : Type := {
  sort_Slice : forall {A : Type}, (A -> A -> bool) -> list A -> list A;
  sort_Slice_Permutation :
    forall {A : Type} (less : A -> A -> bool) (x : list A),
      Permutation x (sort_Slice less x);
  sort_Slice_sorted :
    forall {A : Type} (less : A -> A -> bool) (x : list A),
      strictWeakOrder less ->
      StronglySorted (fun a b => less b a = false) (sort_Slice less x)
}.

(** ** Package [bufio]

    [bufio.Scanner] with the default split function [ScanLines] and a
    buffer of [max] bytes: the lines of the text, each without its line
    feed and without a trailing carriage return; an empty final line is
    not a line; scanning stops at a line that does not fit the buffer. *)

Module bufio.

Definition dropCR (line : gostring) : gostring :=
  match rev line with
  | c :: r => if byte_eqb c "013" then rev r else line
  | [] => line
  end.

(** The pieces between line feeds, without the empty piece after a final
    line feed. *)
Definition rawLines (text : gostring) : list gostring :=
  let pieces := strings.Split text NL in
  match rev pieces with
  | [] :: r => rev r
  | _ => pieces
  end.

Fixpoint takeFitting (max : Z) (lines : list gostring) : list gostring :=
  match lines with
  | [] => []
  | line :: rest =>
      if Z.of_nat (length line) <? max then line :: takeFitting max rest else []
  end.

Definition ScanLines (max : Z) (text : gostring) : list gostring :=
  map dropCR (takeFitting max (rawLines text)).

End bufio.

(** ** The engine *)

Section Engine.

Context {json : JSON}.

(** [hasToolUse] checks if message content contains a [tool_use] block
    with the given name. *)
Definition hasToolUse (raw toolName : gostring) : bool :=
  if bool_decide (raw = []) then false
  else
    match Unmarshal_toolBlocks raw with
    | None => false
    | Some contentBlocks =>
        existsb
          (fun block =>
             bool_decide (toolBlock.Type_ block = str "tool_use")
             && bool_decide (toolBlock.Name block = toolName))
          contentBlocks
    end.

(** [DetectState] determines the session state using the state machine
    of the spec. *)
Definition DetectState (fs : os.FS) (jsonlPath : gostring)
  (mtime now : time.Time) : M State :=
  let age := time.Sub now mtime in
  (* Rule 1: recently modified -> active *)
  if age <? activeRecentThreshold then mret StateActive
  else
    (* Read last line for type/role checks *)
    lastLine ← ReadLastLine fs jsonlPath;
    if bool_decide (lastLine = []) then mret StateIdle
    else
      match Unmarshal_jsonlLine lastLine with
      | None => mret StateIdle
      | Some entry =>
          (* Rule 2: progress type -> active *)
          if bool_decide (jsonlLine.Type_ entry = str "progress")
          then mret StateActive
          (* Rule 3: assistant role -> check for AskUserQuestion tool use *)
          else if bool_decide
                    (jsonlMessage.Role (jsonlLine.Message entry) = str "assistant")
          then
            if hasToolUse (jsonlMessage.Content (jsonlLine.Message entry))
                 (str "AskUserQuestion")
            then mret StateInput
            else mret StateWaiting
          (* Rule 4: user role + recent -> active *)
          else if bool_decide
                    (jsonlMessage.Role (jsonlLine.Message entry) = str "user")
                  && (age <? activeUserPromptThreshold)
          then mret StateActive
          (* Rule 5: default -> idle *)
          else mret StateIdle
      end.

(** [isProcessAlive] checks if a PID is running by sending signal 0. *)
Definition isProcessAlive (w : World) (pid : Z) : bool := processAlive w pid.

(** The inner loop of [discoverIDESessions]: the first claude process
    without a terminal whose working directory lies under the workspace. *)
Definition workspaceProcess (entries : list psEntry.t)
  (cwdMap : gmap Z gostring) (workspace : gostring) : option psEntry.t :=
  List.find
    (fun entry =>
       bool_decide (psEntry.TTY entry = str "??")
       && match cwdMap !! psEntry.PID entry with
          | Some cwd => strings.HasPrefix cwd workspace
          | None => false
          end)
    entries.

(** One turn of the outer loop of [discoverIDESessions], for one lock
    file. *)
Definition ideLock (w : World) (entries : list psEntry.t)
  (cwdMap : gmap Z gostring) (sessions : list Session.t)
  (lockFilePath : gostring) : M (list Session.t) :=
  data ← os_ReadFile (fileSystem w) lockFilePath;
  match data with
  | None => mret sessions
  | Some data =>
      match Unmarshal_ideLockFile data with
      | None => mret sessions
      | Some lockFile =>
          match ideLockFile.WorkspaceFolders lockFile with
          | [] => mret sessions
          | workspace :: _ =>
              if ideLockFile.PID lockFile =? 0 then mret sessions
              (* Verify the IDE process is still alive *)
              else if negb (isProcessAlive w (ideLockFile.PID lockFile))
              then mret sessions
              else
                let ideName := shortenIDEName (ideLockFile.IDEName lockFile) in
                (* Find a claude process (TTY=??) whose CWD matches *)
                match workspaceProcess entries cwdMap workspace with
                | Some entry =>
                    let duration := ParseEtime (psEntry.Etime entry) in
                    mret (sessions
                          ++ [newSession (psEntry.PID entry) workspace ideName
                                duration])
                | None => mret sessions
                end
          end
      end
  end.

(** A loop over a slice in the monad. *)
Fixpoint foldM {A B : Type} (f : B -> A -> M B) (l : list A) (b : B) : M B :=
  match l with
  | [] => mret b
  | a :: l' => b' ← f b a; foldM f l' b'
  end.

(** [discoverIDESessions] finds IDE-launched Claude sessions from lock
    files. *)
Definition discoverIDESessions (w : World) (claudeDir : gostring)
  (entries : list psEntry.t) (cwdMap : gmap Z gostring) : M (list Session.t) :=
  let ideDir := filepath.Join [claudeDir; str "ide"] in
  lockFiles ← filepath_Glob (fileSystem w) (filepath.Join [ideDir; str "*.lock"]);
  match lockFiles with
  | None | Some [] => mret []
  | Some lockFiles => foldM (ideLock w entries cwdMap) lockFiles []
  end.

Context {sorting : Sort}.

(** [extractMessageText] extracts the text content from a
    [message.content] field, which can be either a string or an array of
    content blocks. *)
Definition extractMessageText (raw : gostring) : gostring :=
  if bool_decide (raw = []) then []
  else
    (* Try as string first *)
    match Unmarshal_string raw with
    | Some textContent => textContent
    | None =>
        (* Try as array of content blocks *)
        match Unmarshal_textBlocks raw with
        | Some contentBlocks =>
            let texts :=
              omap (fun block =>
                      if bool_decide (textBlock.Type_ block = str "text")
                         && negb (bool_decide (textBlock.Text block = []))
                      then Some (textBlock.Text block) else None)
                   contentBlocks in
            strings.Join texts (str " ")
        | None => []
        end
    end.

(** [prompt[:maxPromptLength]] when the prompt is longer. *)
Definition truncatePrompt (prompt : gostring) : gostring :=
  if (maxPromptLength <? length prompt)%nat then take maxPromptLength prompt
  else prompt.

(** The loop of [extractFirstPrompt] over the scanned lines. *)
Fixpoint firstPromptOf (lines : list gostring) : gostring :=
  match lines with
  | [] => []
  | line :: rest =>
      if bool_decide (line = []) then firstPromptOf rest
      else
        match Unmarshal_jsonlLine line with
        | None => firstPromptOf rest
        | Some entry =>
            if negb (bool_decide (jsonlLine.Type_ entry = str "user"))
            then firstPromptOf rest
            else
              let text :=
                extractMessageText
                  (jsonlMessage.Content (jsonlLine.Message entry)) in
              (* Skip system-generated messages *)
              if strings.HasPrefix text (str "[Request interrupted")
                 || strings.HasPrefix text (str "[Tool use")
              then firstPromptOf rest
              else truncatePrompt text
        end
  end.

(** [extractFirstPrompt] scans the first [maxLinesToScanPrompt] lines of a
    JSONL file for the first meaningful user message, skipping
    system-generated messages. *)
Definition extractFirstPrompt (fs : os.FS) (jsonlPath : gostring) : M gostring :=
  file ← os_Open fs jsonlPath;
  match file with
  | None => mret []
  | Some file =>
      mret (firstPromptOf
              (take maxLinesToScanPrompt
                 (bufio.ScanLines maxScannerBufferBytes (os.contents file))))
  end.

(** [countLines] returns the number of lines in a file. *)
Definition countLines (fs : os.FS) (filePath : gostring) : M Z :=
  file ← os_Open fs filePath;
  match file with
  | None => mret 0
  | Some file =>
      mret (Z.of_nat
              (length (bufio.ScanLines maxScannerBufferBytes (os.contents file))))
  end.

(** What the two matchers return:
    [(fullPath, firstPrompt, messageCount, gitBranch, found)]. *)
Record Located : Type := mkLocated {
  fullPath : gostring;
  firstPrompt : gostring;
  messageCount : Z;
  gitBranch : gostring;
  found : bool
}.

Definition notFound : Located := mkLocated [] [] 0 [] false.

(** The comparison [findSessionFromIndex] sorts with:
    [index.Entries[i].FileMtime > index.Entries[j].FileMtime]. *)
Definition newerFirst (a b : sessionsIndexEntry.t) : bool :=
  sessionsIndexEntry.FileMtime b <? sessionsIndexEntry.FileMtime a.

(** [findSessionFromIndex] reads [sessions-index.json] and returns the
    most recent session. *)
Definition findSessionFromIndex (fs : os.FS) (indexPath : gostring) : M Located :=
  data ← os_ReadFile fs indexPath;
  match data with
  | None => mret notFound
  | Some data =>
      match Unmarshal_sessionsIndex data with
      | None => mret notFound
      | Some index =>
          if bool_decide (sessionsIndex.Entries index = []) then mret notFound
          else
            (* Sort by fileMtime descending to find the most recent *)
            let entries := sort_Slice newerFirst (sessionsIndex.Entries index) in
            match entries with
            | [] => mret notFound
            | entry :: _ =>
                if bool_decide (sessionsIndexEntry.FullPath entry = [])
                then mret notFound
                else
                  let prompt := truncatePrompt (sessionsIndexEntry.FirstPrompt entry) in
                  mret (mkLocated (sessionsIndexEntry.FullPath entry) prompt
                          (sessionsIndexEntry.MessageCount entry)
                          (sessionsIndexEntry.GitBranch entry) true)
            end
      end
  end.

(** One turn of the loop of [findSessionFallback] that finds the newest
    JSONL file by mtime; the state is [(newestPath, newestTime)]. *)
Definition newestFile (fs : os.FS) (st : gostring * time.Time)
  (matchPath : gostring) : M (gostring * time.Time) :=
  let '(newestPath, newestTime) := st in
  info ← os_Stat fs matchPath;
  match info with
  | None => mret st
  | Some info =>
      if bool_decide (newestPath = []) || time.After (os.ModTime info) newestTime
      then mret (matchPath, os.ModTime info)
      else mret st
  end.

(** [findSessionFallback] finds the most recently modified JSONL file in
    a project directory. *)
Definition findSessionFallback (fs : os.FS) (projectDir : gostring) : M Located :=
  matches ← filepath_Glob fs (filepath.Join [projectDir; str "*.jsonl"]);
  match matches with
  | None | Some [] => mret notFound
  | Some matches =>
      '(newestPath, _) ← foldM (newestFile fs) matches ([], time.zero);
      if bool_decide (newestPath = []) then mret notFound
      else
        (* Read first N lines to find the first user message *)
        firstPrompt ← extractFirstPrompt fs newestPath;
        (* Count lines for approximate message count *)
        messageCount ← countLines fs newestPath;
        (* Read last line for gitBranch and slug *)
        lastLine ← ReadLastLine fs newestPath;
        let '(gitBranch, firstPrompt) :=
          if bool_decide (lastLine = []) then ([], firstPrompt)
          else
            match Unmarshal_jsonlLine lastLine with
            | None => ([], firstPrompt)
            | Some lastEntry =>
                (jsonlLine.GitBranch lastEntry,
                 if bool_decide (firstPrompt = [])
                    && negb (bool_decide (jsonlLine.Slug lastEntry = []))
                 then jsonlLine.Slug lastEntry
                 else firstPrompt)
            end in
        mret (mkLocated newestPath firstPrompt messageCount gitBranch true)
  end.

(** The fallback of [enrichSession] when the cleaned topic is empty: the
    slug of the last line, or the first 8 bytes of its session ID. *)
Definition fallbackTopic (fs : os.FS) (fullPath topic : gostring) : M gostring :=
  if negb (bool_decide (topic = [])) then mret topic
  else
    lastLine ← ReadLastLine fs fullPath;
    if bool_decide (lastLine = []) then mret topic
    else
      match Unmarshal_jsonlLine lastLine with
      | None => mret topic
      | Some lastEntry =>
          if negb (bool_decide (jsonlLine.Slug lastEntry = []))
          then mret (jsonlLine.Slug lastEntry)
          else if negb (bool_decide (jsonlLine.SessionID lastEntry = []))
                  && (8 <=? length (jsonlLine.SessionID lastEntry))%nat
          then mret (take 8 (jsonlLine.SessionID lastEntry))
          else mret topic
      end.

(** [session.Topic, session.Messages, session.Branch, session.State = ...]. *)
Definition setMetadata (session : Session.t) (topic : gostring) (messages : Z)
  (branch : gostring) (state : State) : Session.t :=
  Session.mk (Session.PID session) (Session.CWD session) state
             (Session.Source session) (Session.Project session) topic branch
             (Session.Duration session) messages.

(** [session.State = state]. *)
Definition setState (session : Session.t) (state : State) : Session.t :=
  setMetadata session (Session.Topic session) (Session.Messages session)
              (Session.Branch session) state.

(** [cwd + ":" + mtime.Format(time.RFC3339Nano)]. *)
Definition cacheKeyOf (w : World) (cwd : gostring) (mtime : time.Time) : gostring :=
  cwd ++ str ":" ++ FormatRFC3339Nano w mtime.

(** [enrichSession] once the transcript is located: the check of the
    file's mtime, the cache, and the state. *)
Definition enrichLocated (w : World) (session : Session.t) (cwd : gostring)
  (now : time.Time) (located : Located) : M Session.t :=
  let fs := fileSystem w in
  if negb (found located) then mret session
  else
    (* Check file mtime for caching *)
    fileInfo ← os_Stat fs (fullPath located);
    match fileInfo with
    | None => mret session
    | Some fileInfo =>
        let mtime := os.ModTime fileInfo in
        let cacheKey := cacheKeyOf w cwd mtime in
        cached ← cacheLookup cacheKey;
        match cached with
        | Some cached =>
            (* Cache hit: reuse topic, messages, branch; always recompute state *)
            state ← DetectState fs (cachedMetadata.FullPath cached) mtime now;
            mret (setMetadata session (cachedMetadata.Topic cached)
                    (cachedMetadata.Messages cached)
                    (cachedMetadata.Branch cached) state)
        | None =>
            (* Cache miss: compute everything *)
            let topic := CleanTopic (firstPrompt located) in
            (* Fall back to slug or session ID if topic is empty *)
            topic ← fallbackTopic fs (fullPath located) topic;
            state ← DetectState fs (fullPath located) mtime now;
            (* Store in cache *)
            _ ← cacheStore cacheKey
                  (cachedMetadata.mk (fullPath located) topic
                     (messageCount located) (gitBranch located));
            mret (setMetadata session topic (messageCount located)
                    (gitBranch located) state)
        end
    end.

(** [enrichSession] populates a single session's metadata fields. *)
Definition enrichSession (w : World) (session : Session.t)
  (projectsDir cwd : gostring) (now : time.Time) : M Session.t :=
  let fs := fileSystem w in
  let session := setState session StateIdle in
  let encodedPath := EncodePath cwd in
  let projectDir := filepath.Join [projectsDir; encodedPath] in
  (* Try sessions-index.json first *)
  let indexPath := filepath.Join [projectDir; str "sessions-index.json"] in
  located ← findSessionFromIndex fs indexPath;
  (* Fallback: find newest JSONL file *)
  located ← (if negb (found located) then findSessionFallback fs projectDir
             else mret located);
  enrichLocated w session cwd now located.

(** The loop of [EnrichSessions] over the slice. *)
Fixpoint enrichEach (w : World) (projectsDir : gostring) (now : time.Time)
  (sessions : list Session.t) : M (list Session.t) :=
  match sessions with
  | [] => mret []
  | session :: rest =>
      session' ← enrichSession w session projectsDir (Session.CWD session) now;
      rest' ← enrichEach w projectsDir now rest;
      mret (session' :: rest')
  end.

(** [EnrichSessions] adds state, topic, branch, and message count to each
    session by reading transcript files from the Claude projects
    directory. *)
Definition EnrichSessions (w : World) (sessions : list Session.t)
  (claudeDir : gostring) : M (list Session.t) :=
  let projectsDir := filepath.Join [claudeDir; str "projects"] in
  let now := Now w in
  enrichEach w projectsDir now sessions.

(** The first loop of [DiscoverAll]: every IDE session is recorded in the
    seen-set and appended. *)
Definition claimIDE (st : list Session.t * gmap gostring bool)
  (session : Session.t) : list Session.t * gmap gostring bool :=
  let '(sessions, seenCWDs) := st in
  (sessions ++ [session], <[Session.CWD session := true]> seenCWDs).

(** [DiscoverAll] is the main orchestrator that finds all running Claude
    sessions. *)
Definition DiscoverAll (w : World) : M (list Session.t) :=
  let claudeDir := filepath.Join [HOME w; str ".claude"] in
  (* Single ps call for all Claude processes *)
  let psOutput := runPS w in
  let entries := ParsePS psOutput in
  if bool_decide (entries = []) then mret []
  else
    (* Batch-resolve CWDs for all PIDs *)
    let cwdMap := BatchResolveCWDs w entries in
    (* Discover IDE sessions first *)
    ideSessions ← discoverIDESessions w claudeDir entries cwdMap;
    (* Track seen CWDs for deduplication (IDE wins over CLI) *)
    let '(sessions, seenCWDs) := fold_left claimIDE ideSessions ([], ∅) in
    (* Discover CLI sessions, skipping CWDs already claimed by IDE *)
    let '(cliSessions, _) := discoverCLISessions entries cwdMap seenCWDs in
    let sessions := sessions ++ cliSessions in
    (* Enrich all sessions with transcript metadata *)
    EnrichSessions w sessions claudeDir.

End Engine.

(** A computation that leaves the metadata cache as it is. *)
Definition cacheFixed {A : Type} (m : M A) : Prop :=
  forall st, metadataCache (snd (m st)) = metadataCache st.

(** The life of the process: one pass of [DiscoverAll] after another, each
    on the machine as it is at the time. *)
Fixpoint passes {json : JSON} {sorting : Sort} (ws : list World) : M unit :=
  match ws with
  | [] => mret tt
  | w :: rest => _ ← DiscoverAll w; passes rest
  end.

(** A computation that only ever adds entries to the metadata cache: every
    entry it starts with is still there, unchanged, when it ends. *)
Definition cacheGrows {A : Type} (m : M A) : Prop :=
  forall st, metadataCache st ⊆ metadataCache (snd (m st)).

(** ** A JSON decoder for the examples

    The properties below hold for every decoder, [encoding/json] among
    them.  To run the program on the texts of the package's tests, this
    decoder reads JSON the way [json.Unmarshal] does into the program's
    types: object keys match field names without regard to (ASCII) case and
    unknown keys are skipped; [null] leaves a field as it is; a value of
    the wrong kind for a known field is an error; a [json.RawMessage]
    receives the text of the value.  In strings the escapes other than
    [\u] are read; a [\u] escape is refused. *)

Module jsonref.

#[local] Set Warnings "-register-all".

Inductive value : Type :=
| Null
| Bool (b : bool)
| Number (text : gostring)
| String (s : gostring)
| Array (elems : list (gostring * value))
| Object (members : list (gostring * (gostring * value))).

Definition isSpace (c : ascii) : bool :=
  byte_eqb c " " || byte_eqb c "009" || byte_eqb c "010" || byte_eqb c "013".

Fixpoint skipSpace (s : gostring) : gostring :=
  match s with
  | c :: r => if isSpace c then skipSpace r else s
  | [] => []
  end.

(** The rest of a string literal, after its opening quote. *)
Fixpoint stringBody (s : gostring) : option (gostring * gostring) :=
  match s with
  | [] => None
  | c :: r =>
      if byte_eqb c "034" then Some ([], r)
      else if byte_eqb c "\" then
        match r with
        | e :: r' =>
            let unescaped :=
              if byte_eqb e "034" then Some "034"%char
              else if byte_eqb e "\" then Some "\"%char
              else if byte_eqb e "/" then Some "/"%char
              else if byte_eqb e "b" then Some "008"%char
              else if byte_eqb e "f" then Some "012"%char
              else if byte_eqb e "n" then Some "010"%char
              else if byte_eqb e "r" then Some "013"%char
              else if byte_eqb e "t" then Some "009"%char
              else None in
            match unescaped, stringBody r' with
            | Some u, Some (body, rest) => Some (u :: body, rest)
            | _, _ => None
            end
        | [] => None
        end
      else if code c <? 32 then None
      else
        match stringBody r with
        | Some (body, rest) => Some (c :: body, rest)
        | None => None
        end
  end.

Fixpoint spanDigits (s : gostring) : gostring * gostring :=
  match s with
  | c :: r =>
      if strconv.isDigit c then let '(ds, rest) := spanDigits r in (c :: ds, rest)
      else ([], s)
  | [] => ([], [])
  end.

(** A number literal: [-? digits (. digits)? ([eE] [+-]? digits)?], the
    integer part without a leading zero. *)
Definition numberLiteral (s : gostring) : option (gostring * gostring) :=
  let '(sign, s1) :=
    match s with
    | c :: r => if byte_eqb c "-" then ([c], r) else ([], s)
    | [] => ([], s)
    end in
  let '(int, s2) := spanDigits s1 in
  match int with
  | [] => None
  | d :: ds =>
      if byte_eqb d "0" && strings.nonEmpty ds then None
      else
        let frac :=
          match s2 with
          | c :: r =>
              if byte_eqb c "." then
                let '(fs, s3) := spanDigits r in
                match fs with [] => None | _ => Some (c :: fs, s3) end
              else Some ([], s2)
          | [] => Some ([], s2)
          end in
        match frac with
        | None => None
        | Some (fracText, s3) =>
            let exp :=
              match s3 with
              | c :: r =>
                  if byte_eqb c "e" || byte_eqb c "E" then
                    let '(esign, r') :=
                      match r with
                      | x :: r'' =>
                          if byte_eqb x "+" || byte_eqb x "-" then ([x], r'')
                          else ([], r)
                      | [] => ([], r)
                      end in
                    let '(es, s4) := spanDigits r' in
                    match es with
                    | [] => None
                    | _ => Some (c :: esign ++ es, s4)
                    end
                  else Some ([], s3)
              | [] => Some ([], s3)
              end in
            match exp with
            | None => None
            | Some (expText, s4) => Some (sign ++ int ++ fracText ++ expText, s4)
            end
        end
  end.

(** The text a value was read from: what was consumed of [s]. *)
Definition consumed (s rest : gostring) : gostring :=
  take (length s - length rest) s.

(** A value at the head of [s] (no leading white space), and the rest;
    [fuel] bounds the nesting and the number of elements. *)
Fixpoint parseValue (fuel : nat) (s : gostring) : option (value * gostring) :=
  match fuel with
  | O => None
  | S fuel' =>
      match s with
      | [] => None
      | c :: r =>
          if byte_eqb c "{" then
            match skipSpace r with
            | x :: r' =>
                if byte_eqb x "}" then Some (Object [], r')
                else
                  match parseMembers fuel' (x :: r') with
                  | Some (members, rest) => Some (Object members, rest)
                  | None => None
                  end
            | [] => None
            end
          else if byte_eqb c "[" then
            match skipSpace r with
            | x :: r' =>
                if byte_eqb x "]" then Some (Array [], r')
                else
                  match parseElems fuel' (x :: r') with
                  | Some (elems, rest) => Some (Array elems, rest)
                  | None => None
                  end
            | [] => None
            end
          else if byte_eqb c "034" then
            match stringBody r with
            | Some (body, rest) => Some (String body, rest)
            | None => None
            end
          else if strings.HasPrefix s (str "true") then Some (Bool true, drop 4 s)
          else if strings.HasPrefix s (str "false") then Some (Bool false, drop 5 s)
          else if strings.HasPrefix s (str "null") then Some (Null, drop 4 s)
          else
            match numberLiteral s with
            | Some (text, rest) => Some (Number text, rest)
            | None => None
            end
      end
  end
with parseMembers (fuel : nat) (s : gostring)
  : option (list (gostring * (gostring * value)) * gostring) :=
  match fuel with
  | O => None
  | S fuel' =>
      match s with
      | q :: r =>
          if negb (byte_eqb q "034") then None
          else
            match stringBody r with
            | None => None
            | Some (key, afterKey) =>
                match skipSpace afterKey with
                | colon :: afterColon =>
                    if negb (byte_eqb colon ":") then None
                    else
                      let start := skipSpace afterColon in
                      match parseValue fuel' start with
                      | None => None
                      | Some (v, afterValue) =>
                          let member := (key, (consumed start afterValue, v)) in
                          match skipSpace afterValue with
                          | x :: r' =>
                              if byte_eqb x "}" then Some ([member], r')
                              else if byte_eqb x "," then
                                match parseMembers fuel' (skipSpace r') with
                                | Some (members, rest) =>
                                    Some (member :: members, rest)
                                | None => None
                                end
                              else None
                          | [] => None
                          end
                      end
                | [] => None
                end
            end
      | [] => None
      end
  end
with parseElems (fuel : nat) (s : gostring)
  : option (list (gostring * value) * gostring) :=
  match fuel with
  | O => None
  | S fuel' =>
      match parseValue fuel' s with
      | None => None
      | Some (v, afterValue) =>
          let elem := (consumed s afterValue, v) in
          match skipSpace afterValue with
          | x :: r' =>
              if byte_eqb x "]" then Some ([elem], r')
              else if byte_eqb x "," then
                match parseElems fuel' (skipSpace r') with
                | Some (elems, rest) => Some (elem :: elems, rest)
                | None => None
                end
              else None
          | [] => None
          end
      end
  end.

(** A whole text: one value between optional white space. *)
Definition parse (text : gostring) : option value :=
  match parseValue (S (length text)) (skipSpace text) with
  | Some (v, rest) =>
      match skipSpace rest with
      | [] => Some v
      | _ => None
      end
  | None => None
  end.

(** *** Decoding into the program's types *)

Definition lower (c : ascii) : ascii :=
  if (65 <=? code c) && (code c <=? 90)
  then ascii_of_nat (Z.to_nat (code c + 32)) else c.

Definition named (key : gostring) (name : string) : bool :=
  bool_decide (map lower key = map lower (str name)).

Definition decodeString (v : value) (cur : gostring) : option gostring :=
  match v with
  | String s => Some s
  | Null => Some cur
  | _ => None
  end.

Definition decodeInt (v : value) (cur : Z) : option Z :=
  match v with
  | Number text =>
      let '(n, ok) := strconv.Atoi text in
      if ok then Some n else None
  | Null => Some cur
  | _ => None
  end.

(** A struct: the members of the object in turn, each through [field],
    which gets the key, the text of the value, the value and the struct
    so far. *)
Definition decodeStruct {A : Type}
  (field : gostring -> gostring -> value -> A -> option A)
  (v : value) (cur : A) : option A :=
  match v with
  | Object members =>
      fold_left
        (fun acc member =>
           a ← acc;
           field member.1 member.2.1 member.2.2 a)
        members (Some cur)
  | Null => Some cur
  | _ => None
  end.

Definition decodeSlice {A : Type} (elem : value -> option A) (v : value)
  : option (list A) :=
  match v with
  | Array elems => mapM (fun e => elem e.2) elems
  | Null => Some []
  | _ => None
  end.

Definition messageField (key raw : gostring) (v : value) (m : jsonlMessage.t)
  : option jsonlMessage.t :=
  if named key "role" then
    s ← decodeString v (jsonlMessage.Role m);
    Some (jsonlMessage.mk s (jsonlMessage.Content m))
  else if named key "content" then Some (jsonlMessage.mk (jsonlMessage.Role m) raw)
  else Some m.

Definition lineField (key raw : gostring) (v : value) (l : jsonlLine.t)
  : option jsonlLine.t :=
  let '(jsonlLine.mk type message slug branch session cwd) := l in
  if named key "type" then
    s ← decodeString v type; Some (jsonlLine.mk s message slug branch session cwd)
  else if named key "message" then
    m ← decodeStruct messageField v message;
    Some (jsonlLine.mk type m slug branch session cwd)
  else if named key "slug" then
    s ← decodeString v slug; Some (jsonlLine.mk type message s branch session cwd)
  else if named key "gitBranch" then
    s ← decodeString v branch; Some (jsonlLine.mk type message slug s session cwd)
  else if named key "sessionId" then
    s ← decodeString v session; Some (jsonlLine.mk type message slug branch s cwd)
  else if named key "cwd" then
    s ← decodeString v cwd; Some (jsonlLine.mk type message slug branch session s)
  else Some l.

Definition entryField (key raw : gostring) (v : value)
  (e : sessionsIndexEntry.t) : option sessionsIndexEntry.t :=
  let '(sessionsIndexEntry.mk id path prompt count mtime created modified
          branch) := e in
  if named key "sessionId" then
    s ← decodeString v id;
    Some (sessionsIndexEntry.mk s path prompt count mtime created modified branch)
  else if named key "fullPath" then
    s ← decodeString v path;
    Some (sessionsIndexEntry.mk id s prompt count mtime created modified branch)
  else if named key "firstPrompt" then
    s ← decodeString v prompt;
    Some (sessionsIndexEntry.mk id path s count mtime created modified branch)
  else if named key "messageCount" then
    n ← decodeInt v count;
    Some (sessionsIndexEntry.mk id path prompt n mtime created modified branch)
  else if named key "fileMtime" then
    n ← decodeInt v mtime;
    Some (sessionsIndexEntry.mk id path prompt count n created modified branch)
  else if named key "created" then
    s ← decodeString v created;
    Some (sessionsIndexEntry.mk id path prompt count mtime s modified branch)
  else if named key "modified" then
    s ← decodeString v modified;
    Some (sessionsIndexEntry.mk id path prompt count mtime created s branch)
  else if named key "gitBranch" then
    s ← decodeString v branch;
    Some (sessionsIndexEntry.mk id path prompt count mtime created modified s)
  else Some e.

Definition indexField (key raw : gostring) (v : value) (i : sessionsIndex.t)
  : option sessionsIndex.t :=
  if named key "entries" then
    es ← decodeSlice
           (fun e =>
              decodeStruct entryField e
                (sessionsIndexEntry.mk [] [] [] 0 0 [] [] []))
           v;
    Some (sessionsIndex.mk es)
  else Some i.

Definition lockField (key raw : gostring) (v : value) (l : ideLockFile.t)
  : option ideLockFile.t :=
  let '(ideLockFile.mk pid folders name transport) := l in
  if named key "pid" then
    n ← decodeInt v pid; Some (ideLockFile.mk n folders name transport)
  else if named key "workspaceFolders" then
    fs ← decodeSlice (fun e => decodeString e []) v;
    Some (ideLockFile.mk pid fs name transport)
  else if named key "ideName" then
    s ← decodeString v name; Some (ideLockFile.mk pid folders s transport)
  else if named key "transport" then
    s ← decodeString v transport; Some (ideLockFile.mk pid folders name s)
  else Some l.

Definition textBlockField (key raw : gostring) (v : value) (b : textBlock.t)
  : option textBlock.t :=
  if named key "type" then
    s ← decodeString v (textBlock.Type_ b); Some (textBlock.mk s (textBlock.Text b))
  else if named key "text" then
    s ← decodeString v (textBlock.Text b); Some (textBlock.mk (textBlock.Type_ b) s)
  else Some b.

Definition toolBlockField (key raw : gostring) (v : value) (b : toolBlock.t)
  : option toolBlock.t :=
  if named key "type" then
    s ← decodeString v (toolBlock.Type_ b); Some (toolBlock.mk s (toolBlock.Name b))
  else if named key "name" then
    s ← decodeString v (toolBlock.Name b); Some (toolBlock.mk (toolBlock.Type_ b) s)
  else Some b.

Definition decoder : JSON := {|
  Unmarshal_jsonlLine text :=
    v ← parse text;
    decodeStruct lineField v
      (jsonlLine.mk [] (jsonlMessage.mk [] []) [] [] [] []);
  Unmarshal_sessionsIndex text :=
    v ← parse text; decodeStruct indexField v (sessionsIndex.mk []);
  Unmarshal_ideLockFile text :=
    v ← parse text; decodeStruct lockField v (ideLockFile.mk 0 [] [] []);
  Unmarshal_string text := v ← parse text; decodeString v [];
  Unmarshal_textBlocks text :=
    v ← parse text;
    decodeSlice (fun e => decodeStruct textBlockField e (textBlock.mk [] [])) v;
  Unmarshal_toolBlocks text :=
    v ← parse text;
    decodeSlice (fun e => decodeStruct toolBlockField e (toolBlock.mk [] [])) v
|}.

End jsonref.

(** What enrichment may do to a session: set its topic, message count,
    branch and state, and nothing else. *)
Definition enriched (s s' : Session.t) : Prop :=
  exists topic messages branch state,
    s' = setMetadata s topic messages branch state.

(** A session of [discoverIDESessions]: made from a lock file that reads
    and decodes, names a live process and a workspace, and from the first
    claude process without a terminal under that workspace. *)
Definition fromLock {json : JSON} (w : World) (entries : list psEntry.t)
  (cwdMap : gmap Z gostring) (s : Session.t) : Prop :=
  exists path file lockFile workspace rest entry,
    os.files (fileSystem w) !! path = Some file /\
    Unmarshal_ideLockFile (os.contents file) = Some lockFile /\
    ideLockFile.WorkspaceFolders lockFile = workspace :: rest /\
    ideLockFile.PID lockFile <> 0 /\
    processAlive w (ideLockFile.PID lockFile) = true /\
    workspaceProcess entries cwdMap workspace = Some entry /\
    s = newSession (psEntry.PID entry) workspace
          (shortenIDEName (ideLockFile.IDEName lockFile))
          (ParseEtime (psEntry.Etime entry)).

(** A session of [discoverCLISessions]: made from a process with a
    terminal whose command is [claude] and whose working directory is
    known. *)
Definition fromTerminal (entries : list psEntry.t) (cwdMap : gmap Z gostring)
  (s : Session.t) : Prop :=
  exists entry command rest,
    entry ∈ entries /\
    psEntry.TTY entry <> str "??" /\
    strings.Fields (psEntry.Command entry) = command :: rest /\
    filepath.Base command = str "claude" /\
    cwdMap !! psEntry.PID entry = Some (Session.CWD s) /\
    s = newSession (psEntry.PID entry) (Session.CWD s) (str "CLI")
          (ParseEtime (psEntry.Etime entry)).

(** ** A sort for the examples

    Insertion sort meets the contract of [sort.Slice]; the examples run
    the program with it. *)

Module insertion.

Fixpoint place {A : Type} (less : A -> A -> bool) (a : A) (l : list A)
  : list A :=
  match l with
  | [] => [a]
  | b :: l' => if less a b then a :: l else b :: place less a l'
  end.

Definition sort {A : Type} (less : A -> A -> bool) (l : list A) : list A :=
  fold_right (place less) [] l.

Lemma place_Permutation {A : Type} (less : A -> A -> bool) a l :
  Permutation (a :: l) (place less a l).
Proof.
  induction l as [| b l IH]; cbn [place]; [reflexivity |].
  destruct (less a b); [reflexivity |].
  rewrite perm_swap. now constructor.
Qed.

Lemma sort_Permutation {A : Type} (less : A -> A -> bool) l :
  Permutation l (sort less l).
Proof.
  induction l as [| a l IH]; cbn; [constructor |].
  rewrite <- place_Permutation. now constructor.
Qed.

Lemma place_sorted {A : Type} (less : A -> A -> bool) a l :
  strictWeakOrder less ->
  StronglySorted (fun x y => less y x = false) l ->
  StronglySorted (fun x y => less y x = false) (place less a l).
Proof.
  intros (Hirr & Htrans & Hneg) Hl.
  induction Hl as [| b l Hl IH Hb]; cbn [place].
  - constructor; constructor.
  - destruct (less a b) eqn:Hab.
    + constructor; [now constructor |].
      constructor.
      * destruct (less b a) eqn:Hba; [| reflexivity].
        rewrite <- (Hirr a). symmetry. now apply Htrans with b.
      * eapply Forall_impl; [exact Hb |]. cbn beta. intros c Hc.
        destruct (less c a) eqn:Hca; [| reflexivity].
        rewrite <- Hc. symmetry. now apply Htrans with a.
    + constructor; [exact IH |].
      rewrite <- (place_Permutation less a l). now constructor.
Qed.

Lemma sort_sorted {A : Type} (less : A -> A -> bool) l :
  strictWeakOrder less ->
  StronglySorted (fun x y => less y x = false) (sort less l).
Proof.
  intros Hless. induction l as [| a l IH]; cbn; [constructor |].
  now apply place_sorted.
Qed.

Definition sorting : Sort := {|
  sort_Slice := @sort;
  sort_Slice_Permutation := @sort_Permutation;
  sort_Slice_sorted := @sort_sorted
|}.

End insertion.

(** ** Scenarios

    A Linux machine whose home directory is [/home/u]; every process is
    alive and has the working directory [/w].  The files are given as path,
    text (written with ['] for the double quote) and modification time, in
    the order of their names. *)

Definition lines (l : list string) : gostring :=
  strings.Join (map str l) [NL] ++ [NL].

(** [filepath.Glob] for a pattern with one [*] in its last element. *)
Definition glob (paths : list gostring) (pattern : gostring)
  : option (list gostring) :=
  match strings.IndexByte pattern "*" with
  | None => Some (List.filter (fun p => bool_decide (p = pattern)) paths)
  | Some i =>
      let before := take i pattern in
      let after := drop (S i) pattern in
      Some (List.filter
              (fun p =>
                 let middle :=
                   take (length p - length before - length after)
                        (drop (length before) p) in
                 bool_decide (p = before ++ middle ++ after)
                 && negb (strings.Contains middle (str "/")))
              paths)
  end.

Definition machine (now : time.Time) (ps : list string)
  (files : list (string * string * time.Time)) : World :=
  mkWorld (str "/home/u") (str "linux") (Some (lines ps))
    (fun _ => Some (str "/w")) (fun _ => None) (fun _ => true)
    now (fun t => strconv.Itoa t)
    (os.mkFS
       (list_to_map
          (map (fun f => (str f.1.1, os.mkFile (quoted f.1.2) f.2)) files))
       (glob (map (fun f => str f.1.1) files))).

Definition second : Z := 1000000000.

(** One IDE with a claude process, and a claude started from a terminal in
    the same directory. *)
Definition ideAndTerminal : World :=
  machine (1000 * second)
    ["  PID   ELAPSED TTY      COMMAND";
     " 1234     10:30 ttys001  /usr/local/bin/claude";
     " 5678      5:00 ??       /usr/local/bin/claude"]
    [("/home/u/.claude/ide/1.lock",
      "{'pid':77,'workspaceFolders':['/w'],'ideName':'Visual Studio Code','transport':'ws'}",
      0)].

(** Two IDE windows on one workspace: two lock files, one claude
    process. *)
Definition twoWindows : World :=
  machine (1000 * second)
    ["  PID   ELAPSED TTY      COMMAND";
     " 5678      5:00 ??       /usr/local/bin/claude"]
    [("/home/u/.claude/ide/1.lock",
      "{'pid':77,'workspaceFolders':['/w'],'ideName':'Visual Studio Code','transport':'ws'}",
      0);
     ("/home/u/.claude/ide/2.lock",
      "{'pid':78,'workspaceFolders':['/w'],'ideName':'Cursor','transport':'ws'}",
      0)].

(** A claude in a terminal, with a transcript of 60 seconds ago that the
    index lists under the prompt [prompt]. *)
Definition terminal (now : time.Time) (prompt : string) (line : string) : World :=
  machine now
    ["  PID   ELAPSED TTY      COMMAND";
     " 1234     10:30 ttys001  /usr/local/bin/claude"]
    [("/home/u/.claude/projects/-w/a.jsonl", line, 940 * second);
     ("/home/u/.claude/projects/-w/sessions-index.json",
      String.append
        "{'entries':[{'sessionId':'a','fullPath':'/home/u/.claude/projects/-w/a.jsonl','firstPrompt':'"
        (String.append prompt "','messageCount':3,'fileMtime':5,'gitBranch':'main'}]}"),
      0)].

(** The same without the index: the transcript is found by scanning the
    directory. *)
Definition terminalNoIndex (now : time.Time) (line : string) : World :=
  machine now
    ["  PID   ELAPSED TTY      COMMAND";
     " 1234     10:30 ttys001  /usr/local/bin/claude"]
    [("/home/u/.claude/projects/-w/a.jsonl", line, 940 * second)].

(** The program with the decoder and the sort of the examples. *)
Definition discover (w : World) : M (list Session.t) :=
  DiscoverAll (json := jsonref.decoder) (sorting := insertion.sorting) w.

(** What a session shows of its discovery: process, directory, source. *)
Definition origin (s : Session.t) : Z * gostring * gostring :=
  (Session.PID s, Session.CWD s, Source.Type_ (Session.Source s)).

(** What enrichment adds. *)
Definition metadata (s : Session.t) : State * gostring * Z * gostring :=
  (Session.State s, Session.Topic s, Session.Messages s, Session.Branch s).

(** [DetectState] on a transcript that holds [text] and was modified [age]
    seconds ago. *)
Definition detect (text : string) (age : Z) : State :=
  let now := 1000 * second in
  let mtime := now - age * second in
  fst (DetectState (json := jsonref.decoder)
         (singleFile (str "t.jsonl") (quoted text) mtime) (str "t.jsonl")
         mtime now emptyStore).

(** ** The output of [lsof -Fn] *)

(** One process in the output of [lsof -a -p ... -d cwd -Fn]: the line of
    the process ([p] and its PID), the line of the file descriptor and the
    line of the name ([n] and the path). *)
Definition lsofRecord (r : gostring * gostring) : gostring :=
  str "p" ++ r.1 ++ [NL] ++ str "fcwd" ++ [NL] ++ str "n" ++ r.2 ++ [NL].

(** A machine that resolves working directories with [lsof] (for the
    examples): two claude processes in terminals. *)
Definition mac : World :=
  mkWorld (str "/Users/me") (str "darwin")
    (Some (lines ["  PID   ELAPSED TTY      COMMAND";
                  " 1234     10:30 ttys001  /usr/local/bin/claude";
                  " 5678      5:00 ttys002  claude"]))
    (fun _ => None)
    (fun pids =>
       if bool_decide (pids = str "1234,5678")
       then Some (concat (map lsofRecord
                            [(str "1234", str "/Users/me/a");
                             (str "5678", str "/Users/me/b")]))
       else None)
    (fun _ => true) (1000 * second) (fun t => strconv.Itoa t)
    (os.mkFS ∅ (fun _ => Some [])).

(** An IDE that calls itself [CLI] in its lock file, with a claude
    process, and a claude started from a terminal in the same directory;
    working directories come from [lsof]. *)
Definition ideNamedCLI : World :=
  mkWorld (str "/Users/me") (str "darwin")
    (Some (lines ["  PID   ELAPSED TTY      COMMAND";
                  " 1234     10:30 ttys001  /usr/local/bin/claude";
                  " 5678      5:00 ??       /usr/local/bin/claude"]))
    (fun _ => None)
    (fun pids =>
       if bool_decide (pids = str "1234,5678")
       then Some (concat (map lsofRecord
                            [(str "1234", str "/w"); (str "5678", str "/w")]))
       else None)
    (fun _ => true) (1000 * second) (fun t => strconv.Itoa t)
    (os.mkFS
       {[ str "/Users/me/.claude/ide/1.lock" :=
            os.mkFile
              (quoted "{'pid':77,'workspaceFolders':['/w'],'ideName':'CLI','transport':'ws'}")
              0 ]}
       (glob [str "/Users/me/.claude/ide/1.lock"])).

(** ** What the loops of discovery decide *)

(** The directory for which a process is a candidate of
    [discoverCLISessions]: it has a terminal, the first word of its
    command is [claude] or a path to it, and its working directory is known
    and not empty. *)
Definition cliDirectory (cwdMap : gmap Z gostring) (entry : psEntry.t)
  : option gostring :=
  if bool_decide (psEntry.TTY entry = str "??") then None
  else
    match strings.Fields (psEntry.Command entry) with
    | [] => None
    | command :: _ =>
        if bool_decide (filepath.Base command = str "claude") then
          match cwdMap !! psEntry.PID entry with
          | Some cwd => if bool_decide (cwd = []) then None else Some cwd
          | None => None
          end
        else None
    end.

(** The session one lock file gives [discoverIDESessions], if any. *)
Definition lockSession {json : JSON} (w : World) (entries : list psEntry.t)
  (cwdMap : gmap Z gostring) (lockFilePath : gostring) : option Session.t :=
  file ← os.files (fileSystem w) !! lockFilePath;
  lockFile ← Unmarshal_ideLockFile (os.contents file);
  workspace ← head (ideLockFile.WorkspaceFolders lockFile);
  if (ideLockFile.PID lockFile =? 0)
     || negb (processAlive w (ideLockFile.PID lockFile))
  then None
  else
    entry ← workspaceProcess entries cwdMap workspace;
    Some (newSession (psEntry.PID entry) workspace
            (shortenIDEName (ideLockFile.IDEName lockFile))
            (ParseEtime (psEntry.Etime entry))).

(** A text of complete lines, each ended by a line feed. *)
Definition unlines (ls : list gostring) : gostring :=
  concat (map (fun l => l ++ [NL]) ls).

(** One turn of the loop of [findSessionFallback], on the state
    [(newestPath, newestTime)] alone. *)
Definition newestStep (fs : os.FS) (st : gostring * time.Time)
  (matchPath : gostring) : gostring * time.Time :=
  match os.files fs !! matchPath with
  | None => st
  | Some info =>
      if bool_decide (st.1 = []) || time.After (os.ModTime info) st.2
      then (matchPath, os.ModTime info)
      else st
  end.

(** A machine on which [ps] lists no claude process. *)
Definition quiet : World :=
  machine (1000 * second)
    ["  PID   ELAPSED TTY      COMMAND";
     "    1  01:02:03 ??       /sbin/launchd";
     "  321     10:30 ttys001  -zsh"]
    [("/home/u/.claude/ide/1.lock",
      "{'pid':77,'workspaceFolders':['/w'],'ideName':'Cursor','transport':'ws'}",
      0)].

(** ** The terminal interface ([tui]): the table's arithmetic

    The functions of the interface that compute on what the engine
    returns, without the styling. *)

Module tui.

(** [minTerminalWidth] is the minimum terminal width before showing a
    "too narrow" message. *)
Definition minTerminalWidth : Z := 60.

(** [branchColThreshold] is the remaining width above which the BRANCH
    column appears. *)
Definition branchColThreshold : Z := 80.

(** [projectWidthPercent] is the percentage of remaining width allocated
    to the PROJECT column. *)
Definition projectWidthPercent : Z := 35.

(** [minProjectColWidth] is the minimum width for the PROJECT column. *)
Definition minProjectColWidth : Z := 10.

(** [minTopicColWidth] is the minimum width for the TOPIC column. *)
Definition minTopicColWidth : Z := 15.

(** [fixedColumnSpacing] is the total padding/spacing used by the
    fixed-width columns. *)
Definition fixedColumnSpacing : Z := 6.

(** [columnWidths] holds the computed widths for each table column. *)
Record columnWidths : Type := mkColumnWidths {
  state : Z;
  source : Z;
  project : Z;
  topic : Z;
  branch : Z;
  dur : Z
}.

(** [a - b] on [int]. *)
Definition sub (a b : Z) : Z := int64.wrap (a - b).

(** [computeColumnWidths] calculates column widths based on the terminal
    width. *)
Definition computeColumnWidths (terminalWidth : Z) : columnWidths :=
  let state := 3 in
  let source := 7 in
  let dur := 7 in
  let remaining :=
    sub (sub (sub (sub terminalWidth state) source) dur) fixedColumnSpacing in
  let '(branch, remaining) :=
    if branchColThreshold <? remaining
    then (16, sub remaining (int64.add 16 2))
    else (0, remaining) in
  let project := Z.quot (int64.mul remaining projectWidthPercent) 100 in
  let topic := sub remaining project in
  let project :=
    if project <? minProjectColWidth then minProjectColWidth else project in
  let topic := if topic <? minTopicColWidth then minTopicColWidth else topic in
  mkColumnWidths state source project topic branch dur.

(** The string ["…"], a horizontal ellipsis: three bytes in UTF-8. *)
Definition ellipsis : gostring := ["226"%char; "128"%char; "166"%char].

(** [truncateString] truncates a string to [maxLen], appending an
    ellipsis if needed. *)
Definition truncateString (s : gostring) (maxLen : Z) : gostring :=
  if maxLen <=? 0 then []
  else if Z.of_nat (length s) <=? maxLen then s
  else if maxLen <=? 1 then ellipsis
  else take (Z.to_nat (maxLen - 1)) s ++ ellipsis.

(** [countStates] returns the count of active, waiting, and idle
    sessions. *)
Definition countStates (sessions : list Session.t) : Z * Z * Z :=
  fold_left
    (fun counts s =>
       let '(activeCount, waitingCount, idleCount) := counts in
       match Session.State s with
       | StateActive => (int64.add activeCount 1, waitingCount, idleCount)
       | StateWaiting => (activeCount, int64.add waitingCount 1, idleCount)
       | StateIdle => (activeCount, waitingCount, int64.add idleCount 1)
       | _ => counts
       end)
    sessions (0, 0, 0).

End tui.

(** ** Words

    What [strings.Fields] returns. *)

(** No white space starts inside a word, whatever follows the word. *)
Definition word (f : gostring) : Prop :=
  forall a c b t',
    f = a ++ c :: b -> t' = [] \/ (exists r, t' = SP :: r) ->
    strings.spaceWidth (c :: b ++ t') = 0%nat.

(** ** Stores and clocks *)

(** What a computation returns does not depend on the store it runs in. *)
Definition valueFixed {A : Type} (m : M A) : Prop :=
  forall st st', fst (m st) = fst (m st').

(** The machine at another instant: nothing but the clock differs. *)
Definition later (w : World) (now : time.Time) : World :=
  mkWorld (HOME w) (GOOS w) (psOutput w) (Readlink w) (lsofOutput w)
          (processAlive w) now (FormatRFC3339Nano w) (fileSystem w).

(** * Properties *)

(** ** Bytes *)

Lemma byte_eqb_eq a b : byte_eqb a b = true <-> a = b.
Proof. apply Ascii.eqb_eq. Qed.

Lemma byte_eqb_refl a : byte_eqb a a = true.
Proof. apply Ascii.eqb_refl. Qed.

Lemma byte_eqb_neq a b : byte_eqb a b = false <-> a <> b.
Proof. apply Ascii.eqb_neq. Qed.

Lemma code_range c : 0 <= code c < 256.
Proof.
  unfold code. pose proof (N_ascii_bounded c) as H. lia.
Qed.

Lemma code_inj a b : code a = code b -> a = b.
Proof.
  unfold code. intros H. apply N2Z.inj in H.
  rewrite <- (ascii_N_embedding a), <- (ascii_N_embedding b). now f_equal.
Qed.

Lemma int64_wrap_small z : int64.inRange z -> int64.wrap z = z.
Proof.
  unfold int64.inRange, int64.wrap. intros H.
  rewrite Z.mod_small by lia. lia.
Qed.

Lemma int64_wrap_inRange z : int64.inRange (int64.wrap z).
Proof.
  unfold int64.inRange, int64.wrap.
  pose proof (Z.mod_pos_bound (z + 2 ^ 63) (2 ^ 64) ltac:(lia)). lia.
Qed.

(** ** [FormatDuration] *)

Lemma fmt_d02_twoDigits n : 0 <= n < 100 -> fmt.d02 n = twoDigits n.
Proof.
  intros Hn.
  assert (Hall : forallb (fun k => bool_decide (fmt.d02 (Z.of_nat k) = twoDigits (Z.of_nat k)))
                   (seq 0 100) = true) by (vm_compute; reflexivity).
  rewrite forallb_forall in Hall.
  specialize (Hall (Z.to_nat n)).
  rewrite Z2Nat.id in Hall by lia.
  assert (Hin : In (Z.to_nat n) (seq 0 100)) by (apply in_seq; lia).
  apply Hall in Hin. now apply bool_decide_eq_true in Hin.
Qed.

(** The mixed-radix digits of a non-negative number of seconds are what
    the program's quotients and remainders compute. *)
Lemma dhms_unique t d h m s :
  0 <= d -> 0 <= h < 24 -> 0 <= m < 60 -> 0 <= s < 60 ->
  t = d * 86400 + h * 3600 + m * 60 + s ->
  Z.quot t 86400 = d /\ Z.quot (Z.rem t 86400) 3600 = h /\
  Z.quot (Z.rem t 3600) 60 = m /\ Z.rem t 60 = s.
Proof.
  intros Hd Hh Hm Hs ->.
  set (t := d * 86400 + h * 3600 + m * 60 + s).
  assert (Ht : 0 <= t) by (unfold t; lia).
  rewrite !Z.rem_mod_nonneg by lia.
  assert (E1 : t mod 86400 = h * 3600 + m * 60 + s).
  { symmetry. apply (Z.mod_unique_pos t 86400 d); unfold t; lia. }
  assert (E2 : t mod 3600 = m * 60 + s).
  { symmetry. apply (Z.mod_unique_pos t 3600 (d * 24 + h)); unfold t; lia. }
  assert (E3 : t mod 60 = s).
  { symmetry. apply (Z.mod_unique_pos t 60 (d * 1440 + h * 60 + m)); unfold t; lia. }
  rewrite E1, E2, E3.
  rewrite !Z.quot_div_nonneg by lia.
  repeat split.
  - symmetry. apply (Z.div_unique_pos t 86400 d (h * 3600 + m * 60 + s)); unfold t; lia.
  - symmetry. apply (Z.div_unique_pos _ 3600 h (m * 60 + s)); lia.
  - symmetry. apply (Z.div_unique_pos _ 60 m s); lia.
Qed.

(** C10. [FormatDuration] is a total function.  With [t] the whole number
    of seconds of the duration ([int(duration.Seconds())]): a negative [t]
    is clamped to ["0s"]; a non-negative [t], split into days, hours,
    minutes and seconds, is rendered as [<d>d<h>h] when there are days,
    else as [<h>h<mm>m] when there are hours, else as [<m>:<ss>] when
    there are minutes, else as [<s>s]; [mm] and [ss] are two digits. *)
Theorem FormatDuration_renders (duration : time.Duration) :
  let t := time.int (time.Seconds duration) in
  (t < 0 -> FormatDuration duration = str "0s") /\
  (forall d h m s,
      0 <= d -> 0 <= h < 24 -> 0 <= m < 60 -> 0 <= s < 60 ->
      t = d * 86400 + h * 3600 + m * 60 + s ->
      (0 < d -> FormatDuration duration
                = strconv.Itoa d ++ str "d" ++ strconv.Itoa h ++ str "h") /\
      (d = 0 -> 0 < h -> FormatDuration duration
                = strconv.Itoa h ++ str "h" ++ twoDigits m ++ str "m") /\
      (d = 0 -> h = 0 -> 0 < m -> FormatDuration duration
                = strconv.Itoa m ++ str ":" ++ twoDigits s) /\
      (d = 0 -> h = 0 -> m = 0 -> FormatDuration duration
                = strconv.Itoa s ++ str "s")).
Proof.
  intros t. split.
  - intros Hneg. unfold FormatDuration. fold t.
    destruct (Z.ltb_spec t 0); [reflexivity | lia].
  - intros d h m s Hd Hh Hm Hs Heq.
    destruct (dhms_unique t d h m s Hd Hh Hm Hs Heq) as (Ed & Eh & Em & Es).
    assert (Ht : 0 <= t) by lia.
    unfold FormatDuration. fold t.
    destruct (Z.ltb_spec t 0); [lia |].
    rewrite Ed, Eh, Em, Es. unfold fmt.d.
    repeat split.
    + intros Hpos. destruct (Z.ltb_spec 0 d); [reflexivity | lia].
    + intros -> Hpos. simpl (0 <? 0).
      destruct (Z.ltb_spec 0 h); [| lia].
      rewrite !fmt_d02_twoDigits by lia. reflexivity.
    + intros -> -> Hpos. simpl (0 <? 0).
      destruct (Z.ltb_spec 0 m); [| lia].
      rewrite !fmt_d02_twoDigits by lia. reflexivity.
    + intros -> -> ->. reflexivity.
Qed.

(** The table of the package's test [TestFormatDuration], and a negative
    duration. *)
Example FormatDuration_test_table :
  map (fun k => FormatDuration (k * time.Second))
      [0; 30; 59; 60; 90; 754; 3600; 3661; 7200; 8100; 86400; 93600; -5]
  = map str ["0s"; "30s"; "59s"; "1:00"; "1:30"; "12:34"; "1h00m"; "1h01m";
             "2h00m"; "2h15m"; "1d0h"; "1d2h"; "0s"]%string.
Proof. vm_compute. reflexivity. Qed.

(** ** Package [strings] *)

Lemma asciiSpace_code c :
  strings.asciiSpace c = true -> code c < 128.
Proof.
  unfold strings.asciiSpace. intros H.
  apply orb_true_iff in H as [H | H].
  - apply andb_true_iff in H as [_ H]. apply Z.leb_le in H. lia.
  - apply Z.eqb_eq in H. lia.
Qed.

(** On an ASCII byte [unicode.IsSpace] is the table of six bytes. *)
Lemma spaceWidth_ascii c r :
  code c < 128 ->
  strings.spaceWidth (c :: r) = if strings.asciiSpace c then 1%nat else 0%nat.
Proof.
  intros Hc. unfold strings.spaceWidth, strings.spaceRunes, strings.asciiSpace.
  cbn [find strings.startsWith].
  repeat match goal with
         | |- context [code c =? ?k] =>
             destruct (Z.eqb_spec (code c) k); [try lia |]
         end; cbn [andb];
  repeat match goal with
         | |- context [?a <=? ?k] => destruct (Z.leb_spec a k); try lia
         end; reflexivity.
Qed.

(** No white-space rune ends in an ASCII byte other than itself. *)
Lemma spaceWidthEnd_ascii c r :
  code c < 128 ->
  strings.spaceWidthEnd (c :: r) = if strings.asciiSpace c then 1%nat else 0%nat.
Proof.
  intros Hc. unfold strings.spaceWidthEnd, strings.spaceRunes, strings.asciiSpace.
  cbn [find strings.startsWith rev app].
  repeat match goal with
         | |- context [code c =? ?k] =>
             destruct (Z.eqb_spec (code c) k); [try lia |]
         end; cbn [andb];
  repeat match goal with
         | |- context [?a <=? ?k] => destruct (Z.leb_spec a k); try lia
         end; reflexivity.
Qed.

Lemma trimLeftSpace_ascii ws body :
  Forall (fun c => strings.asciiSpace c = true) ws ->
  strings.spaceWidth body = 0%nat ->
  strings.trimLeftSpace (ws ++ body) 0 = body.
Proof.
  intros Hws Hbody.
  induction Hws as [| c ws Hc _ IH]; cbn [app strings.trimLeftSpace].
  - destruct body as [| b body']; [reflexivity |].
    cbn [strings.trimLeftSpace]. now rewrite Hbody.
  - rewrite spaceWidth_ascii by now apply asciiSpace_code.
    now rewrite Hc.
Qed.

Lemma trimRightSpaceRev_none rs :
  strings.spaceWidthEnd rs = 0%nat -> strings.trimRightSpaceRev rs 0 = rs.
Proof.
  intros H. destruct rs as [| c r]; [reflexivity |].
  cbn [strings.trimRightSpaceRev]. now rewrite H.
Qed.

(** [TrimSpace] removes leading ASCII white space and nothing else from a
    text that begins and ends with ASCII bytes that are not white space. *)
Lemma TrimSpace_leading ws body :
  Forall (fun c => strings.asciiSpace c = true) ws ->
  (forall c r, body = c :: r -> code c < 128 /\ strings.asciiSpace c = false) ->
  (forall c r, rev body = c :: r -> code c < 128 /\ strings.asciiSpace c = false) ->
  strings.TrimSpace (ws ++ body) = body.
Proof.
  intros Hws Hhead Hlast. unfold strings.TrimSpace.
  rewrite trimLeftSpace_ascii; [| assumption |].
  - rewrite trimRightSpaceRev_none; [apply rev_involutive |].
    destruct (rev body) as [| c r] eqn:E; [reflexivity |].
    destruct (Hlast c r eq_refl) as [Hc Hs].
    rewrite spaceWidthEnd_ascii by assumption. now rewrite Hs.
  - destruct body as [| c r]; [reflexivity |].
    destruct (Hhead c r eq_refl) as [Hc Hs].
    rewrite spaceWidth_ascii by assumption. now rewrite Hs.
Qed.

Lemma IndexByte_None s c : c ∉ s -> strings.IndexByte s c = None.
Proof.
  induction s as [| d s IH]; intros Hc; simpl; [reflexivity |].
  apply not_elem_of_cons in Hc as [Hne Hc].
  destruct (byte_eqb d c) eqn:E.
  - apply byte_eqb_eq in E. congruence.
  - now rewrite IH.
Qed.

Lemma IndexByte_first a b c :
  c ∉ a -> strings.IndexByte (a ++ c :: b) c = Some (length a).
Proof.
  induction a as [| d a IH]; intros Hc; simpl.
  - now rewrite byte_eqb_refl.
  - apply not_elem_of_cons in Hc as [Hne Hc].
    destruct (byte_eqb d c) eqn:E.
    + apply byte_eqb_eq in E. congruence.
    + now rewrite IH.
Qed.

Lemma Split_not_nil s sep : strings.Split s sep <> [].
Proof.
  destruct s as [| c r]; simpl; [discriminate |].
  destruct (byte_eqb c sep); [discriminate |].
  destruct (strings.Split r sep); discriminate.
Qed.

(** Splitting distributes over a separator. *)
Lemma Split_app s t sep :
  strings.Split (s ++ sep :: t) sep = strings.Split s sep ++ strings.Split t sep.
Proof.
  induction s as [| c s IH]; simpl.
  - now rewrite byte_eqb_refl.
  - destruct (byte_eqb c sep); [now rewrite IH |].
    rewrite IH.
    pose proof (Split_not_nil s sep).
    destruct (strings.Split s sep); [congruence | reflexivity].
Qed.

Lemma Split_no_sep s sep : sep ∉ s -> strings.Split s sep = [s].
Proof.
  induction s as [| c s IH]; intros Hs; simpl; [reflexivity |].
  apply not_elem_of_cons in Hs as [Hne Hs].
  destruct (byte_eqb c sep) eqn:E.
  - apply byte_eqb_eq in E. congruence.
  - now rewrite IH.
Qed.

(** ** Package [strconv] *)

Lemma isDigit_code c : strconv.isDigit c = true -> 48 <= code c <= 57.
Proof.
  unfold strconv.isDigit. intros H.
  apply andb_true_iff in H as [H1 H2].
  apply Z.leb_le in H1. apply Z.leb_le in H2. lia.
Qed.

Lemma isDigit_not_byte c (b : ascii) :
  strconv.isDigit c = true -> (code b < 48 \/ 57 < code b) -> byte_eqb c b = false.
Proof.
  intros Hd Hb. apply byte_eqb_neq. intros ->.
  apply isDigit_code in Hd. lia.
Qed.

Lemma digits_not_elem ds (b : ascii) :
  forallb strconv.isDigit ds = true -> (code b < 48 \/ 57 < code b) -> b ∉ ds.
Proof.
  intros Hds Hb Hin. rewrite forallb_forall in Hds.
  apply list_elem_of_In in Hin. apply Hds, isDigit_code in Hin. lia.
Qed.

Lemma decimal_acc_nonneg ds acc :
  forallb strconv.isDigit ds = true -> 0 <= acc ->
  acc <= fold_left (fun n c => 10 * n + (code c - 48)) ds acc.
Proof.
  revert acc. induction ds as [| c ds IH]; intros acc Hds Hacc; simpl; [lia |].
  simpl in Hds. apply andb_true_iff in Hds as [Hc Hds].
  apply isDigit_code in Hc.
  etransitivity; [| apply IH; [assumption | lia]]. lia.
Qed.

Lemma decimal_nonneg ds : forallb strconv.isDigit ds = true -> 0 <= strconv.decimal ds.
Proof. intros H. now apply (decimal_acc_nonneg ds 0). Qed.

(** [Atoi] of a string of digits whose value fits an [int]. *)
Lemma Atoi_digits ds :
  strings.nonEmpty ds && forallb strconv.isDigit ds = true ->
  strconv.decimal ds <= strconv.maxInt ->
  strconv.Atoi ds = (strconv.decimal ds, true).
Proof.
  intros Hds Hfit. unfold strconv.Atoi.
  destruct ds as [| c r]; [discriminate |].
  pose proof Hds as Hds'. simpl in Hds'. apply andb_true_iff in Hds' as [Hc _].
  rewrite (isDigit_not_byte c "-") by (assumption || (left; reflexivity)).
  rewrite (isDigit_not_byte c "+") by (assumption || (left; reflexivity)).
  rewrite Hds.
  destruct (Z.leb_spec (strconv.decimal (c :: r)) strconv.maxInt); [reflexivity | lia].
Qed.

(** ** [ParseEtime] *)

Lemma TrimSpace_digit_ends ws body :
  Forall (fun c => strings.asciiSpace c = true) ws ->
  (exists c r, body = c :: r /\ strconv.isDigit c = true) ->
  (exists c r, rev body = c :: r /\ strconv.isDigit c = true) ->
  strings.TrimSpace (ws ++ body) = body.
Proof.
  intros Hws (c & r & -> & Hc) (c' & r' & Hrev & Hc').
  apply TrimSpace_leading; [assumption | |].
  - intros ? ? [= <- <-]. apply isDigit_code in Hc.
    unfold strings.asciiSpace. split; [lia |].
    destruct (Z.leb_spec (code c) 13), (Z.eqb_spec (code c) 32); try lia;
      destruct (9 <=? code c); reflexivity.
  - rewrite Hrev. intros ? ? [= <- <-]. apply isDigit_code in Hc'.
    unfold strings.asciiSpace. split; [lia |].
    destruct (Z.leb_spec (code c') 13), (Z.eqb_spec (code c') 32); try lia;
      destruct (9 <=? code c'); reflexivity.
Qed.

Lemma digits_head f rest :
  strings.nonEmpty f && forallb strconv.isDigit f = true ->
  exists c r, f ++ rest = c :: r /\ strconv.isDigit c = true.
Proof.
  destruct f as [| c f']; [discriminate |]. simpl. intros H.
  apply andb_true_iff in H as [Hc _]. now exists c, (f' ++ rest).
Qed.

Lemma digits_last pre f :
  strings.nonEmpty f && forallb strconv.isDigit f = true ->
  exists c r, rev (pre ++ f) = c :: r /\ strconv.isDigit c = true.
Proof.
  intros H. apply andb_true_iff in H as [Hne Hall].
  rewrite rev_app_distr.
  destruct (rev f) as [| c r] eqn:E.
  - apply (f_equal (@rev _)) in E. rewrite rev_involutive in E. now subst f.
  - exists c, (r ++ rev pre). split; [reflexivity |].
    rewrite forallb_forall in Hall. apply Hall, in_rev.
    rewrite E. now left.
Qed.

Lemma int64_seconds_exact d h m s :
  0 <= d -> 0 <= h -> 0 <= m -> 0 <= s ->
  (d * 86400 + h * 3600 + m * 60 + s) * time.Second <= time.maxDuration ->
  int64.mul
    (int64.add (int64.add (int64.add (int64.mul d 86400) (int64.mul h 3600))
                          (int64.mul m 60)) s)
    time.Second
  = (d * 86400 + h * 3600 + m * 60 + s) * time.Second.
Proof.
  unfold time.Second, time.maxDuration, int64.mul, int64.add.
  intros Hd Hh Hm Hs Hfit.
  rewrite (int64_wrap_small (d * 86400)) by (unfold int64.inRange; lia).
  rewrite (int64_wrap_small (h * 3600)) by (unfold int64.inRange; lia).
  rewrite (int64_wrap_small (m * 60)) by (unfold int64.inRange; lia).
  rewrite (int64_wrap_small (d * 86400 + h * 3600)) by (unfold int64.inRange; lia).
  rewrite (int64_wrap_small (d * 86400 + h * 3600 + m * 60))
    by (unfold int64.inRange; lia).
  rewrite (int64_wrap_small (d * 86400 + h * 3600 + m * 60 + s))
    by (unfold int64.inRange; lia).
  apply int64_wrap_small. unfold int64.inRange. lia.
Qed.

Lemma take_drop_sep (d : gostring) c rest :
  take (length d) (d ++ c :: rest) = d /\
  drop (length d + 1) (d ++ c :: rest) = rest.
Proof.
  induction d as [| x d [IH1 IH2]]; simpl; [easy |].
  split; [now f_equal | assumption].
Qed.

Lemma etime_field_bound f rest :
  forallb (fun f => strings.nonEmpty f && forallb strconv.isDigit f) (f :: rest) = true ->
  (strings.nonEmpty f && forallb strconv.isDigit f = true /\
   0 <= strconv.decimal f /\ ("-"%char ∉ f) /\ (":"%char ∉ f)) /\
  forallb (fun f => strings.nonEmpty f && forallb strconv.isDigit f) rest = true.
Proof.
  simpl. intros H. apply andb_true_iff in H as [Hf Hrest].
  split; [| assumption].
  pose proof Hf as Hf'. apply andb_true_iff in Hf' as [_ Hd].
  repeat split; try assumption.
  - now apply decimal_nonneg.
  - apply digits_not_elem; [assumption | left; reflexivity].
  - apply digits_not_elem; [assumption | right; reflexivity].
Qed.

Lemma dash_not_colon : "-"%char ∉ str ":".
Proof. apply not_elem_of_cons. split; [discriminate | apply not_elem_of_nil]. Qed.

Ltac etime_fields H :=
  repeat match type of H with
         | forallb _ (_ :: _) = true =>
             let Hf := fresh "Hf" in
             apply etime_field_bound in H as [Hf H];
             destruct Hf as (? & ? & ? & ?)
         end.

Ltac etime_trim :=
  rewrite TrimSpace_digit_ends;
  [ | assumption
    | first [ now apply digits_head
            | rewrite <- (app_nil_r _); now apply digits_head ]
    | first [ now apply (digits_last [])
            | rewrite ?app_assoc; now apply digits_last ] ].

Ltac etime_atoi :=
  rewrite !Atoi_digits
    by (assumption
        || (unfold strconv.maxInt, time.Second, time.maxDuration in *; lia));
  cbn [fst].

(** C6 (as amended).  For every elapsed time of one of the four shapes
    [SS], [MM:SS], [HH:MM:SS] and [D-HH:MM:SS], each field one or more decimal
    digits, possibly after leading ASCII white space, and denoting a number
    of seconds that fits a [time.Duration] (at most 9223372036 seconds),
    [ParseEtime] returns exactly
    [days*86400 + hours*3600 + minutes*60 + seconds] seconds. *)
Theorem ParseEtime_exact (ws : gostring) (e : Etime) :
  Forall (fun c => strings.asciiSpace c = true) ws ->
  etimeDigits e = true ->
  etimeSeconds e * time.Second <= time.maxDuration ->
  ParseEtime (ws ++ etimeText e) = etimeSeconds e * time.Second.
Proof.
  intros Hws Hdig Hfit. unfold etimeDigits in Hdig.
  destruct e as [s | m s | h m s | d h m s];
    cbn [etimeFields etimeText etimeSeconds] in *; etime_fields Hdig;
    unfold ParseEtime; etime_trim.
  - rewrite IndexByte_None by assumption.
    rewrite Split_no_sep by assumption.
    etime_atoi.
    rewrite (int64_seconds_exact 0 0 0) by (assumption || lia).
    f_equal.
  - rewrite IndexByte_None
      by (rewrite !not_elem_of_app; auto using dash_not_colon).
    cbn [str list_ascii_of_string app].
    rewrite Split_app, !Split_no_sep by assumption.
    cbn [app]. etime_atoi.
    rewrite (int64_seconds_exact 0 0) by (assumption || lia).
    f_equal.
  - rewrite IndexByte_None
      by (rewrite !not_elem_of_app; auto 10 using dash_not_colon).
    cbn [str list_ascii_of_string app].
    rewrite !Split_app, !Split_no_sep by assumption.
    cbn [app]. etime_atoi.
    rewrite (int64_seconds_exact 0) by (assumption || lia).
    f_equal.
  - cbn [str list_ascii_of_string app].
    rewrite IndexByte_first by assumption.
    destruct (take_drop_sep d "-" (h ++ ":"%char :: m ++ ":"%char :: s)) as [-> ->].
    rewrite (Atoi_digits d)
      by (assumption
          || (unfold strconv.maxInt, time.Second, time.maxDuration in *; lia)).
    cbn beta iota zeta.
    rewrite !Split_app, !Split_no_sep by assumption.
    cbn [app]. etime_atoi.
    now rewrite int64_seconds_exact by (assumption || lia).
Qed.

(** The hypotheses of [ParseEtime_exact] hold of ["  1:30"], the test's
    elapsed time with leading white space. *)
Lemma ParseEtime_exact_witness :
  Forall (fun c => strings.asciiSpace c = true) (str "  ") /\
  etimeDigits (MMSS (str "1") (str "30")) = true /\
  etimeSeconds (MMSS (str "1") (str "30")) * time.Second <= time.maxDuration /\
  ParseEtime (str "  1:30") = 90 * time.Second.
Proof.
  assert (Hws : Forall (fun c => strings.asciiSpace c = true) (str "  "))
    by (repeat constructor).
  assert (Hfit : etimeSeconds (MMSS (str "1") (str "30")) * time.Second
                 <= time.maxDuration) by (vm_compute; discriminate).
  split; [exact Hws |]. split; [reflexivity |]. split; [exact Hfit |].
  exact (ParseEtime_exact (str "  ") (MMSS (str "1") (str "30"))
           Hws eq_refl Hfit).
Defined.

(** C6 as stated fails once the duration leaves the range of an [int64]
    count of nanoseconds: an elapsed time of 106752 days has the shape
    [D-HH:MM:SS], and [ParseEtime] returns a negative duration for it. *)
Lemma ParseEtime_overflow :
  etimeDigits (DHHMMSS (str "106752") (str "00") (str "00") (str "00")) = true /\
  etimeText (DHHMMSS (str "106752") (str "00") (str "00") (str "00"))
  = str "106752-00:00:00" /\
  ParseEtime (str "106752-00:00:00") = -9223371273709551616 /\
  ParseEtime (str "106752-00:00:00")
  <> etimeSeconds (DHHMMSS (str "106752") (str "00") (str "00") (str "00"))
     * time.Second.
Proof. vm_compute. repeat split; discriminate. Qed.

(** The table of the package's test [TestParseEtime]. *)
Example ParseEtime_test_table :
  map ParseEtime
      (map str ["30"; "1:30"; "01:30"; "1:00:00"; "2:30:15"; "1-00:00:00";
                "2-10:30:15"; "  1:30"; "0:05"]%string)
  = [30 * time.Second; 90 * time.Second; 90 * time.Second; 1 * time.Hour;
     2 * time.Hour + 30 * time.Minute + 15 * time.Second; 24 * time.Hour;
     2 * 24 * time.Hour + 10 * time.Hour + 30 * time.Minute + 15 * time.Second;
     90 * time.Second; 5 * time.Second].
Proof. vm_compute. reflexivity. Qed.

(** ** [ParsePS] *)

Lemma parsePSLine_accepted entries line :
  parsePSLine entries line
  = entries ++ (if psAccepted (strings.TrimSpace line)
                then [psEntryOf (strings.TrimSpace line)] else []).
Proof.
  unfold parsePSLine, psAccepted, psHeader, psTarget, psSearch, psWellFormed,
    psEntryOf.
  set (l := strings.TrimSpace line).
  destruct (bool_decide_reflect (l = [])) as [-> | Hne].
  { now rewrite app_nil_r. }
  cbn [orb].
  destruct (strings.HasPrefix l (str "PID")); cbn [negb andb];
    [now rewrite app_nil_r |].
  destruct (strings.Contains l (str "claude")); cbn [negb andb];
    [| now rewrite app_nil_r].
  destruct (strings.Contains l (str "grep")); cbn [negb andb];
    [now rewrite app_nil_r |].
  destruct (strings.Fields l) as [| f0 [| f1 [| f2 [| f3 rest]]]];
    try (cbn; now rewrite app_nil_r).
  cbn [length Nat.ltb Nat.leb nth drop andb snd fst].
  destruct (strconv.Atoi f0) as [pid []]; cbn [negb snd fst];
    [reflexivity | now rewrite app_nil_r].
Qed.

Lemma fold_parsePSLine lines entries :
  fold_left parsePSLine lines entries
  = entries ++ map psEntryOf (filter psAccepted (map strings.TrimSpace lines)).
Proof.
  revert entries. induction lines as [| line lines IH]; intros entries.
  - cbn. now rewrite app_nil_r.
  - cbn [fold_left map]. rewrite IH, parsePSLine_accepted, filter_cons.
    destruct (psAccepted (strings.TrimSpace line)); cbn.
    + now rewrite <- app_assoc.
    + now rewrite app_nil_r.
Qed.



(** The package's test [TestParsePS]: the header and the [grep] line are
    dropped, the two [claude] processes are kept. *)
Example ParsePS_test :
  ParsePS (str "  PID   ELAPSED TTY      COMMAND
 1234     10:30 ttys001  /usr/local/bin/claude --help
 5678      5:00 ??       /usr/local/bin/claude
 9999     01:00 ttys002  /usr/bin/grep claude
")
  = [psEntry.mk 1234 (str "10:30") (str "ttys001")
       (str "/usr/local/bin/claude --help");
     psEntry.mk 5678 (str "5:00") (str "??") (str "/usr/local/bin/claude")].
Proof. vm_compute. reflexivity. Qed.

(** Malformed lines are skipped and the rest is kept: a line with three
    fields and a line whose process id is not a number. *)
Example ParsePS_malformed :
  ParsePS (str "12 0:01 claude
x1 0:02 tty1 claude
77 0:03 tty2 claude --resume")
  = [psEntry.mk 77 (str "0:03") (str "tty2") (str "claude --resume")].
Proof. vm_compute. reflexivity. Qed.

(** ** [strings.TrimRight] and [strings.LastIndexByte] *)

Lemma TrimRight_app_keep p s cs :
  strings.TrimRight s cs <> [] ->
  strings.TrimRight (p ++ s) cs = p ++ strings.TrimRight s cs.
Proof.
  intros Hs. induction p as [| c p IH]; [reflexivity |].
  cbn [app strings.TrimRight]. rewrite IH.
  destruct (p ++ strings.TrimRight s cs) eqn:E; [| reflexivity].
  apply app_eq_nil in E as [_ E]. congruence.
Qed.

Lemma TrimRight_app_drop p s cs :
  strings.TrimRight s cs = [] ->
  strings.TrimRight (p ++ s) cs = strings.TrimRight p cs.
Proof.
  intros Hs. induction p as [| c p IH]; [exact Hs |].
  cbn [app strings.TrimRight]. now rewrite IH.
Qed.

Lemma TrimRight_replicate n c : strings.TrimRight (replicate n c) [c] = [].
Proof.
  induction n as [| n IH]; [reflexivity |].
  cbn [replicate strings.TrimRight]. rewrite IH.
  rewrite bool_decide_eq_true_2; [reflexivity | apply list_elem_of_singleton; reflexivity].
Qed.

(** A text is what [TrimRight] keeps of it followed by line feeds. *)
Lemma TrimRight_split s c :
  exists n, s = strings.TrimRight s [c] ++ replicate n c.
Proof.
  induction s as [| d s [n IH]]; [now exists 0%nat |].
  cbn [strings.TrimRight].
  destruct (strings.TrimRight s [c]) as [| x t] eqn:E.
  - destruct (bool_decide_reflect (d ∈ [c])) as [Hd | Hd].
    + apply list_elem_of_singleton in Hd as ->. exists (S n).
      cbn. now rewrite IH at 1.
    + exists n. cbn. now rewrite IH at 1.
  - exists n. cbn. now rewrite IH at 1.
Qed.

Lemma TrimRight_last s c x t :
  strings.TrimRight s [c] = t ++ [x] -> x <> c.
Proof.
  revert t. induction s as [| d s IH]; intros t; cbn [strings.TrimRight].
  - intros E. now destruct t.
  - destruct (strings.TrimRight s [c]) as [| y u] eqn:E.
    + destruct (bool_decide_reflect (d ∈ [c])) as [Hd | Hd]; intros E'.
      * now destruct t.
      * destruct t as [| ? [| ? ?]]; try discriminate.
        injection E' as ->. intros ->. apply Hd, list_elem_of_singleton. reflexivity.
    + intros E'. destruct t as [| z t].
      * discriminate.
      * injection E' as -> E'. now apply (IH t).
Qed.

Lemma TrimRight_keep_all s c :
  (forall t x, s = t ++ [x] -> x <> c) -> strings.TrimRight s [c] = s.
Proof.
  intros Hlast. destruct (TrimRight_split s c) as [[| n] E].
  - now rewrite app_nil_r in E.
  - exfalso. rewrite replicate_S_end in E. rewrite app_assoc in E.
    now apply Hlast in E.
Qed.

Lemma LastIndexByte_None s c : strings.LastIndexByte s c = None <-> c ∉ s.
Proof.
  induction s as [| d s IH]; cbn [strings.LastIndexByte].
  - split; [intros _; apply not_elem_of_nil | reflexivity].
  - rewrite not_elem_of_cons.
    destruct (strings.LastIndexByte s c) as [i |].
    + split; [discriminate | intros [_ H]; now apply IH in H].
    + destruct (byte_eqb d c) eqn:E.
      * apply byte_eqb_eq in E as ->. split; [discriminate | now intros [? _]].
      * apply byte_eqb_neq in E. split; [| reflexivity].
        intros _. split; [congruence | now apply IH].
Qed.

(** After the last occurrence of a byte there is no further occurrence. *)
Lemma LastIndexByte_Some s c i :
  strings.LastIndexByte s c = Some i ->
  s !! i = Some c /\ c ∉ drop (i + 1) s.
Proof.
  revert i. induction s as [| d s IH]; intros i; cbn [strings.LastIndexByte];
    [discriminate |].
  destruct (strings.LastIndexByte s c) as [j |] eqn:E.
  - intros [= <-]. destruct (IH j eq_refl) as [H1 H2]. now split.
  - destruct (byte_eqb d c) eqn:Ed; [| discriminate].
    intros [= <-]. apply byte_eqb_eq in Ed as ->.
    split; [reflexivity |]. cbn. now apply LastIndexByte_None.
Qed.

Lemma LastIndexByte_app p s c i :
  strings.LastIndexByte s c = Some i ->
  strings.LastIndexByte (p ++ s) c = Some (length p + i)%nat.
Proof.
  intros Hs. induction p as [| d p IH]; [exact Hs |].
  cbn [app strings.LastIndexByte length]. now rewrite IH.
Qed.

Lemma LastIndexByte_last a b c :
  c ∉ b -> strings.LastIndexByte (a ++ c :: b) c = Some (length a).
Proof.
  intros Hb. rewrite (LastIndexByte_app a (c :: b) c 0).
  - f_equal. lia.
  - cbn [strings.LastIndexByte].
    apply LastIndexByte_None in Hb. rewrite Hb. now rewrite byte_eqb_refl.
Qed.

(** ** [ReadLastLine] *)

(** Once a suffix of the text shows a line boundary, its last line is the
    last line of the text. *)
Lemma lastLine_suffix (c : gostring) (o i : nat) :
  strings.LastIndexByte (strings.TrimRight (drop o c) [NL]) NL = Some i ->
  lastLine c = drop (i + 1) (strings.TrimRight (drop o c) [NL]).
Proof.
  intros Hi. unfold lastLine. cbv zeta.
  assert (Hne : strings.TrimRight (drop o c) [NL] <> []).
  { intros E. rewrite E in Hi. discriminate. }
  assert (Hc : strings.TrimRight c [NL]
               = take o c ++ strings.TrimRight (drop o c) [NL]).
  { rewrite <- (take_drop o c) at 1. now apply TrimRight_app_keep. }
  rewrite Hc, (LastIndexByte_app _ _ _ i Hi).
  rewrite <- Nat.add_assoc. now rewrite drop_app_add'.
Qed.

Lemma oneLine_suffix (c : gostring) (o p : nat) :
  (o <= p)%nat -> oneLine (drop o c) -> oneLine (drop p c).
Proof.
  unfold oneLine. intros Hop Ho.
  destruct (strings.LastIndexByte (strings.TrimRight (drop p c) [NL]) NL)
    as [i |] eqn:E; [| reflexivity].
  exfalso.
  assert (Hne : strings.TrimRight (drop p c) [NL] <> []).
  { intros E'. rewrite E' in E. discriminate. }
  replace (drop o c) with (take (p - o) (drop o c) ++ drop p c) in Ho.
  - rewrite TrimRight_app_keep in Ho by assumption.
    rewrite (LastIndexByte_app _ _ _ i E) in Ho. discriminate.
  - rewrite <- (take_drop (p - o) (drop o c)) at 2.
    rewrite drop_drop. do 2 f_equal. lia.
Qed.

Lemma ReadAt_chunk (file : os.File) (o r : nat) :
  (r <= o <= length (os.contents file))%nat ->
  os.ReadAt file (Z.of_nat r) (Z.of_nat (o - r))
  ++ drop o (os.contents file)
  = drop (o - r) (os.contents file).
Proof.
  intros Hr. unfold os.ReadAt. rewrite !Nat2Z.id.
  rewrite length_take, length_drop.
  replace (r - r `min` (length (os.contents file) - (o - r)))%nat with 0%nat by lia.
  cbn [replicate]. rewrite app_nil_r.
  rewrite <- (take_drop r (drop (o - r) (os.contents file))) at 2.
  rewrite drop_drop. do 2 f_equal. lia.
Qed.

Lemma readLastLineLoop_reads (file : os.File) (turns o : nat) :
  (o <= length (os.contents file))%nat -> (o <= turns)%nat ->
  oneLine (drop o (os.contents file)) ->
  exists (o' p : nat),
    readLastLineLoop turns file (Z.of_nat o) (drop o (os.contents file))
    = Some (lastLine (os.contents file), Z.of_nat o') /\
    (o' <= p)%nat /\ Z.of_nat p <= Z.of_nat o' + 4096 /\ (p <= o)%nat /\
    oneLine (drop p (os.contents file)) /\
    (o' = 0%nat \/ ~ oneLine (drop o' (os.contents file))).
Proof.
  set (c := os.contents file).
  revert o. induction turns as [| turns IH]; intros o Hlen Hturns Hone.
  - assert (o = 0%nat) as -> by lia. exists 0%nat, 0%nat. cbn.
    unfold lastLine. rewrite drop_0 in Hone. fold c. rewrite Hone.
    repeat split; try lia; auto; try (now rewrite drop_0).
  - cbn [readLastLineLoop].
    destruct (Z.ltb_spec 0 (Z.of_nat o)) as [Hpos | Hzero].
    + set (r := Z.to_nat (if Z.of_nat o <? 4096 then Z.of_nat o else 4096)).
      assert (Hr : (if Z.of_nat o <? 4096 then Z.of_nat o else 4096) = Z.of_nat r).
      { unfold r. destruct (Z.ltb_spec (Z.of_nat o) 4096); lia. }
      assert (Hro : (1 <= r <= o)%nat /\ Z.of_nat r <= 4096).
      { unfold r. destruct (Z.ltb_spec (Z.of_nat o) 4096); lia. }
      rewrite Hr. replace (Z.of_nat o - Z.of_nat r) with (Z.of_nat (o - r)) by lia.
      rewrite ReadAt_chunk by (unfold c in Hlen; lia). fold c.
      destruct (strings.LastIndexByte (strings.TrimRight (drop (o - r) c) [NL]) NL)
        as [i |] eqn:E.
      * exists (o - r)%nat, o. rewrite <- (lastLine_suffix c (o - r) i E).
        repeat split; try lia; auto.
        right. unfold oneLine. now rewrite E.
      * destruct (IH (o - r)%nat) as (o' & p & Heq & Hp & Hp4 & Hpo & Hpone & Ho');
          [lia | lia | exact E |].
        exists o', p. repeat split; try lia; auto.
    + assert (o = 0%nat) as -> by lia. exists 0%nat, 0%nat. cbn.
      unfold lastLine. rewrite drop_0 in Hone. fold c. rewrite Hone.
      repeat split; try lia; auto; try (now rewrite drop_0).
Qed.

(** What [ReadLastLine] computes, and how far back it reads. *)
Lemma readLastLineOf_reads (file : os.File) :
  exists (o' p : nat),
    readLastLineOf file = (lastLine (os.contents file), Z.of_nat o') /\
    (o' <= p)%nat /\ Z.of_nat p <= Z.of_nat o' + 4096 /\
    (p <= length (os.contents file))%nat /\
    oneLine (drop p (os.contents file)) /\
    (o' = 0%nat \/ ~ oneLine (drop o' (os.contents file))).
Proof.
  unfold readLastLineOf, os.Size.
  destruct (Z.eqb_spec (Z.of_nat (length (os.contents file))) 0) as [E | E].
  - assert (Hnil : os.contents file = []) by (apply nil_length_inv; lia).
    exists 0%nat, 0%nat. rewrite Hnil. cbn. repeat split; auto; lia.
  - destruct (readLastLineLoop_reads file (length (os.contents file))
                (length (os.contents file)))
      as (o' & p & Heq & Hp & Hp4 & Hpo & Hpone & Ho'); [lia | lia | |].
    + now rewrite drop_all.
    + rewrite drop_all in Heq. rewrite Heq. cbn [default].
      exists o', p. repeat split; auto.
Qed.

Lemma TrimRight_line pre line n :
  line <> [] -> NL ∉ line ->
  strings.TrimRight (pre ++ line ++ replicate n NL) [NL] = pre ++ line.
Proof.
  intros Hne Hnl.
  assert (Hline : strings.TrimRight (line ++ replicate n NL) [NL] = line).
  { rewrite TrimRight_app_drop by apply TrimRight_replicate.
    apply TrimRight_keep_all. intros t x -> ->.
    apply Hnl, elem_of_app. right. apply list_elem_of_singleton. reflexivity. }
  rewrite TrimRight_app_keep; rewrite Hline; [reflexivity | assumption].
Qed.

Lemma oneLine_line line n : NL ∉ line -> oneLine (line ++ replicate n NL).
Proof.
  intros Hnl. unfold oneLine.
  destruct line as [| x l].
  - cbn [app]. now rewrite TrimRight_replicate.
  - pose proof (TrimRight_line [] (x :: l) n) as E. cbn [app] in E.
    cbn [app]. rewrite E by (assumption || discriminate).
    now apply LastIndexByte_None.
Qed.

Lemma lastLine_no_NL c : NL ∉ lastLine c.
Proof.
  unfold lastLine. cbv zeta.
  destruct (strings.LastIndexByte (strings.TrimRight c [NL]) NL) as [i |] eqn:E.
  - now apply LastIndexByte_Some in E.
  - now apply LastIndexByte_None.
Qed.

Lemma lastLine_line pre line n :
  line <> [] -> NL ∉ line -> (pre = [] \/ exists q, pre = q ++ [NL]) ->
  lastLine (pre ++ line ++ replicate n NL) = line.
Proof.
  intros Hne Hnl Hpre. unfold lastLine. cbv zeta.
  rewrite TrimRight_line by assumption.
  destruct Hpre as [-> | [q ->]].
  - cbn [app]. apply LastIndexByte_None in Hnl. now rewrite Hnl.
  - rewrite <- app_assoc. cbn [app].
    rewrite LastIndexByte_last by assumption.
    replace (q ++ NL :: line) with ((q ++ [NL]) ++ line)
      by (now rewrite <- app_assoc).
    apply drop_app_length'. rewrite length_app. cbn. lia.
Qed.

Lemma lastLine_trimOne c :
  (forall q, c <> q ++ [NL; NL]) -> lastLine c = lastLineTrimOne c.
Proof.
  intros Htwo. unfold lastLine, lastLineTrimOne. cbv zeta.
  destruct (TrimRight_split c NL) as [n Hc].
  set (t := strings.TrimRight c [NL]) in *.
  assert (Ht : forall u x, t = u ++ [x] -> x <> NL).
  { intros u x E. now apply (TrimRight_last c NL x u). }
  destruct n as [| [| n]].
  - rewrite app_nil_r in Hc. rewrite <- Hc in *.
    destruct (rev c) as [| x r] eqn:E; [reflexivity |].
    apply (f_equal (@rev _)) in E. rewrite rev_involutive in E. cbn in E.
    apply Ht in E. apply byte_eqb_neq in E. now rewrite E.
  - rewrite Hc. rewrite rev_app_distr. cbn [replicate rev app].
    now rewrite byte_eqb_refl, rev_involutive.
  - exfalso. apply (Htwo (t ++ replicate n NL)).
    rewrite Hc. rewrite <- app_assoc. f_equal.
    change [NL; NL] with (replicate 2 NL). rewrite <- replicate_add.
    f_equal. lia.
Qed.

(** Running [ReadLastLine]: one [os.Open] and the line of the file. *)
Lemma ReadLastLine_run (fs : os.FS) (path : gostring) (st : Store) :
  ReadLastLine fs path st
  = (match os.files fs !! path with
     | None => []
     | Some file => fst (readLastLineOf file)
     end,
     mkStore (metadataCache st) (accesses st ++ [Open path])).
Proof.
  unfold ReadLastLine, os_Open, access, mbind, M_bind, mret, M_ret.
  now destruct (os.files fs !! path).
Qed.

(** C5 (as amended).  For every file that can be opened, [ReadLastLine]
    returns the last line of the file once every trailing line feed is
    dropped: the empty string for an empty file; the whole content for a
    file without any line feed; and for a file
    [pre ++ line ++ line feeds], where [line] is not empty, holds no line
    feed and [pre] is empty or ends in a line feed, exactly [line],
    whatever the number of trailing line feeds.  No line feed ever appears
    in the result.  With at most one trailing line feed this is the last
    line after trimming a single line feed.  The file is read backward in
    chunks of 4096 bytes, down to an offset that lies less than 4096 bytes
    before the line feed that precedes the last line (the whole file when
    there is no such line feed). *)
Theorem ReadLastLine_last_line (fs : os.FS) (path : gostring) (file : os.File)
  (st : Store) :
  os.files fs !! path = Some file ->
  let text := os.contents file in
  let result := fst (ReadLastLine fs path st) in
  let offset := snd (readLastLineOf file) in
  result = lastLine text /\
  (text = [] -> result = []) /\
  (NL ∉ text -> result = text) /\
  (NL ∉ result) /\
  ((forall q, text <> q ++ [NL; NL]) -> result = lastLineTrimOne text) /\
  (forall line n,
     line <> [] -> NL ∉ line -> text = line ++ replicate n NL ->
     result = line /\ offset = 0) /\
  (forall q line n,
     line <> [] -> NL ∉ line -> text = q ++ [NL] ++ line ++ replicate n NL ->
     result = line /\
     Z.of_nat (length q) - 4096 < offset <= Z.of_nat (length q)).
Proof.
  intros Hfile text result offset.
  destruct (readLastLineOf_reads file)
    as (o' & p & Heq & Hp & Hp4 & Hplen & Hpone & Ho').
  fold text in Heq, Hplen, Hpone, Ho'.
  assert (Hres : result = lastLine text).
  { unfold result. rewrite ReadLastLine_run, Hfile. cbn [fst]. now rewrite Heq. }
  assert (Hoff : offset = Z.of_nat o').
  { unfold offset. now rewrite Heq. }
  rewrite Hres, Hoff. clear Hres Hoff Heq offset result. clearbody text.
  split; [reflexivity |]. split; [now intros -> |]. split.
  { intros Hnl. destruct (decide (text = [])) as [E | Hne]; [now rewrite E |].
    pose proof (lastLine_line [] text 0 Hne Hnl (or_introl eq_refl)) as H.
    cbn [app replicate] in H. now rewrite app_nil_r in H. }
  split; [apply lastLine_no_NL |].
  split; [apply lastLine_trimOne |]. split.
  - intros line n Hne Hnl E. split.
    + rewrite E. apply (lastLine_line [] line n); auto.
    + destruct Ho' as [-> | Hno]; [reflexivity |].
      exfalso. apply Hno. rewrite E.
      apply (oneLine_suffix _ 0); [lia |]. rewrite drop_0.
      now apply oneLine_line.
  - intros q line n Hne Hnl E. split.
    + rewrite E, app_assoc. apply lastLine_line; eauto.
    + assert (Hq : drop (length q + 1) text = line ++ replicate n NL).
      { rewrite E, app_assoc. apply drop_app_length'.
        rewrite length_app. cbn. lia. }
      assert (Hnot : ~ oneLine (drop (length q) text)).
      { rewrite E, drop_app_length. unfold oneLine.
        rewrite (TrimRight_line [NL] line n) by assumption.
        pose proof (LastIndexByte_last [] line NL Hnl) as Hl.
        cbn [app] in *. rewrite Hl. discriminate. }
      split.
      * destruct (le_lt_dec p (length q)) as [Hle | Hlt]; [| lia].
        exfalso. apply Hnot. now apply (oneLine_suffix _ p).
      * destruct Ho' as [-> | Hno]; [lia |].
        destruct (le_lt_dec o' (length q)) as [Hle | Hlt]; [lia |].
        exfalso. apply Hno.
        apply (oneLine_suffix _ (length q + 1)); [lia |].
        rewrite Hq. now apply oneLine_line.
Qed.

(** A file that cannot be opened gives the empty string. *)
Lemma ReadLastLine_missing (fs : os.FS) (path : gostring) (st : Store) :
  os.files fs !! path = None -> fst (ReadLastLine fs path st) = [].
Proof.
  intros H. now rewrite ReadLastLine_run, H.
Qed.

(** [ReadLastLine_last_line] at a transcript of two lines that ends in a
    line feed. *)
Lemma ReadLastLine_last_line_witness :
  os.files (singleFile (str "t.jsonl") (str "{1}
{2}
") 0) !! str "t.jsonl"
  = Some (os.mkFile (str "{1}
{2}
") 0) /\
  fst (ReadLastLine (singleFile (str "t.jsonl") (str "{1}
{2}
") 0) (str "t.jsonl") emptyStore) = str "{2}".
Proof.
  assert (Hfile : os.files (singleFile (str "t.jsonl") (str "{1}
{2}
") 0) !! str "t.jsonl" = Some (os.mkFile (str "{1}
{2}
") 0)) by (vm_compute; reflexivity).
  split; [exact Hfile |].
  destruct (ReadLastLine_last_line _ _ _ emptyStore Hfile)
    as (_ & _ & _ & _ & _ & _ & H).
  destruct (H (str "{1}") (str "{2}") 1%nat) as [Hline _];
    [discriminate | | reflexivity | exact Hline].
  vm_compute. intros Hin. inversion Hin; subst.
  repeat match goal with H : _ ∈ _ |- _ => inversion H; clear H; subst end.
Defined.

(** C5 as stated fails on a file that ends in several line feeds: with a
    single trailing line feed trimmed, the last line of [a] followed by
    three line feeds is empty, and [ReadLastLine] returns [a]. *)
Lemma ReadLastLine_trims_every_line_feed :
  let text := str "a" ++ [NL; NL; NL] in
  let fs := singleFile (str "t.jsonl") text 0 in
  os.files fs !! str "t.jsonl" = Some (os.mkFile text 0) /\
  lastLineTrimOne text = [] /\
  fst (ReadLastLine fs (str "t.jsonl") emptyStore) = str "a" /\
  fst (ReadLastLine fs (str "t.jsonl") emptyStore) <> lastLineTrimOne text.
Proof. vm_compute. repeat split; discriminate. Qed.

(** The package's test [TestReadLastLine]. *)
Example ReadLastLine_tests :
  map (fun text =>
         fst (ReadLastLine (singleFile (str "f") (quoted text) 0) (str "f")
                emptyStore))
      ["{'type':'user'}";
       "{'type':'user','message':{'role':'user'}}
{'type':'assistant','message':{'role':'assistant'}}
{'type':'progress'}";
       "{'type':'assistant'}
";
       ""]%string
  = map quoted ["{'type':'user'}"; "{'type':'progress'}";
                "{'type':'assistant'}"; ""]%string.
Proof. vm_compute. reflexivity. Qed.

(** ** [CleanTopic] *)

Lemma HasPrefix_app s p :
  strings.HasPrefix s p = true <-> exists r, s = p ++ r.
Proof.
  revert s. induction p as [| c p IH]; intros s; cbn [strings.HasPrefix].
  - split; [intros _; now exists s | reflexivity].
  - destruct s as [| d s]; [split; [discriminate | now intros [? ?]] |].
    rewrite andb_true_iff, byte_eqb_eq, IH. split.
    + intros [-> [r ->]]. now exists r.
    + intros [r [= -> ->]]. split; [reflexivity | now exists r].
Qed.

Lemma removeMatches_none matchAt s bol :
  (forall i b, (i < length s)%nat -> matchAt b (drop i s) = None) ->
  regexp.removeMatches matchAt s bol 0 = s.
Proof.
  revert bol. induction s as [| c r IH]; intros bol Hnone; [reflexivity |].
  cbn [regexp.removeMatches].
  pose proof (Hnone 0%nat bol ltac:(cbn; lia)) as H0. cbn [drop] in H0.
  rewrite H0. f_equal. apply IH. intros i b Hi. apply (Hnone (S i) b). cbn. lia.
Qed.

Lemma noTags_drop s i b :
  noTags s = true -> (i < length s)%nat -> xmlTagRegex b (drop i s) = None.
Proof.
  unfold noTags. revert i. induction s as [| c r IH]; intros i Hs Hi;
    [cbn in Hi; lia |].
  cbn [noMatch] in Hs. apply andb_true_iff in Hs as [Hc Hr].
  apply bool_decide_eq_true in Hc.
  destruct i as [| i]; [exact Hc |].
  cbn [drop]. apply IH; [assumption | cbn in Hi; lia].
Qed.

Lemma removeMatches_tags s : noTags s = true ->
  regexp.removeMatches xmlTagRegex s true 0 = s.
Proof.
  intros Hs. apply removeMatches_none. intros i b Hi. now apply noTags_drop.
Qed.

Lemma removeMatches_noise_inside s :
  NL ∉ s -> regexp.removeMatches noiseRegex s false 0 = s.
Proof.
  induction s as [| c r IH]; intros Hnl; [reflexivity |].
  apply not_elem_of_cons in Hnl as [Hc Hr].
  cbn [regexp.removeMatches noiseRegex negb].
  replace (byte_eqb c NL) with false; [now rewrite IH |].
  symmetry. apply byte_eqb_neq. congruence.
Qed.

Lemma removeMatches_noise s :
  NL ∉ s -> noiseRegex true s = None ->
  regexp.removeMatches noiseRegex s true 0 = s.
Proof.
  intros Hnl Hnone. destruct s as [| c r]; [reflexivity |].
  apply not_elem_of_cons in Hnl as [Hc Hr].
  cbn [regexp.removeMatches]. rewrite Hnone.
  replace (byte_eqb c NL) with false; [now rewrite removeMatches_noise_inside |].
  symmetry. apply byte_eqb_neq. congruence.
Qed.

Lemma singleSpaces_no_NL s afterSpace :
  singleSpacesFrom s afterSpace = true -> NL ∉ s.
Proof.
  revert afterSpace. induction s as [| c r IH]; intros afterSpace Hs;
    [apply not_elem_of_nil |].
  cbn [singleSpacesFrom] in Hs. apply not_elem_of_cons.
  destruct (strings.spaceWidth (c :: r)) eqn:E.
  - split; [| now apply (IH false)].
    intros <-. rewrite spaceWidth_ascii in E by (vm_compute; reflexivity).
    discriminate.
  - apply andb_true_iff in Hs as [Hs Hr]. apply andb_true_iff in Hs as [Hc _].
    apply byte_eqb_eq in Hc as ->. split; [discriminate | now apply (IH true)].
Qed.

Lemma splitSpace_not_nil s k : strings.splitSpace s k <> [].
Proof.
  revert k. induction s as [| c r IH]; intros k; cbn [strings.splitSpace];
    [discriminate |].
  destruct k; [| apply IH].
  destruct (strings.spaceWidth (c :: r)); [| discriminate].
  destruct (strings.splitSpace r 0); discriminate.
Qed.

Lemma Join_cons h t sep :
  t <> [] -> strings.Join (h :: t) sep = h ++ sep ++ strings.Join t sep.
Proof. destruct t; [congruence | reflexivity]. Qed.

Lemma splitSpace_single s afterSpace :
  singleSpacesFrom s afterSpace = true ->
  (forall t, s <> t ++ [SP]) ->
  (afterSpace = true -> s <> []) ->
  exists h t,
    strings.splitSpace s 0 = h :: t /\
    Forall (fun f => strings.nonEmpty f = true) t /\
    (s <> [] -> afterSpace = true \/ strings.spaceWidth s = 0%nat -> h <> []) /\
    strings.Join (h :: t) [SP] = s.
Proof.
  revert afterSpace. induction s as [| c r IH]; intros afterSpace Hs Hend Hne.
  - exists [], []. repeat split; auto; congruence.
  - cbn [singleSpacesFrom strings.splitSpace] in *.
    destruct (strings.spaceWidth (c :: r)) as [| k] eqn:E.
    + destruct (IH false Hs) as (h & t & Hsplit & Ht & _ & Hjoin).
      { intros t ->. now apply (Hend (c :: t)). }
      { discriminate. }
      rewrite Hsplit. exists (c :: h), t.
      split; [reflexivity |]. split; [assumption |].
      split; [intros; discriminate |].
      destruct t as [| x t]; cbn in *; now rewrite Hjoin.
    + apply andb_true_iff in Hs as [Hs Hr]. apply andb_true_iff in Hs as [Hc Hprev].
      apply byte_eqb_eq in Hc as ->. apply negb_true_iff in Hprev as ->.
      rewrite spaceWidth_ascii in E by (vm_compute; reflexivity).
      cbn in E. injection E as <-.
      assert (Hrne : r <> []) by (intros ->; now apply (Hend [])).
      destruct (IH true Hr) as (h & t & Hsplit & Ht & Hh & Hjoin).
      { intros t ->. now apply (Hend (SP :: t)). }
      { auto. }
      rewrite Hsplit. exists [], (h :: t).
      split; [reflexivity |]. split; [| split].
      * constructor; [| assumption].
        specialize (Hh Hrne (or_introl eq_refl)). now destruct h.
      * intros _ [? | ?]; discriminate.
      * rewrite Join_cons by discriminate. cbn [app]. now rewrite Hjoin.
Qed.

Lemma filter_nonEmpty l :
  Forall (fun f => strings.nonEmpty f = true) l ->
  List.filter strings.nonEmpty l = l.
Proof.
  induction 1 as [| x l Hx _ IH]; [reflexivity |].
  cbn. now rewrite Hx, IH.
Qed.

(** Collapsing white space leaves a text of words and single spaces as
    it is. *)
Lemma Fields_Join_single s :
  singleSpaces s = true -> trimmed s = true ->
  strings.Join (strings.Fields s) [SP] = s.
Proof.
  intros Hs Ht. destruct s as [| c r]; [reflexivity |].
  unfold trimmed in Ht. apply andb_true_iff in Ht as [Hhead Hlast].
  apply Nat.eqb_eq in Hhead, Hlast.
  destruct (splitSpace_single (c :: r) false Hs) as (h & t & Hsplit & Hall & Hh & Hjoin).
  - intros t E. rewrite E, rev_app_distr in Hlast. cbn [rev app] in Hlast.
    rewrite spaceWidthEnd_ascii in Hlast by (vm_compute; reflexivity).
    discriminate.
  - discriminate.
  - unfold strings.Fields. rewrite Hsplit.
    rewrite filter_nonEmpty; [exact Hjoin |].
    constructor; [| assumption].
    assert (h <> []) by (apply Hh; [discriminate | now right]).
    now destruct h.
Qed.
Lemma noTags_not_wrapper s :
  noTags s = true ->
  strings.HasPrefix s (str "<ide_selection>") = false /\
  strings.HasPrefix s (str "<ide_opened_file>") = false.
Proof.
  intros Hs. split.
  - destruct (strings.HasPrefix s (str "<ide_selection>")) eqn:E; [| reflexivity].
    apply HasPrefix_app in E as [r ->].
    pose proof (noTags_drop _ 0 true Hs ltac:(cbn; lia)) as H. discriminate.
  - destruct (strings.HasPrefix s (str "<ide_opened_file>")) eqn:E; [| reflexivity].
    apply HasPrefix_app in E as [r ->].
    pose proof (noTags_drop _ 0 true Hs ltac:(cbn; lia)) as H. discriminate.
Qed.

Lemma CleanTopic_clean s :
  noTags s = true -> noNoisePrefix s = true -> singleSpaces s = true ->
  trimmed s = true -> CleanTopic s = s.
Proof.
  intros Htags Hnoise Hspaces Htrim. unfold CleanTopic.
  destruct (bool_decide_reflect (s = [])) as [-> | Hne]; [reflexivity |].
  destruct (noTags_not_wrapper s Htags) as [Hsel Hopen].
  unfold stripIDESelectionTag. rewrite Hsel. cbn [negb andb].
  unfold stripIDEOpenedFileTag. rewrite Hopen. cbn [negb].
  unfold stripXMLAndNoise.
  pose proof (singleSpaces_no_NL s false Hspaces) as Hnl.
  rewrite removeMatches_tags by assumption.
  rewrite removeMatches_noise; [now apply Fields_Join_single | assumption |].
  unfold noNoisePrefix in Hnoise. rewrite Split_no_sep in Hnoise by assumption.
  cbn in Hnoise. rewrite andb_true_r in Hnoise.
  now apply bool_decide_eq_true in Hnoise.
Qed.

Lemma Index_selection_close x :
  strings.Index (str "<ide_selection>" ++ x) (str "</ide_selection>")
  = (fun i => (15 + i)%nat) <$> strings.Index x (str "</ide_selection>").
Proof.
  cbn. now destruct (strings.Index x _).
Qed.

Lemma CleanTopic_selection_placeholder inner after :
  strings.Index (inner ++ str "</ide_selection>" ++ after) (str "</ide_selection>")
  = Some (length inner) ->
  strings.TrimSpace after = [] -> selectionInner inner = [] ->
  CleanTopic (str "<ide_selection>" ++ inner ++ str "</ide_selection>" ++ after)
  = str "(IDE selection)".
Proof.
  intros Hidx Hafter Hinner. unfold CleanTopic, stripIDESelectionTag.
  rewrite Index_selection_close, Hidx.
  change (strings.HasPrefix (str "<ide_selection>" ++ _) (str "<ide_selection>"))
    with true.
  cbn [negb fmap option_fmap option_map].
  replace (drop (15 + length inner + length (str "</ide_selection>"))
             (str "<ide_selection>" ++ inner ++ str "</ide_selection>" ++ after))
    with after.
  2:{ rewrite !app_assoc. symmetry. apply drop_app_length'.
      rewrite !length_app. cbn. lia. }
  rewrite Hafter. cbn [bool_decide decide_rel negb].
  replace (take (15 + length inner - length (str "<ide_selection>"))
             (drop (length (str "<ide_selection>"))
                (str "<ide_selection>" ++ inner ++ str "</ide_selection>" ++ after)))
    with inner.
  2:{ rewrite drop_app_length. symmetry. apply take_app_length'. cbn. lia. }
  rewrite Hinner. reflexivity.
Qed.
Lemma CleanTopic_opened_file rest :
  let prompt := str "<ide_opened_file>" ++ rest in
  CleanTopic prompt = fst (stripIDEOpenedFileTag prompt) /\
  stripIDEOpenedFileTag prompt
  = (match strings.Index prompt (str "opened the file ") with
     | Some idx =>
         match strings.Index (drop (idx + 16) prompt) (str " in the IDE") with
         | Some endIdx =>
             str "(opened " ++ filepath.Base (take endIdx (drop (idx + 16) prompt))
                 ++ str ")"
         | None => str "(IDE context)"
         end
     | None => str "(IDE context)"
     end, true).
Proof.
  intros prompt. split.
  - unfold CleanTopic, stripIDESelectionTag.
    change (strings.HasPrefix prompt (str "<ide_selection>")) with false.
    change (bool_decide (prompt = [])) with false. cbn [negb andb].
    unfold stripIDEOpenedFileTag.
    change (strings.HasPrefix prompt (str "<ide_opened_file>")) with true.
    cbn [negb].
    destruct (strings.Index prompt _); [| reflexivity].
    destruct (strings.Index _ _); reflexivity.
  - unfold stripIDEOpenedFileTag.
    change (strings.HasPrefix prompt (str "<ide_opened_file>")) with true.
    cbn [negb]. change (length (str "opened the file ")) with 16%nat.
    destruct (strings.Index prompt _); [| reflexivity].
    destruct (strings.Index _ _); reflexivity.
Qed.

(** C8 (as amended).  [CleanTopic] returns unchanged every text that
    holds no angle-bracket tag, no noise prefix and no white space other
    than single spaces between words (none at either end).  For an
    [<ide_selection>] wrapper with nothing after its closing tag and no
    usable inner text it returns ["(IDE selection)"]; for an
    [<ide_opened_file>] wrapper it returns ["(opened <basename>)"] when
    the markers ["opened the file "] and [" in the IDE"] delimit a path,
    and ["(IDE context)"] when they do not. *)
Theorem CleanTopic_clean_and_placeholders :
  (forall s,
     noTags s = true -> noNoisePrefix s = true -> singleSpaces s = true ->
     trimmed s = true -> CleanTopic s = s) /\
  (forall inner after,
     strings.Index (inner ++ str "</ide_selection>" ++ after)
       (str "</ide_selection>") = Some (length inner) ->
     strings.TrimSpace after = [] -> selectionInner inner = [] ->
     CleanTopic (str "<ide_selection>" ++ inner ++ str "</ide_selection>" ++ after)
     = str "(IDE selection)") /\
  (forall rest idx endIdx,
     let prompt := str "<ide_opened_file>" ++ rest in
     strings.Index prompt (str "opened the file ") = Some idx ->
     strings.Index (drop (idx + 16) prompt) (str " in the IDE") = Some endIdx ->
     CleanTopic prompt
     = str "(opened " ++ filepath.Base (take endIdx (drop (idx + 16) prompt))
           ++ str ")") /\
  (forall rest,
     let prompt := str "<ide_opened_file>" ++ rest in
     (strings.Index prompt (str "opened the file ") = None \/
      exists idx,
        strings.Index prompt (str "opened the file ") = Some idx /\
        strings.Index (drop (idx + 16) prompt) (str " in the IDE") = None) ->
     CleanTopic prompt = str "(IDE context)").
Proof.
  split; [exact CleanTopic_clean |].
  split; [exact CleanTopic_selection_placeholder |].
  split.
  - intros rest idx endIdx prompt Hidx Hend.
    destruct (CleanTopic_opened_file rest) as [H1 H2]. fold prompt in H1, H2.
    now rewrite H1, H2, Hidx, Hend.
  - intros rest prompt H.
    destruct (CleanTopic_opened_file rest) as [H1 H2]. fold prompt in H1, H2.
    rewrite H1, H2.
    destruct H as [-> | (idx & -> & ->)]; reflexivity.
Qed.

(** C8 as stated fails on a text that begins with a space: it holds no
    tag, no noise prefix and no white-space run beyond a single space, and
    [CleanTopic] drops the space. *)
Lemma CleanTopic_trims_clean_text :
  noTags (str " hello") = true /\ noNoisePrefix (str " hello") = true /\
  singleSpaces (str " hello") = true /\
  CleanTopic (str " hello") = str "hello" /\
  CleanTopic (str " hello") <> str " hello".
Proof. vm_compute. repeat split; discriminate. Qed.

(** The package's tests [TestCleanTopic_IDESelection],
    [TestCleanTopic_IDEOpenedFile], [TestCleanTopic_XMLTags] and
    [TestCleanTopic_NoisePrefixes]. *)
Example CleanTopic_tests :
  map (fun s => CleanTopic (str s))
    ["<ide_selection>some code here</ide_selection> Fix the bug in this function";
     "<ide_selection>file.ts: const x = 1; This may or may not be relevant</ide_selection>";
     "<ide_selection></ide_selection>";
     "<ide_opened_file>User opened the file /Users/me/project/main.go in the IDE</ide_opened_file>";
     "<ide_opened_file>something else</ide_opened_file>";
     "<tag>Hello</tag> World";
     "<outer><inner>text</inner></outer> remaining";
     "Just a plain prompt";
     "Caveat: some warning. Actual prompt here";
     "Implement the following plan: Do something";
     "# Fix the login page";
     "";
     "No prompt"]%string
  = map str
      ["Fix the bug in this function"; "const x = 1;"; "(IDE selection)";
       "(opened main.go)"; "(IDE context)"; "Hello World"; "text remaining";
       "Just a plain prompt"; "Actual prompt here"; "Do something";
       "Fix the login page"; ""; ""]%string.
Proof. vm_compute. reflexivity. Qed.

(** * Properties of the engine *)

(** ** [DetectState] *)

(** Comparing an age with a threshold is not affected by the saturation
    of [Sub]. *)
Lemma time_Sub_ltb (t u : time.Time) (d : time.Duration) :
  time.minDuration < d <= time.maxDuration ->
  (time.Sub t u <? d) = (t - u <? d).
Proof.
  unfold time.Sub, time.minDuration, time.maxDuration. intros Hd.
  destruct (Z.ltb_spec (2 ^ 63 - 1) (t - u)), (Z.ltb_spec (t - u) (- 2 ^ 63));
    destruct (Z.ltb_spec (t - u) d); try lia;
    match goal with |- (?a <? ?b) = _ => destruct (Z.ltb_spec a b) end; lia.
Qed.

Section EngineProperties.

Context {json : JSON}.

(** [hasToolUse]: the content decodes to a sequence of blocks, one of
    which is a [tool_use] block of the given name. *)
Lemma hasToolUse_true (raw toolName : gostring) :
  hasToolUse raw toolName = true <->
  raw <> [] /\
  exists blocks block,
    Unmarshal_toolBlocks raw = Some blocks /\ block ∈ blocks /\
    toolBlock.Type_ block = str "tool_use" /\ toolBlock.Name block = toolName.
Proof.
  unfold hasToolUse.
  destruct (bool_decide_reflect (raw = [])) as [-> | Hne].
  { split; [discriminate | now intros [? _]]. }
  destruct (Unmarshal_toolBlocks raw) as [blocks |].
  - rewrite existsb_exists. split.
    + intros (block & Hin & Hb). apply andb_true_iff in Hb as [H1 H2].
      apply bool_decide_eq_true in H1, H2.
      split; [assumption |]. exists blocks, block.
      now rewrite list_elem_of_In.
    + intros (_ & blocks' & block & [= <-] & Hin & H1 & H2).
      exists block. rewrite <- list_elem_of_In. split; [assumption |].
      now rewrite !bool_decide_eq_true_2.
  - split; [discriminate |]. now intros (_ & ? & ? & ? & _).
Qed.

(** What [ReadLastLine] returns for a file that can be opened. *)
Lemma ReadLastLine_lastLine fs path file st :
  os.files fs !! path = Some file ->
  fst (ReadLastLine fs path st) = lastLine (os.contents file).
Proof.
  intros Hfile. rewrite ReadLastLine_run, Hfile. cbn [fst].
  destruct (readLastLineOf_reads file) as (o' & p & Heq & _). now rewrite Heq.
Qed.

(** A text of line feeds only has no last line. *)
Lemma lastLine_line_feeds n : lastLine (replicate n NL) = [].
Proof. unfold lastLine. cbv zeta. now rewrite TrimRight_replicate. Qed.

(** Every text is either line feeds only, or ends in a non-empty line
    that starts the text or follows a line feed, and in line feeds. *)
Lemma lastLine_cases text :
  (exists n, text = replicate n NL /\ lastLine text = []) \/
  (exists pre line n,
     text = pre ++ line ++ replicate n NL /\ line <> [] /\ (NL ∉ line) /\
     (pre = [] \/ exists q, pre = q ++ [NL]) /\ lastLine text = line).
Proof.
  destruct (TrimRight_split text NL) as [n Hn].
  set (t := strings.TrimRight text [NL]) in *.
  destruct (decide (t = [])) as [Ht | Ht].
  { left. exists n. rewrite Ht in Hn. cbn [app] in Hn. split; [exact Hn |].
    rewrite Hn. apply lastLine_line_feeds. }
  right.
  assert (Hshape : exists pre line, t = pre ++ line /\ line <> [] /\ (NL ∉ line) /\
                     (pre = [] \/ exists q, pre = q ++ [NL])).
  { destruct (strings.LastIndexByte t NL) as [i |] eqn:E.
    - pose proof (LastIndexByte_Some _ _ _ E) as [Hi Hrest].
      exists (take (i + 1) t), (drop (i + 1) t).
      split; [now rewrite take_drop |]. split; [| split; [exact Hrest |]].
      + intros Hnil.
        assert (Hlen : (length t <= i + 1)%nat).
        { destruct (le_lt_dec (length t) (i + 1)) as [? | Hlt]; [assumption |].
          apply (f_equal (@length _)) in Hnil. rewrite length_drop in Hnil.
          cbn in Hnil. lia. }
        pose proof (lookup_lt_Some _ _ _ Hi) as Hlt.
        assert (Hlast : t = take i t ++ [NL]).
        { rewrite <- (take_drop i t) at 1. f_equal.
          rewrite (drop_S _ _ _ Hi). f_equal.
          apply nil_length_inv. rewrite length_drop. lia. }
        now apply (TrimRight_last text NL NL (take i t)).
      + right. exists (take i t).
        replace (i + 1)%nat with (S i) by lia.
        now apply take_S_r.
    - apply LastIndexByte_None in E. exists [], t. cbn [app]. auto. }
  destruct Hshape as (pre & line & Et & Hne & Hnl & Hpre).
  exists pre, line, n. rewrite Hn at 1. rewrite Et, <- app_assoc.
  split; [reflexivity |]. repeat split; try assumption.
  rewrite Hn, Et, <- app_assoc. now apply lastLine_line.
Qed.

(** C1.  [DetectState] applies its rules in order, the first that matches
    deciding.  (1) A transcript modified less than 30 seconds ago is
    Active whatever it holds.  Otherwise the state is read off the last
    non-empty line of the file: (2) when there is none (the file is
    missing or unreadable, or holds nothing but line feeds) or the line
    does not parse as JSON, the state is Idle; (3) a line of type
    ["progress"] is Active; (4) a line whose message role is ["assistant"]
    is Input when its content decodes to blocks one of which is a
    [tool_use] block named ["AskUserQuestion"], and Waiting otherwise
    (content that is text, a string, or names other tools only); (5) a
    line whose message role is ["user"] is Active when the transcript was
    modified less than 5 minutes ago; (6) in every other case the state
    is Idle. *)
Theorem DetectState_rules (fs : os.FS) (path : gostring)
  (mtime now : time.Time) (st : Store) :
  let state := fst (DetectState fs path mtime now st) in
  let asks (content : gostring) : Prop :=
    content <> [] /\
    exists blocks block,
      Unmarshal_toolBlocks content = Some blocks /\ block ∈ blocks /\
      toolBlock.Type_ block = str "tool_use" /\
      toolBlock.Name block = str "AskUserQuestion" in
  (now - mtime < 30 * time.Second -> state = StateActive) /\
  (30 * time.Second <= now - mtime ->
     (os.files fs !! path = None -> state = StateIdle) /\
     (forall file n,
        os.files fs !! path = Some file ->
        os.contents file = replicate n NL -> state = StateIdle) /\
     (forall file pre line n,
        os.files fs !! path = Some file ->
        os.contents file = pre ++ line ++ replicate n NL ->
        line <> [] -> NL ∉ line -> (pre = [] \/ exists q, pre = q ++ [NL]) ->
        (Unmarshal_jsonlLine line = None -> state = StateIdle) /\
        (forall entry,
           Unmarshal_jsonlLine line = Some entry ->
           let role := jsonlMessage.Role (jsonlLine.Message entry) in
           let content := jsonlMessage.Content (jsonlLine.Message entry) in
           (jsonlLine.Type_ entry = str "progress" -> state = StateActive) /\
           (jsonlLine.Type_ entry <> str "progress" ->
              (role = str "assistant" ->
                 (asks content -> state = StateInput) /\
                 (~ asks content -> state = StateWaiting)) /\
              (role = str "user" -> now - mtime < 5 * time.Minute ->
                 state = StateActive) /\
              (role = str "user" -> 5 * time.Minute <= now - mtime ->
                 state = StateIdle) /\
              (role <> str "assistant" -> role <> str "user" ->
                 state = StateIdle))))).
Proof.
  intros state asks. unfold state, DetectState.
  rewrite !time_Sub_ltb by (vm_compute; split; [reflexivity | discriminate]).
  fold activeRecentThreshold. unfold activeRecentThreshold.
  split.
  { intros Hage. destruct (Z.ltb_spec (now - mtime) (30 * time.Second)); [reflexivity | lia]. }
  intros Hage.
  destruct (Z.ltb_spec (now - mtime) (30 * time.Second)); [lia |].
  unfold mbind, M_bind. cbv beta.
  pose proof (ReadLastLine_missing fs path st) as Hmissing.
  pose proof (fun file => ReadLastLine_lastLine fs path file st) as Hline.
  destruct (ReadLastLine fs path st) as [last st']. cbn [fst] in Hmissing, Hline.
  clear state.
  split; [| split].
  - intros Hnone. rewrite (Hmissing Hnone). reflexivity.
  - intros file n Hfile Hc. rewrite (Hline file Hfile), Hc, lastLine_line_feeds.
    reflexivity.
  - intros file pre line n Hfile Hc Hne Hnl Hpre.
    rewrite (Hline file Hfile), Hc, (lastLine_line pre line n Hne Hnl Hpre).
    rewrite bool_decide_eq_false_2 by assumption.
    split; [intros Hnone; now rewrite Hnone |].
    intros entry Hentry. rewrite Hentry.
    set (role := jsonlMessage.Role (jsonlLine.Message entry)).
    set (content := jsonlMessage.Content (jsonlLine.Message entry)).
    pose proof (hasToolUse_true content (str "AskUserQuestion")) as Hasks.
    fold (asks content) in Hasks.
    clearbody role content. unfold activeUserPromptThreshold.
    split; [intros ->; reflexivity |].
    intros Hprog. rewrite (bool_decide_eq_false_2 _ Hprog).
    split; [| split; [| split]].
    + intros ->. cbn [bool_decide]. rewrite bool_decide_eq_true_2 by reflexivity.
      split.
      * intros Ha. apply Hasks in Ha. now rewrite Ha.
      * intros Hna. destruct (hasToolUse content (str "AskUserQuestion")) eqn:E;
          [| reflexivity].
        exfalso. apply Hna. now apply Hasks.
    + intros -> Hrecent.
      rewrite bool_decide_eq_false_2 by discriminate.
      rewrite bool_decide_eq_true_2 by reflexivity.
      destruct (Z.ltb_spec (now - mtime) (5 * time.Minute)); [reflexivity | lia].
    + intros -> Hold.
      rewrite bool_decide_eq_false_2 by discriminate.
      rewrite bool_decide_eq_true_2 by reflexivity.
      destruct (Z.ltb_spec (now - mtime) (5 * time.Minute)); [lia | reflexivity].
    + intros Hna Hnu. now rewrite !bool_decide_eq_false_2 by assumption.
Qed.

(** ** [findSessionFromIndex] *)

Context {sorting : Sort}.

Lemma newerFirst_strictWeakOrder : strictWeakOrder newerFirst.
Proof.
  unfold strictWeakOrder, newerFirst. repeat split.
  - intros a. apply Z.ltb_irrefl.
  - intros a b c H1 H2. apply Z.ltb_lt in H1, H2. apply Z.ltb_lt. lia.
  - intros a b c H1 H2. apply Z.ltb_ge in H1, H2. apply Z.ltb_ge. lia.
Qed.

(** The first entry of the sorted slice is an entry of the index, and no
    entry has a greater [fileMtime]. *)
Lemma sort_newest (entries : list sessionsIndexEntry.t) :
  entries <> [] ->
  exists entry rest,
    sort_Slice newerFirst entries = entry :: rest /\
    entry ∈ entries /\
    forall e, e ∈ entries ->
      sessionsIndexEntry.FileMtime e <= sessionsIndexEntry.FileMtime entry.
Proof.
  intros Hne.
  pose proof (sort_Slice_Permutation newerFirst entries) as Hperm.
  pose proof (sort_Slice_sorted newerFirst entries newerFirst_strictWeakOrder)
    as Hsorted.
  destruct (sort_Slice newerFirst entries) as [| entry rest].
  - apply Permutation_sym, Permutation_nil in Hperm. contradiction.
  - exists entry, rest. split; [reflexivity |]. split.
    + apply list_elem_of_In. apply (Permutation_in _ (Permutation_sym Hperm)).
      now left.
    + intros e He. apply list_elem_of_In in He.
      apply (Permutation_in _ Hperm) in He.
      apply StronglySorted_inv in Hsorted as [_ Hall].
      destruct He as [<- | He]; [lia |].
      rewrite Forall_forall in Hall. apply list_elem_of_In in He.
      apply Hall in He. unfold newerFirst in He. apply Z.ltb_ge in He. lia.
Qed.

Lemma truncatePrompt_length prompt :
  (length (truncatePrompt prompt) <= 200)%nat /\
  truncatePrompt prompt `prefix_of` prompt /\
  ((length prompt <= 200)%nat -> truncatePrompt prompt = prompt).
Proof.
  unfold truncatePrompt, maxPromptLength.
  destruct (Nat.ltb_spec 200 (length prompt)) as [Hlong | Hshort].
  - split; [rewrite length_take; lia |]. split; [apply prefix_take | lia].
  - split; [lia |]. split; [reflexivity | reflexivity].
Qed.

(** Running the requests to the file system. *)
Lemma os_ReadFile_run fs path st :
  os_ReadFile fs path st
  = (os.contents <$> os.files fs !! path,
     mkStore (metadataCache st) (accesses st ++ [ReadFile path])).
Proof. reflexivity. Qed.

Lemma os_Stat_run fs path st :
  os_Stat fs path st
  = (os.files fs !! path, mkStore (metadataCache st) (accesses st ++ [Stat path])).
Proof. reflexivity. Qed.

Lemma os_Open_run fs path st :
  os_Open fs path st
  = (os.files fs !! path, mkStore (metadataCache st) (accesses st ++ [Open path])).
Proof. reflexivity. Qed.

Lemma filepath_Glob_run fs pattern st :
  filepath_Glob fs pattern st
  = (os.Glob fs pattern, mkStore (metadataCache st) (accesses st ++ [Glob pattern])).
Proof. reflexivity. Qed.

Lemma mbind_run {A B} (m : M A) (f : A -> M B) st :
  (m ≫= f) st = f (fst (m st)) (snd (m st)).
Proof. unfold mbind, M_bind. now destruct (m st). Qed.

Lemma mret_run {A} (a : A) (st : Store) : (mret a : M A) st = (a, st).
Proof. reflexivity. Qed.

(** What [findSessionFromIndex] answers, by the state of the index. *)
Lemma findSessionFromIndex_run fs indexPath st :
  findSessionFromIndex fs indexPath st
  = (match os.contents <$> os.files fs !! indexPath with
     | None => notFound
     | Some data =>
         match Unmarshal_sessionsIndex data with
         | None => notFound
         | Some index =>
             match sort_Slice newerFirst (sessionsIndex.Entries index) with
             | [] => notFound
             | entry :: _ =>
                 if bool_decide (sessionsIndexEntry.FullPath entry = [])
                 then notFound
                 else mkLocated (sessionsIndexEntry.FullPath entry)
                        (truncatePrompt (sessionsIndexEntry.FirstPrompt entry))
                        (sessionsIndexEntry.MessageCount entry)
                        (sessionsIndexEntry.GitBranch entry) true
             end
         end
     end,
     mkStore (metadataCache st) (accesses st ++ [ReadFile indexPath])).
Proof.
  unfold findSessionFromIndex. rewrite mbind_run, os_ReadFile_run. cbn [fst snd].
  destruct (os.contents <$> os.files fs !! indexPath) as [data |]; [| reflexivity].
  destruct (Unmarshal_sessionsIndex data) as [index |]; [| reflexivity].
  destruct (bool_decide_reflect (sessionsIndex.Entries index = [])) as [E | E].
  - rewrite E.
    pose proof (sort_Slice_Permutation newerFirst []) as Hperm.
    apply Permutation_nil in Hperm. now rewrite Hperm.
  - destruct (sort_Slice newerFirst _) as [| entry rest]; [reflexivity |].
    now destruct (bool_decide (sessionsIndexEntry.FullPath entry = [])).
Qed.

(** [enrichSession] uses the index when it names a transcript and the
    directory scan when it does not. *)
Lemma enrichSession_located w session projectsDir cwd now st :
  let fs := fileSystem w in
  let projectDir := filepath.Join [projectsDir; EncodePath cwd] in
  let indexPath := filepath.Join [projectDir; str "sessions-index.json"] in
  let located := fst (findSessionFromIndex fs indexPath st) in
  let st1 := snd (findSessionFromIndex fs indexPath st) in
  enrichSession w session projectsDir cwd now st
  = if found located
    then enrichLocated w (setState session StateIdle) cwd now located st1
    else (located' ← findSessionFallback fs projectDir;
          enrichLocated w (setState session StateIdle) cwd now located') st1.
Proof.
  intros fs projectDir indexPath located st1.
  unfold enrichSession. fold fs projectDir indexPath.
  rewrite mbind_run. fold located st1.
  destruct (found located); cbn [negb]; [| reflexivity].
  now rewrite mbind_run, mret_run.
Qed.

(** C7.  When the index file exists, parses and holds at least one entry,
    [findSessionFromIndex] sorts the entries by [fileMtime], greatest
    first, and selects the first: an entry of the index whose [fileMtime]
    no other entry exceeds.  It returns that entry's path, message count
    and branch, and its [firstPrompt] cut to its first 200 bytes (so at
    most 200 characters), which is what all later processing sees.  An
    index that is missing, does not parse or is empty, or whose selected
    entry has an empty [fullPath], is reported as not found, and
    [enrichSession] then runs the directory scan instead. *)
Theorem findSessionFromIndex_newest (w : World) (session : Session.t)
  (projectsDir cwd : gostring) (now : time.Time) (st : Store) :
  let fs := fileSystem w in
  let projectDir := filepath.Join [projectsDir; EncodePath cwd] in
  let indexPath := filepath.Join [projectDir; str "sessions-index.json"] in
  let located := fst (findSessionFromIndex fs indexPath st) in
  let st1 := snd (findSessionFromIndex fs indexPath st) in
  (forall file index,
     os.files fs !! indexPath = Some file ->
     Unmarshal_sessionsIndex (os.contents file) = Some index ->
     sessionsIndex.Entries index <> [] ->
     exists entry rest,
       sort_Slice newerFirst (sessionsIndex.Entries index) = entry :: rest /\
       entry ∈ sessionsIndex.Entries index /\
       (forall e, e ∈ sessionsIndex.Entries index ->
          sessionsIndexEntry.FileMtime e <= sessionsIndexEntry.FileMtime entry) /\
       (sessionsIndexEntry.FullPath entry <> [] ->
          located = mkLocated (sessionsIndexEntry.FullPath entry)
                      (truncatePrompt (sessionsIndexEntry.FirstPrompt entry))
                      (sessionsIndexEntry.MessageCount entry)
                      (sessionsIndexEntry.GitBranch entry) true /\
          (length (firstPrompt located) <= 200)%nat /\
          firstPrompt located `prefix_of` sessionsIndexEntry.FirstPrompt entry /\
          ((length (sessionsIndexEntry.FirstPrompt entry) <= 200)%nat ->
             firstPrompt located = sessionsIndexEntry.FirstPrompt entry)) /\
       (sessionsIndexEntry.FullPath entry = [] -> found located = false)) /\
  (os.files fs !! indexPath = None -> found located = false) /\
  (forall file,
     os.files fs !! indexPath = Some file ->
     Unmarshal_sessionsIndex (os.contents file) = None ->
     found located = false) /\
  (forall file index,
     os.files fs !! indexPath = Some file ->
     Unmarshal_sessionsIndex (os.contents file) = Some index ->
     sessionsIndex.Entries index = [] ->
     found located = false) /\
  (found located = false ->
     enrichSession w session projectsDir cwd now st
     = (located' ← findSessionFallback fs projectDir;
        enrichLocated w (setState session StateIdle) cwd now located') st1) /\
  (found located = true ->
     enrichSession w session projectsDir cwd now st
     = enrichLocated w (setState session StateIdle) cwd now located st1).
Proof.
  intros fs projectDir indexPath located st1.
  assert (Hloc : located = fst (findSessionFromIndex fs indexPath st)) by reflexivity.
  rewrite findSessionFromIndex_run in Hloc. cbn [fst] in Hloc.
  pose proof (enrichSession_located w session projectsDir cwd now st) as Henrich.
  cbv zeta in Henrich. fold fs projectDir indexPath located st1 in Henrich.
  clearbody located st1.
  split; [| split; [| split; [| split; [| split]]]].
  - intros file index Hfile Hindex Hne.
    rewrite Hfile in Hloc. cbn [fmap option_fmap option_map] in Hloc.
    rewrite Hindex in Hloc.
    destruct (sort_newest _ Hne) as (entry & rest & Hsort & Hin & Hmax).
    rewrite Hsort in Hloc. exists entry, rest.
    split; [assumption |]. split; [assumption |]. split; [assumption |].
    split.
    + intros Hpath. rewrite bool_decide_eq_false_2 in Hloc by assumption.
      split; [assumption |]. rewrite Hloc. cbn [firstPrompt].
      apply truncatePrompt_length.
    + intros Hpath. rewrite bool_decide_eq_true_2 in Hloc by assumption.
      now rewrite Hloc.
  - intros Hfile. rewrite Hfile in Hloc. now rewrite Hloc.
  - intros file Hfile Hindex. rewrite Hfile in Hloc.
    cbn [fmap option_fmap option_map] in Hloc. rewrite Hindex in Hloc.
    now rewrite Hloc.
  - intros file index Hfile Hindex Hnil. rewrite Hfile in Hloc.
    cbn [fmap option_fmap option_map] in Hloc. rewrite Hindex, Hnil in Hloc.
    pose proof (sort_Slice_Permutation newerFirst []) as Hperm.
    apply Permutation_nil in Hperm. rewrite Hperm in Hloc. now rewrite Hloc.
  - intros Hfound. now rewrite Henrich, Hfound.
  - intros Hfound. now rewrite Henrich, Hfound.
Qed.

(** ** The metadata cache *)

Lemma cacheFixed_ret {A} (a : A) : cacheFixed (mret a).
Proof. intros st. reflexivity. Qed.

Lemma cacheFixed_bind {A B} (m : M A) (f : A -> M B) :
  cacheFixed m -> (forall a, cacheFixed (f a)) -> cacheFixed (m ≫= f).
Proof.
  intros Hm Hf st. rewrite mbind_run. now rewrite Hf, Hm.
Qed.

Lemma cacheFixed_access a : cacheFixed (access a).
Proof. intros st. reflexivity. Qed.

Lemma cacheFixed_Open fs path : cacheFixed (os_Open fs path).
Proof. intros st. reflexivity. Qed.

Lemma cacheFixed_ReadFile fs path : cacheFixed (os_ReadFile fs path).
Proof. intros st. reflexivity. Qed.

Lemma cacheFixed_Stat fs path : cacheFixed (os_Stat fs path).
Proof. intros st. reflexivity. Qed.

Lemma cacheFixed_Glob fs pattern : cacheFixed (filepath_Glob fs pattern).
Proof. intros st. reflexivity. Qed.

Lemma cacheFixed_cacheLookup key : cacheFixed (cacheLookup key).
Proof. intros st. reflexivity. Qed.

Lemma cacheFixed_foldM {A B} (f : B -> A -> M B) (l : list A) (b : B) :
  (forall b a, cacheFixed (f b a)) -> cacheFixed (foldM f l b).
Proof.
  intros Hf. revert b. induction l as [| a l IH]; intros b; cbn [foldM].
  - apply cacheFixed_ret.
  - apply cacheFixed_bind; [apply Hf | assumption].
Qed.

Ltac cache_fixed :=
  repeat first
    [ apply cacheFixed_ret
    | apply cacheFixed_Open | apply cacheFixed_ReadFile | apply cacheFixed_Stat
    | apply cacheFixed_Glob | apply cacheFixed_cacheLookup | apply cacheFixed_access
    | assumption
    | apply cacheFixed_bind; [| intros ?]
    | apply cacheFixed_foldM; intros ? ?
    | match goal with
      | |- cacheFixed (match ?x with _ => _ end) => destruct x
      end ].

Lemma cacheFixed_ReadLastLine fs path : cacheFixed (ReadLastLine fs path).
Proof. unfold ReadLastLine. cache_fixed. Qed.

Lemma cacheFixed_DetectState fs path mtime now :
  cacheFixed (DetectState fs path mtime now).
Proof.
  pose proof (cacheFixed_ReadLastLine fs path).
  unfold DetectState. cache_fixed.
Qed.

Lemma cacheFixed_extractFirstPrompt fs path : cacheFixed (extractFirstPrompt fs path).
Proof. unfold extractFirstPrompt. cache_fixed. Qed.

Lemma cacheFixed_countLines fs path : cacheFixed (countLines fs path).
Proof. unfold countLines. cache_fixed. Qed.

Lemma cacheFixed_findSessionFromIndex fs path :
  cacheFixed (findSessionFromIndex fs path).
Proof. unfold findSessionFromIndex. cache_fixed. Qed.

Lemma cacheFixed_findSessionFallback fs dir :
  cacheFixed (findSessionFallback fs dir).
Proof.
  unfold findSessionFallback.
  apply cacheFixed_bind; [apply cacheFixed_Glob | intros matches].
  destruct matches as [[| m ms] |]; try apply cacheFixed_ret.
  apply cacheFixed_bind.
  - apply cacheFixed_foldM. intros [p t] a. unfold newestFile. cache_fixed.
  - intros [newestPath ?].
    destruct (bool_decide (newestPath = [])); [apply cacheFixed_ret |].
    apply cacheFixed_bind; [apply cacheFixed_extractFirstPrompt | intros fp].
    apply cacheFixed_bind; [apply cacheFixed_countLines | intros mc].
    apply cacheFixed_bind; [apply cacheFixed_ReadLastLine | intros ll].
    destruct (bool_decide (ll = [])); [apply cacheFixed_ret |].
    destruct (Unmarshal_jsonlLine ll); apply cacheFixed_ret.
Qed.

Lemma cacheFixed_fallbackTopic fs path topic :
  cacheFixed (fallbackTopic fs path topic).
Proof.
  pose proof (cacheFixed_ReadLastLine fs path).
  unfold fallbackTopic. cache_fixed.
Qed.

Lemma cacheFixed_discoverIDESessions w claudeDir entries cwdMap :
  cacheFixed (discoverIDESessions w claudeDir entries cwdMap).
Proof.
  unfold discoverIDESessions.
  apply cacheFixed_bind; [apply cacheFixed_Glob | intros lockFiles].
  destruct lockFiles as [[| l ls] |]; try apply cacheFixed_ret.
  apply cacheFixed_foldM. intros sessions path. unfold ideLock. cache_fixed.
Qed.

(** What a computation returns does not depend on the store it runs in. *)
Lemma ReadLastLine_value fs path st st' :
  fst (ReadLastLine fs path st) = fst (ReadLastLine fs path st').
Proof. now rewrite !ReadLastLine_run. Qed.

Lemma DetectState_value fs path mtime now st st' :
  fst (DetectState fs path mtime now st) = fst (DetectState fs path mtime now st').
Proof.
  unfold DetectState.
  destruct (time.Sub now mtime <? activeRecentThreshold); [reflexivity |].
  rewrite !mbind_run, (ReadLastLine_value fs path st st').
  destruct (bool_decide _); [reflexivity |].
  destruct (Unmarshal_jsonlLine _); [| reflexivity].
  repeat match goal with |- context [if ?b then _ else _] => destruct b end;
    reflexivity.
Qed.

Lemma DetectState_accesses fs path mtime now st :
  accesses (snd (DetectState fs path mtime now st))
  = accesses st
    ++ (if time.Sub now mtime <? activeRecentThreshold then [] else [Open path]).
Proof.
  unfold DetectState.
  destruct (time.Sub now mtime <? activeRecentThreshold).
  { cbn. now rewrite app_nil_r. }
  rewrite mbind_run, ReadLastLine_run. cbn [fst snd].
  destruct (bool_decide _); [reflexivity |].
  destruct (Unmarshal_jsonlLine _); [| reflexivity].
  repeat match goal with |- context [if ?b then _ else _] => destruct b end;
    reflexivity.
Qed.

Lemma fallbackTopic_value fs path topic st st' :
  fst (fallbackTopic fs path topic st) = fst (fallbackTopic fs path topic st').
Proof.
  unfold fallbackTopic.
  destruct (negb (bool_decide (topic = []))); [reflexivity |].
  rewrite !mbind_run, (ReadLastLine_value fs path st st').
  destruct (bool_decide _); [reflexivity |].
  destruct (Unmarshal_jsonlLine _); [| reflexivity].
  repeat match goal with |- context [if ?b then _ else _] => destruct b end;
    reflexivity.
Qed.

(** A cache hit. *)
Lemma enrichLocated_hit w session cwd now located st info cached :
  found located = true ->
  os.files (fileSystem w) !! fullPath located = Some info ->
  metadataCache st !! cacheKeyOf w cwd (os.ModTime info) = Some cached ->
  enrichLocated w session cwd now located st
  = (setMetadata session (cachedMetadata.Topic cached)
       (cachedMetadata.Messages cached) (cachedMetadata.Branch cached)
       (fst (DetectState (fileSystem w) (cachedMetadata.FullPath cached)
               (os.ModTime info) now st)),
     mkStore (metadataCache st)
       (accesses st ++ [Stat (fullPath located)]
        ++ (if time.Sub now (os.ModTime info) <? activeRecentThreshold then []
            else [Open (cachedMetadata.FullPath cached)]))).
Proof.
  intros Hfound Hinfo Hcached. unfold enrichLocated.
  rewrite Hfound. cbn [negb].
  rewrite mbind_run, os_Stat_run, Hinfo. cbn [fst snd].
  rewrite mbind_run. unfold cacheLookup at 1 2. cbn [fst snd metadataCache].
  rewrite Hcached. rewrite mbind_run, mret_run.
  set (st1 := mkStore _ _).
  rewrite (DetectState_value _ _ _ _ st1 st). f_equal.
  pose proof (cacheFixed_DetectState (fileSystem w)
                (cachedMetadata.FullPath cached) (os.ModTime info) now st1) as Hc.
  pose proof (DetectState_accesses (fileSystem w)
                (cachedMetadata.FullPath cached) (os.ModTime info) now st1) as Ha.
  destruct (snd (DetectState _ _ _ _ st1)) as [c a]. cbn in Hc, Ha.
  subst c a. unfold st1. cbn [accesses]. now rewrite <- app_assoc.
Qed.

(** A cache miss. *)
Lemma enrichLocated_miss w session cwd now located st info :
  found located = true ->
  os.files (fileSystem w) !! fullPath located = Some info ->
  metadataCache st !! cacheKeyOf w cwd (os.ModTime info) = None ->
  let topic :=
    fst (fallbackTopic (fileSystem w) (fullPath located)
           (CleanTopic (firstPrompt located)) st) in
  exists requests,
    enrichLocated w session cwd now located st
    = (setMetadata session topic (messageCount located) (gitBranch located)
         (fst (DetectState (fileSystem w) (fullPath located) (os.ModTime info)
                 now st)),
       mkStore
         (<[cacheKeyOf w cwd (os.ModTime info) :=
              cachedMetadata.mk (fullPath located) topic (messageCount located)
                (gitBranch located)]> (metadataCache st))
         requests).
Proof.
  intros Hfound Hinfo Hmiss topic. unfold enrichLocated.
  rewrite Hfound. cbn [negb].
  rewrite mbind_run, os_Stat_run, Hinfo. cbn [fst snd].
  rewrite mbind_run. unfold cacheLookup. cbn [fst snd metadataCache].
  rewrite Hmiss.
  set (st1 := mkStore _ _).
  rewrite !mbind_run, mret_run. cbn [fst snd].
  rewrite (fallbackTopic_value _ _ _ st1 st). fold topic.
  rewrite (DetectState_value _ _ _ _ _ st).
  unfold cacheStore. cbn [snd metadataCache].
  rewrite cacheFixed_DetectState, cacheFixed_fallbackTopic.
  eexists. reflexivity.
Qed.

Lemma cacheGrows_fixed {A} (m : M A) : cacheFixed m -> cacheGrows m.
Proof. intros H st. now rewrite H. Qed.

Lemma cacheGrows_bind {A B} (m : M A) (f : A -> M B) :
  cacheGrows m -> (forall a, cacheGrows (f a)) -> cacheGrows (m ≫= f).
Proof.
  intros Hm Hf st. rewrite mbind_run.
  etransitivity; [apply Hm | apply Hf].
Qed.

Lemma cacheGrows_enrichLocated w session cwd now located :
  cacheGrows (enrichLocated w session cwd now located).
Proof.
  intros st.
  destruct (found located) eqn:Hfound.
  2:{ unfold enrichLocated. now rewrite Hfound. }
  destruct (os.files (fileSystem w) !! fullPath located) as [info |] eqn:Hinfo.
  2:{ unfold enrichLocated. rewrite Hfound. cbn [negb].
      now rewrite mbind_run, os_Stat_run, Hinfo. }
  destruct (metadataCache st !! cacheKeyOf w cwd (os.ModTime info))
    as [cached |] eqn:Hkey.
  - now rewrite (enrichLocated_hit _ _ _ _ _ _ _ _ Hfound Hinfo Hkey).
  - destruct (enrichLocated_miss w session cwd now located st info Hfound Hinfo Hkey)
      as [requests ->].
    cbn [snd metadataCache]. now apply insert_subseteq.
Qed.

Lemma cacheGrows_enrichSession w session projectsDir cwd now :
  cacheGrows (enrichSession w session projectsDir cwd now).
Proof.
  unfold enrichSession.
  apply cacheGrows_bind.
  { apply cacheGrows_fixed, cacheFixed_findSessionFromIndex. }
  intros located. apply cacheGrows_bind.
  - destruct (negb (found located)); apply cacheGrows_fixed.
    + apply cacheFixed_findSessionFallback.
    + apply cacheFixed_ret.
  - intros located'. apply cacheGrows_enrichLocated.
Qed.

Lemma cacheGrows_enrichEach w projectsDir now sessions :
  cacheGrows (enrichEach w projectsDir now sessions).
Proof.
  induction sessions as [| session rest IH]; cbn [enrichEach].
  - apply cacheGrows_fixed, cacheFixed_ret.
  - apply cacheGrows_bind; [apply cacheGrows_enrichSession | intros s'].
    apply cacheGrows_bind; [assumption | intros r'].
    apply cacheGrows_fixed, cacheFixed_ret.
Qed.

Lemma cacheGrows_DiscoverAll w : cacheGrows (DiscoverAll w).
Proof.
  unfold DiscoverAll.
  destruct (bool_decide _); [apply cacheGrows_fixed, cacheFixed_ret |].
  apply cacheGrows_bind.
  { apply cacheGrows_fixed, cacheFixed_discoverIDESessions. }
  intros ideSessions.
  destruct (fold_left claimIDE ideSessions _) as [sessions seenCWDs].
  destruct (discoverCLISessions _ _ _) as [cliSessions ?].
  apply cacheGrows_enrichEach.
Qed.

Lemma cacheGrows_passes ws : cacheGrows (passes ws).
Proof.
  induction ws as [| w ws IH]; cbn [passes].
  - apply cacheGrows_fixed, cacheFixed_ret.
  - apply cacheGrows_bind; [apply cacheGrows_DiscoverAll | intros _; assumption].
Qed.

Lemma extractFirstPrompt_run fs path st :
  extractFirstPrompt fs path st
  = (match os.files fs !! path with
     | None => []
     | Some file =>
         firstPromptOf
           (take maxLinesToScanPrompt
              (bufio.ScanLines maxScannerBufferBytes (os.contents file)))
     end,
     mkStore (metadataCache st) (accesses st ++ [Open path])).
Proof.
  unfold extractFirstPrompt. rewrite mbind_run, os_Open_run. cbn [fst snd].
  now destruct (os.files fs !! path).
Qed.

Lemma countLines_run fs path st :
  countLines fs path st
  = (match os.files fs !! path with
     | None => 0
     | Some file =>
         Z.of_nat (length (bufio.ScanLines maxScannerBufferBytes (os.contents file)))
     end,
     mkStore (metadataCache st) (accesses st ++ [Open path])).
Proof.
  unfold countLines. rewrite mbind_run, os_Open_run. cbn [fst snd].
  now destruct (os.files fs !! path).
Qed.

Lemma foldM_newestFile fs matches b st :
  foldM (newestFile fs) matches b st
  = (fold_left (newestStep fs) matches b,
     mkStore (metadataCache st) (accesses st ++ map Stat matches)).
Proof.
  revert b st. induction matches as [| p matches IH]; intros b st;
    cbn [foldM fold_left map].
  - rewrite mret_run, app_nil_r. now destruct st.
  - rewrite mbind_run, IH. f_equal.
    + f_equal. unfold newestFile, newestStep. destruct b as [np nt].
      rewrite mbind_run, os_Stat_run. cbn [fst snd].
      destruct (os.files fs !! p) as [info |]; [| reflexivity].
      now destruct (_ || _).
    + unfold newestFile. destruct b as [np nt].
      rewrite mbind_run, os_Stat_run. cbn [fst snd].
      destruct (os.files fs !! p) as [info |].
      * destruct (_ || _); rewrite mret_run; cbn [snd metadataCache accesses];
          now rewrite <- app_assoc.
      * rewrite mret_run. cbn [snd metadataCache accesses].
        now rewrite <- app_assoc.
Qed.

(** What [findSessionFallback] asks of the file system: the matches, each
    match once, and, when it finds a transcript, the transcript three
    times: for the first prompt, for the count of lines and for the last
    line. *)
Lemma findSessionFallback_accesses fs projectDir st :
  let pattern := filepath.Join [projectDir; str "*.jsonl"] in
  let matches := default [] (os.Glob fs pattern) in
  let located := fst (findSessionFallback fs projectDir st) in
  accesses (snd (findSessionFallback fs projectDir st))
  = accesses st ++ Glob pattern :: map Stat matches
    ++ (if found located then replicate 3 (Open (fullPath located)) else []).
Proof.
  intros pattern matches located. unfold located, matches.
  unfold findSessionFallback. fold pattern.
  rewrite mbind_run, filepath_Glob_run. cbn [fst snd].
  destruct (os.Glob fs pattern) as [[| p ps] |]; cbn [default];
    try (rewrite mret_run; reflexivity).
  rewrite mbind_run, foldM_newestFile. cbn [fst snd].
  destruct (fold_left _ _ _) as [np nt].
  destruct (bool_decide (np = [])).
  { rewrite mret_run. cbn [fst snd accesses found].
    now rewrite app_nil_r, <- app_assoc. }
  rewrite !mbind_run, extractFirstPrompt_run. cbn [fst snd].
  rewrite countLines_run. cbn [fst snd].
  rewrite ReadLastLine_run. cbn [fst snd].
  match goal with
  | |- context [let '(_, _) := ?x in _] => destruct x as [branch prompt]
  end.
  rewrite mret_run. cbn [fst snd accesses found fullPath replicate].
  rewrite <- !app_assoc. reflexivity.
Qed.

(** C3 (as amended).  [enrichSession] locates the transcript and looks
    the key built from the working directory and the transcript's mtime up
    in the cache.  When the entry is found, Topic, Messages and Branch are
    the cached values, verbatim; from the lookup on, the only request to
    the file system is the one [DetectState] makes to recompute State from
    the current time (none at all for a transcript younger than 30
    seconds); the cache is left as it is.  What has been read before the
    lookup depends on how the transcript was located, not on the cache:
    where the index has located it, nothing but the index; where the
    index has not, the index, the matches of the directory scan, each
    match once, and the transcript the scan has found three times, for
    its first prompt, its count of lines and its last line, on a hit as
    on a miss.  When no entry is found, the topic is computed from the
    first prompt the matcher has just read (cleaned, with the slug or
    session id as a fallback), the message count and the branch are the
    matcher's, State is computed in the same way, and these values are
    stored under the key.  An entry of the cache is never modified or
    removed: not by [enrichSession], not by a whole pass, not by any
    number of passes that run one after the other.  (The cache is a map
    without a lock: passes that overlap in time are outside what the
    program defines, and outside this statement.) *)
Theorem enrichSession_cache (w : World) (session : Session.t)
  (projectsDir cwd : gostring) (now : time.Time) (st : Store) :
  let fs := fileSystem w in
  let projectDir := filepath.Join [projectsDir; EncodePath cwd] in
  let indexPath := filepath.Join [projectDir; str "sessions-index.json"] in
  let locate : M Located :=
    located ← findSessionFromIndex fs indexPath;
    if negb (found located) then findSessionFallback fs projectDir
    else mret located in
  let located := fst (locate st) in
  let st1 := snd (locate st) in
  let result := enrichSession w session projectsDir cwd now st in
  metadataCache st1 = metadataCache st /\
  (found (fst (findSessionFromIndex fs indexPath st)) = true ->
     accesses st1 = accesses st ++ [ReadFile indexPath]) /\
  (found (fst (findSessionFromIndex fs indexPath st)) = false ->
     let pattern := filepath.Join [projectDir; str "*.jsonl"] in
     let transcript := fullPath located in
     accesses st1
     = accesses st ++ ReadFile indexPath :: Glob pattern
         :: map Stat (default [] (os.Glob fs pattern))
         ++ (if found located
             then [Open transcript; Open transcript; Open transcript]
             else [])) /\
  (forall info,
     found located = true -> os.files fs !! fullPath located = Some info ->
     let mtime := os.ModTime info in
     let key := cacheKeyOf w cwd mtime in
     (forall cached,
        metadataCache st !! key = Some cached ->
        Session.Topic (fst result) = cachedMetadata.Topic cached /\
        Session.Messages (fst result) = cachedMetadata.Messages cached /\
        Session.Branch (fst result) = cachedMetadata.Branch cached /\
        Session.State (fst result)
        = fst (DetectState fs (cachedMetadata.FullPath cached) mtime now st) /\
        metadataCache (snd result) = metadataCache st /\
        accesses (snd result)
        = accesses st1 ++ [Stat (fullPath located)]
          ++ (if now - mtime <? 30 * time.Second then []
              else [Open (cachedMetadata.FullPath cached)])) /\
     (metadataCache st !! key = None ->
        let topic :=
          fst (fallbackTopic fs (fullPath located)
                 (CleanTopic (firstPrompt located)) st) in
        Session.Topic (fst result) = topic /\
        Session.Messages (fst result) = messageCount located /\
        Session.Branch (fst result) = gitBranch located /\
        Session.State (fst result)
        = fst (DetectState fs (fullPath located) mtime now st) /\
        metadataCache (snd result)
        = <[key := cachedMetadata.mk (fullPath located) topic
                     (messageCount located) (gitBranch located)]>
            (metadataCache st))) /\
  (forall key value,
     metadataCache st !! key = Some value ->
     metadataCache (snd result) !! key = Some value) /\
  (forall (ws : list World) (st0 : Store) key value,
     metadataCache st0 !! key = Some value ->
     metadataCache (snd (passes ws st0)) !! key = Some value).
Proof.
  intros fs projectDir indexPath locate located st1 result.
  assert (Hst1 : metadataCache st1 = metadataCache st).
  { unfold st1, locate. apply cacheFixed_bind.
    - apply cacheFixed_findSessionFromIndex.
    - intros l. destruct (negb (found l)).
      + apply cacheFixed_findSessionFallback.
      + apply cacheFixed_ret. }
  assert (Hres : result = enrichLocated w (setState session StateIdle) cwd now
                            located st1).
  { unfold result, enrichSession. fold fs projectDir indexPath.
    rewrite mbind_run. unfold located, st1, locate.
    rewrite (mbind_run (findSessionFromIndex fs indexPath)).
    now rewrite mbind_run. }
  split; [exact Hst1 |]. split; [| split; [| split; [| split]]].
  - intros Hindex. unfold st1, locate. rewrite mbind_run, Hindex. cbn [negb].
    rewrite mret_run. cbn [snd]. now rewrite findSessionFromIndex_run.
  - intros Hindex pattern transcript.
    unfold transcript, located, st1, locate. rewrite !mbind_run, Hindex.
    cbn [negb]. rewrite findSessionFallback_accesses. fold pattern.
    rewrite findSessionFromIndex_run. cbn [snd accesses replicate].
    now rewrite <- app_assoc.
  - intros info Hfound Hinfo mtime key. split.
    + intros cached Hkey. rewrite <- Hst1 in Hkey.
      rewrite Hres, (enrichLocated_hit _ _ _ _ _ _ _ _ Hfound Hinfo Hkey).
      cbn [fst snd metadataCache accesses Session.Topic Session.Messages
             Session.Branch Session.State setMetadata].
      rewrite (DetectState_value _ _ _ _ st1 st).
      rewrite time_Sub_ltb by (vm_compute; split; [reflexivity | discriminate]).
      repeat split; auto.
    + intros Hkey topic. rewrite <- Hst1 in Hkey.
      destruct (enrichLocated_miss w (setState session StateIdle) cwd now located
                  st1 info Hfound Hinfo Hkey) as [requests Hmiss].
      rewrite Hres, Hmiss.
      cbn [fst snd metadataCache Session.Topic Session.Messages Session.Branch
             Session.State setMetadata].
      rewrite (DetectState_value _ _ _ _ st1 st).
      rewrite (fallbackTopic_value _ _ _ st1 st). fold topic.
      rewrite Hst1. repeat split; auto.
  - intros key value Hkey.
    pose proof (cacheGrows_enrichSession w session projectsDir cwd now st) as Hg.
    now apply (lookup_weaken _ _ _ _ Hkey Hg).
  - intros ws st0 key value Hkey.
    now apply (lookup_weaken _ _ _ _ Hkey (cacheGrows_passes ws st0)).
Qed.

Lemma fold_left_invariant {A B} (P : B -> Prop) (f : B -> A -> B) l b :
  P b -> (forall b a, a ∈ l -> P b -> P (f b a)) -> P (fold_left f l b).
Proof.
  revert b. induction l as [| a l IH]; intros b Hb Hf; cbn [fold_left].
  - exact Hb.
  - apply IH.
    + apply Hf; [left | exact Hb].
    + intros b' a' Hin. apply Hf. now right.
Qed.

Lemma foldM_invariant {A B} (P : B -> Prop) (f : B -> A -> M B) l b st :
  P b -> (forall b a st, P b -> P (fst (f b a st))) -> P (fst (foldM f l b st)).
Proof.
  revert b st. induction l as [| a l IH]; intros b st Hb Hf; cbn [foldM].
  - exact Hb.
  - rewrite mbind_run. apply IH; auto.
Qed.

Lemma seen_empty c : seen ∅ c = false.
Proof. unfold seen. now rewrite lookup_empty. Qed.

Lemma seen_insert m c c' :
  seen (<[c := true]> m) c' = true <-> c' = c \/ seen m c' = true.
Proof.
  unfold seen. destruct (decide (c = c')) as [-> | Hne].
  - rewrite lookup_insert_eq. cbn. tauto.
  - rewrite lookup_insert_ne by exact Hne. split; [tauto |].
    intros [-> | H]; [congruence | exact H].
Qed.

Lemma enriched_refl s : enriched s s.
Proof. exists (Session.Topic s), (Session.Messages s), (Session.Branch s), (Session.State s). now destruct s. Qed.

Lemma enriched_trans s1 s2 s3 : enriched s1 s2 -> enriched s2 s3 -> enriched s1 s3.
Proof.
  intros (t & m & b & e & ->) (t' & m' & b' & e' & ->).
  now exists t', m', b', e'.
Qed.

Lemma enriched_keeps s s' :
  enriched s s' ->
  Session.PID s' = Session.PID s /\ Session.CWD s' = Session.CWD s /\
  Session.Source s' = Session.Source s /\ Session.Project s' = Session.Project s /\
  Session.Duration s' = Session.Duration s.
Proof. now intros (t & m & b & e & ->). Qed.

Lemma enrichLocated_enriched w session cwd now located st :
  enriched session (fst (enrichLocated w session cwd now located st)).
Proof.
  unfold enrichLocated.
  destruct (found located); cbn [negb]; [| apply enriched_refl].
  rewrite mbind_run, os_Stat_run. cbn [fst snd].
  destruct (os.files (fileSystem w) !! fullPath located) as [info |];
    [| apply enriched_refl].
  rewrite mbind_run. unfold cacheLookup at 1 2. cbn [fst snd].
  match goal with |- context [match ?x with _ => _ end] => destruct x end.
  - rewrite mbind_run, mret_run. cbn [fst]. now eexists _, _, _, _.
  - rewrite !mbind_run, mret_run. cbn [fst]. now eexists _, _, _, _.
Qed.

Lemma enrichSession_enriched w session projectsDir cwd now st :
  enriched session (fst (enrichSession w session projectsDir cwd now st)).
Proof.
  apply enriched_trans with (setState session StateIdle).
  - unfold setState. now eexists _, _, _, _.
  - rewrite enrichSession_located. cbv zeta.
    destruct (found _).
    + apply enrichLocated_enriched.
    + rewrite mbind_run. apply enrichLocated_enriched.
Qed.

Lemma enrichEach_enriched w projectsDir now sessions st :
  Forall2 enriched sessions (fst (enrichEach w projectsDir now sessions st)).
Proof.
  revert st. induction sessions as [| s rest IH]; intros st; cbn [enrichEach].
  - constructor.
  - rewrite !mbind_run, mret_run. cbn [fst]. constructor.
    + apply enrichSession_enriched.
    + apply IH.
Qed.

Lemma enriched_filter_CWD c l l' :
  Forall2 enriched l l' ->
  Forall2 enriched (filter (fun s => Session.CWD s = c) l)
                   (filter (fun s => Session.CWD s = c) l').
Proof.
  induction 1 as [| s s' l l' Hs _ IH]; [constructor |].
  rewrite !filter_cons.
  destruct (enriched_keeps _ _ Hs) as (_ & Hc & _). rewrite Hc.
  destruct (decide (Session.CWD s = c)); [constructor |]; assumption.
Qed.

Lemma enriched_CWDs l l' :
  Forall2 enriched l l' -> map Session.CWD l' = map Session.CWD l.
Proof.
  induction 1 as [| s s' l l' Hs _ IH]; [reflexivity |].
  cbn. destruct (enriched_keeps _ _ Hs) as (_ & Hc & _). now rewrite Hc, IH.
Qed.

(** The first loop of [DiscoverAll]. *)
Lemma fold_claimIDE ide acc seen0 :
  exists seenCWDs,
    fold_left claimIDE ide (acc, seen0) = (acc ++ ide, seenCWDs) /\
    forall c, seen seenCWDs c = true
              <-> seen seen0 c = true \/ c ∈ map Session.CWD ide.
Proof.
  revert acc seen0. induction ide as [| s ide IH]; intros acc seen0.
  - exists seen0. cbn. rewrite app_nil_r. split; [reflexivity |].
    intros c. rewrite elem_of_nil. tauto.
  - cbn [fold_left claimIDE].
    destruct (IH (acc ++ [s]) (<[Session.CWD s := true]> seen0))
      as (seenCWDs & -> & Hseen).
    exists seenCWDs. rewrite <- app_assoc. split; [reflexivity |].
    intros c. rewrite Hseen, seen_insert. cbn [map]. rewrite elem_of_cons.
    tauto.
Qed.

(** The sessions of [discoverCLISessions]: each from a process with a
    terminal, none for a directory of the seen-set, no two for one
    directory. *)
Lemma discoverCLISessions_sessions entries cwdMap seen0 :
  let cli := fst (discoverCLISessions entries cwdMap seen0) in
  Forall (fun s => fromTerminal entries cwdMap s /\
                   seen seen0 (Session.CWD s) = false) cli /\
  NoDup (map Session.CWD cli).
Proof.
  cbv zeta. unfold discoverCLISessions.
  set (P := fun st : list Session.t * gmap gostring bool =>
              (Forall (fun s => fromTerminal entries cwdMap s /\
                                seen seen0 (Session.CWD s) = false /\
                                seen st.2 (Session.CWD s) = true) st.1 /\
               NoDup (map Session.CWD st.1)) /\
              forall c, seen seen0 c = true -> seen st.2 c = true).
  assert (HP : P (fold_left (cliCandidate cwdMap) entries ([], seen0))).
  { apply fold_left_invariant.
    - repeat split; [constructor | constructor | auto].
    - intros [sessions seenCWDs] entry Hin [[Hall Hnd] Hmono].
      cbn [fst snd] in Hall, Hnd, Hmono. unfold cliCandidate.
      case_bool_decide as Htty; [now repeat split |].
      destruct (strings.Fields (psEntry.Command entry)) as [| command rest]
        eqn:Hfields; [now repeat split |].
      case_bool_decide as Hbase; cbn [negb]; [| now repeat split].
      destruct (cwdMap !! psEntry.PID entry) as [cwd |] eqn:Hcwd;
        [| now repeat split].
      case_bool_decide as Hempty; [now repeat split |].
      destruct (seen seenCWDs cwd) eqn:Hseen; [now repeat split |].
      unfold P. cbn [fst snd]. split; [split |].
      + apply Forall_app. split.
        * eapply Forall_impl; [exact Hall |].
          intros s (Hs1 & Hs2 & Hs3). repeat split; try assumption.
          apply seen_insert. now right.
        * constructor; [| constructor]. cbn [newSession Session.CWD].
          split; [| split].
          -- exists entry, command, rest. now repeat split.
          -- destruct (seen seen0 cwd) eqn:H0; [| reflexivity].
             apply Hmono in H0. congruence.
          -- apply seen_insert. now left.
      + rewrite map_app. cbn [map newSession Session.CWD].
        apply NoDup_app. split; [exact Hnd | split].
        * intros c Hc Hs. apply list_elem_of_singleton in Hs. subst c.
          apply list_elem_of_fmap in Hc. destruct Hc as (s & Hs & Hin').
          rewrite Forall_forall in Hall.
          destruct (Hall s Hin') as (_ & _ & H3). congruence.
        * apply NoDup_singleton.
      + intros c Hc. apply seen_insert. right. auto. }
  destruct HP as [[Hall Hnd] _]. split; [| exact Hnd].
  eapply Forall_impl; [exact Hall |]. now intros s (? & ? & ?).
Qed.

(** The short name of an IDE is [CLI] only if its full name is. *)
Lemma shortenIDEName_not_CLI fullName :
  fullName <> str "CLI" -> shortenIDEName fullName <> str "CLI".
Proof.
  intros Hname. unfold shortenIDEName.
  destruct (strings.Contains fullName (str "Visual Studio Code"));
    [discriminate |].
  destruct (strings.Contains fullName (str "Cursor")); [discriminate |].
  case_bool_decide; [discriminate | exact Hname].
Qed.

(** The sessions of [discoverIDESessions]: one per lock file that yields
    one, each as [fromLock] describes. *)
Lemma ideLock_sessions w entries cwdMap sessions path st :
  Forall (fromLock w entries cwdMap) sessions ->
  Forall (fromLock w entries cwdMap) (fst (ideLock w entries cwdMap sessions path st)).
Proof.
  intros Hall. unfold ideLock. rewrite mbind_run, os_ReadFile_run. cbn [fst snd].
  destruct (os.files (fileSystem w) !! path) as [file |] eqn:Hfile;
    cbn [fmap option_fmap option_map]; [| exact Hall].
  destruct (Unmarshal_ideLockFile (os.contents file)) as [lockFile |] eqn:Hlock;
    [| exact Hall].
  destruct (ideLockFile.WorkspaceFolders lockFile) as [| workspace rest] eqn:Hws;
    [exact Hall |].
  destruct (ideLockFile.PID lockFile =? 0) eqn:Hpid; [exact Hall |].
  unfold isProcessAlive.
  destruct (processAlive w (ideLockFile.PID lockFile)) eqn:Halive; cbn [negb];
    [| exact Hall].
  destruct (workspaceProcess entries cwdMap workspace) as [entry |] eqn:Hproc;
    [| exact Hall].
  rewrite mret_run. cbn [fst]. apply Forall_app. split; [exact Hall |].
  constructor; [| constructor].
  exists path, file, lockFile, workspace, rest, entry.
  repeat split; try assumption. now apply Z.eqb_neq.
Qed.

Lemma discoverIDESessions_sessions w claudeDir entries cwdMap st :
  Forall (fromLock w entries cwdMap)
         (fst (discoverIDESessions w claudeDir entries cwdMap st)).
Proof.
  unfold discoverIDESessions. rewrite mbind_run.
  destruct (fst (filepath_Glob _ _ st)) as [[| path paths] |];
    try (rewrite mret_run; constructor).
  apply foldM_invariant; [constructor |].
  intros. now apply ideLock_sessions.
Qed.

Lemma fromLock_no_entries w cwdMap s : ~ fromLock w [] cwdMap s.
Proof. intros (? & ? & ? & ? & ? & ? & _ & _ & _ & _ & _ & H & _). discriminate. Qed.

Lemma fromLock_Source w entries cwdMap s :
  fromLock w entries cwdMap s ->
  exists lockFile,
    Session.Source s = Source.mk (shortenIDEName (ideLockFile.IDEName lockFile)) /\
    ideLockFile.WorkspaceFolders lockFile = Session.CWD s :: tail (ideLockFile.WorkspaceFolders lockFile).
Proof.
  intros (path & file & lockFile & workspace & rest & entry & _ & _ & Hws & _ & _ & _ & ->).
  exists lockFile. cbn. now rewrite Hws.
Qed.

(** [DiscoverAll], unfolded: the IDE sessions, then the CLI sessions for
    the directories no IDE session has, all enriched. *)
Lemma DiscoverAll_run w st :
  let claudeDir := filepath.Join [HOME w; str ".claude"] in
  let entries := ParsePS (runPS w) in
  let cwdMap := BatchResolveCWDs w entries in
  let ide := fst (discoverIDESessions w claudeDir entries cwdMap st) in
  exists seenCWDs,
    (forall c, seen seenCWDs c = true <-> c ∈ map Session.CWD ide) /\
    Forall2 enriched
      (ide ++ fst (discoverCLISessions entries cwdMap seenCWDs))
      (fst (DiscoverAll w st)).
Proof.
  intros claudeDir entries cwdMap ide.
  destruct (fold_claimIDE ide [] ∅) as (seenCWDs & Hfold & Hseen).
  exists seenCWDs. split.
  { intros c. rewrite Hseen, seen_empty. split; [intros [? | ?] | ]; try tauto. discriminate. }
  unfold DiscoverAll. fold claudeDir entries cwdMap.
  case_bool_decide as Hentries.
  - rewrite mret_run. cbn [fst].
    assert (Hide : ide = []).
    { pose proof (discoverIDESessions_sessions w claudeDir entries cwdMap st) as H.
      fold ide in H. destruct ide as [| s ide']; [reflexivity |].
      apply Forall_cons in H. destruct H as [H _]. rewrite Hentries in H.
      now apply fromLock_no_entries in H. }
    rewrite Hide, Hentries. cbn. constructor.
  - rewrite mbind_run. fold ide. rewrite Hfold. cbn [app].
    destruct (discoverCLISessions entries cwdMap seenCWDs) as [cli seen'] eqn:Hcli.
    cbn [fst]. unfold EnrichSessions. apply enrichEach_enriched.
Qed.

Lemma Forall2_singleton_l {A B} (R : A -> B -> Prop) a l :
  Forall2 R [a] l -> exists b, l = [b] /\ R a b.
Proof.
  intros H. inversion H as [| ? b ? l' Hab Hl]; subst.
  inversion Hl; subst. now exists b.
Qed.

Lemma filter_CWD_none c (l : list Session.t) :
  c ∉ map Session.CWD l -> filter (fun s => Session.CWD s = c) l = [].
Proof.
  intros Hc. induction l as [| s l IH]; [reflexivity |].
  rewrite filter_cons. cbn [map] in Hc. rewrite not_elem_of_cons in Hc.
  destruct Hc as [Hne Hc]. destruct (decide (Session.CWD s = c)); [congruence | auto].
Qed.

(** C2 (as amended).  [DiscoverAll] puts the IDE sessions first and then the CLI
    sessions, and enriches them, which changes neither the process, the
    working directory nor the source of a session.  Every IDE session comes
    from a lock file, every CLI session from a process with a terminal, and
    no CLI session is made for a working directory that an IDE session
    has: a CLI candidate whose directory equals an IDE session's is
    dropped.  So for a working directory that IDE sessions have, the
    sessions of the fused list are those IDE sessions; and where discovery
    yields exactly one IDE session for it, whatever the CLI candidates, the
    fused list holds exactly one session for it: that of the IDE's
    process, whose source is the IDE name of the lock file, in its short
    form ([shortenIDEName]: [VSCode], [Cursor], [IDE] for a missing name,
    any other name as it is).  That source is [CLI] exactly when the lock
    file itself gives the name [CLI]. *)
Theorem DiscoverAll_IDE_wins (w : World) (st : Store) :
  let claudeDir := filepath.Join [HOME w; str ".claude"] in
  let entries := ParsePS (runPS w) in
  let cwdMap := BatchResolveCWDs w entries in
  let ide := fst (discoverIDESessions w claudeDir entries cwdMap st) in
  let sessions := fst (DiscoverAll w st) in
  exists cli,
    Forall2 enriched (ide ++ cli) sessions /\
    Forall (fromLock w entries cwdMap) ide /\
    Forall (fun s => fromTerminal entries cwdMap s /\
                     Session.CWD s ∉ map Session.CWD ide) cli /\
    (forall c, c ∈ map Session.CWD ide ->
       Forall2 enriched (filter (fun s => Session.CWD s = c) ide)
                        (filter (fun s => Session.CWD s = c) sessions)) /\
    (forall c i, filter (fun s => Session.CWD s = c) ide = [i] ->
       exists s lockFile,
         filter (fun s => Session.CWD s = c) sessions = [s] /\
         Session.PID s = Session.PID i /\
         Session.Source s
         = Source.mk (shortenIDEName (ideLockFile.IDEName lockFile)) /\
         head (ideLockFile.WorkspaceFolders lockFile) = Some c /\
         (Session.Source s = Source.mk (str "CLI")
          <-> ideLockFile.IDEName lockFile = str "CLI")).
Proof.
  intros claudeDir entries cwdMap ide sessions.
  destruct (DiscoverAll_run w st) as (seenCWDs & Hseen & Hrun).
  fold claudeDir entries cwdMap ide sessions in Hseen, Hrun.
  set (cli := fst (discoverCLISessions entries cwdMap seenCWDs)) in *.
  pose proof (discoverIDESessions_sessions w claudeDir entries cwdMap st) as Hide.
  fold ide in Hide.
  assert (Hcli : Forall (fun s => fromTerminal entries cwdMap s /\
                                  Session.CWD s ∉ map Session.CWD ide) cli).
  { destruct (discoverCLISessions_sessions entries cwdMap seenCWDs) as [Hall _].
    eapply Forall_impl; [exact Hall |]. cbn beta.
    intros s [Hs Hn]. split; [exact Hs |].
    intros Hin. apply Hseen in Hin. congruence. }
  assert (Hfilter : forall c, c ∈ map Session.CWD ide ->
            Forall2 enriched (filter (fun s => Session.CWD s = c) ide)
                             (filter (fun s => Session.CWD s = c) sessions)).
  { intros c Hc.
    pose proof (enriched_filter_CWD c _ _ Hrun) as H.
    rewrite filter_app in H.
    rewrite (filter_CWD_none c cli), app_nil_r in H; [exact H |].
    intros Hin. apply list_elem_of_fmap in Hin. destruct Hin as (s & -> & Hs).
    rewrite Forall_forall in Hcli. destruct (Hcli s Hs) as [_ Hn]. auto. }
  exists cli. repeat split; try assumption.
  intros c i Hi.
  assert (Hin : i ∈ filter (fun s => Session.CWD s = c) ide).
  { rewrite Hi. apply list_elem_of_singleton. reflexivity. }
  apply list_elem_of_filter in Hin. destruct Hin as [Hci Hin].
  assert (Hc : c ∈ map Session.CWD ide).
  { apply list_elem_of_fmap. now exists i. }
  specialize (Hfilter c Hc). rewrite Hi in Hfilter.
  apply Forall2_singleton_l in Hfilter. destruct Hfilter as (s & Hs & Henr).
  destruct (enriched_keeps _ _ Henr) as (Hpid & _ & Hsrc & _).
  rewrite Forall_forall in Hide.
  destruct (fromLock_Source _ _ _ _ (Hide i Hin)) as (lockFile & Hsource & Hws).
  exists s, lockFile. split; [assumption |]. split; [assumption |].
  split; [now rewrite Hsrc |]. split; [rewrite Hws; cbn; now rewrite Hci |].
  rewrite Hsrc, Hsource. split.
  - intros [= H].
    destruct (decide (ideLockFile.IDEName lockFile = str "CLI")) as [E | E];
      [exact E |].
    now apply shortenIDEName_not_CLI in H.
  - intros ->. reflexivity.
Qed.

(** Where no two IDE sessions share a workspace, no two sessions of
    [DiscoverAll] share a working directory. *)
Lemma DiscoverAll_CWDs_distinct w st :
  let claudeDir := filepath.Join [HOME w; str ".claude"] in
  let entries := ParsePS (runPS w) in
  let cwdMap := BatchResolveCWDs w entries in
  let ide := fst (discoverIDESessions w claudeDir entries cwdMap st) in
  NoDup (map Session.CWD ide) ->
  NoDup (map Session.CWD (fst (DiscoverAll w st))).
Proof.
  intros claudeDir entries cwdMap ide Hnd.
  destruct (DiscoverAll_run w st) as (seenCWDs & Hseen & Hrun).
  fold claudeDir entries cwdMap ide in Hseen, Hrun.
  rewrite (enriched_CWDs _ _ Hrun), map_app.
  destruct (discoverCLISessions_sessions entries cwdMap seenCWDs) as [Hall Hcli].
  apply NoDup_app. split; [exact Hnd | split; [| exact Hcli]].
  intros c Hc Hin. apply Hseen in Hc.
  apply list_elem_of_fmap in Hin. destruct Hin as (s & -> & Hs).
  rewrite Forall_forall in Hall. destruct (Hall s Hs) as [_ Hn]. congruence.
Qed.

(** The other way round: two IDE sessions for one workspace are two
    sessions of [DiscoverAll] for one working directory. *)
Lemma DiscoverAll_CWDs_repeated w st :
  let claudeDir := filepath.Join [HOME w; str ".claude"] in
  let entries := ParsePS (runPS w) in
  let cwdMap := BatchResolveCWDs w entries in
  let ide := fst (discoverIDESessions w claudeDir entries cwdMap st) in
  ~ NoDup (map Session.CWD ide) ->
  ~ NoDup (map Session.CWD (fst (DiscoverAll w st))).
Proof.
  intros claudeDir entries cwdMap ide Hnd Hall. apply Hnd.
  destruct (DiscoverAll_run w st) as (seenCWDs & Hseen & Hrun).
  fold claudeDir entries cwdMap ide in Hseen, Hrun.
  rewrite (enriched_CWDs _ _ Hrun), map_app in Hall.
  now apply NoDup_app in Hall.
Qed.

End EngineProperties.

(** * The program at work

    The program run with the decoder [jsonref.decoder] and the sort
    [insertion.sorting]. *)

(** The package's test [TestDetectState]. *)
Lemma DetectState_tests :
  detect "{'type':'user','message':{'role':'user','content':'hello'}}" 10
  = StateActive /\
  detect "{'type':'progress'}" 60 = StateActive /\
  detect "{'type':'assistant','message':{'role':'assistant','content':'done'}}" 60
  = StateWaiting /\
  detect "{'type':'user','message':{'role':'user','content':'do this'}}" 120
  = StateActive /\
  detect "{'type':'user','message':{'role':'user','content':'do this'}}" 600
  = StateIdle /\
  fst (DetectState (json := jsonref.decoder) (singleFile (str "t.jsonl") [] 0)
         (str "/nonexistent/path.jsonl") time.zero (1000 * second) emptyStore)
  = StateIdle /\
  detect "{'type':'assistant','message':{'role':'assistant','content':[{'type':'text','text':'I need to ask you something.'},{'type':'tool_use','id':'toolu_123','name':'AskUserQuestion','input':{}}]}}" 60
  = StateInput /\
  detect "{'type':'assistant','message':{'role':'assistant','content':[{'type':'text','text':'Let me read a file.'},{'type':'tool_use','id':'toolu_456','name':'Read','input':{}}]}}" 60
  = StateWaiting /\
  detect "{'type':'assistant','message':{'role':'assistant','content':[{'type':'text','text':'Here is my response.'}]}}" 60
  = StateWaiting /\
  detect "{'type':'assistant','message':{'role':'assistant','content':'Just a string response'}}" 60
  = StateWaiting.
Proof. vm_compute. repeat split. Qed.

(** The scenario of C1: an assistant line in a transcript of 90 seconds
    ago is Waiting; the same content modified 10 seconds ago is Active. *)
Lemma DetectState_scenario :
  detect "{'type':'assistant','message':{'role':'assistant','content':'ok'}}" 90
  = StateWaiting /\
  detect "{'type':'assistant','message':{'role':'assistant','content':'ok'}}" 10
  = StateActive.
Proof. vm_compute. repeat split. Qed.

(** The scenario of C2: an IDE session and a claude in a terminal in the
    same directory give one session, the IDE's. *)
Lemma DiscoverAll_ide_and_terminal :
  map origin (fst (discover ideAndTerminal emptyStore))
  = [(5678, str "/w", str "VSCode")].
Proof. vm_compute. reflexivity. Qed.

(** C2 as stated fails on the machine [ideNamedCLI]: the IDE's lock file
    gives the name [CLI], which [shortenIDEName] leaves as it is.  The
    terminal's claude (PID 1234) is dropped for the IDE's (PID 5678), and
    the one session of the directory has the source [CLI]. *)
Lemma DiscoverAll_IDE_named_CLI :
  map origin (fst (discover ideNamedCLI emptyStore))
  = [(5678, str "/w", str "CLI")] /\
  map origin
    (fst (discoverIDESessions (json := jsonref.decoder) ideNamedCLI
            (str "/Users/me/.claude") (ParsePS (runPS ideNamedCLI))
            (BatchResolveCWDs ideNamedCLI (ParsePS (runPS ideNamedCLI)))
            emptyStore))
  = [(5678, str "/w", str "CLI")] /\
  cliDirectory (BatchResolveCWDs ideNamedCLI (ParsePS (runPS ideNamedCLI)))
    (psEntry.mk 1234 (str "10:30") (str "ttys001") (str "/usr/local/bin/claude"))
  = Some (str "/w").
Proof. repeat split; vm_compute; reflexivity. Qed.

(** C4 fails on the machine [twoWindows]: two lock files of live IDE
    processes name the workspace [/w] first, and one claude process without
    a terminal runs there.  [discoverIDESessions] makes a session for each
    lock file, both for the working directory [/w], and [DiscoverAll]
    returns both. *)
Lemma DiscoverAll_two_windows :
  map origin (fst (discover twoWindows emptyStore))
  = [(5678, str "/w", str "VSCode"); (5678, str "/w", str "Cursor")] /\
  ~ NoDup (map Session.CWD (fst (discover twoWindows emptyStore))).
Proof.
  split; [vm_compute; reflexivity |].
  intros H. vm_compute in H. apply NoDup_cons in H. destruct H as [H _].
  apply H. left.
Qed.

(** C3 as stated fails where the transcript is located by scanning the
    directory: the cache holds an entry for the key, the session gets the
    cached values, and yet the transcript has been opened three times (for
    its first prompt, its line count and its last line) before the lookup,
    besides the one time state detection opens it. *)
Lemma enrichSession_hit_rereads :
  let w := terminalNoIndex (1000 * second)
             "{'type':'user','message':{'role':'user','content':'Fix the bug'}}" in
  let transcript := str "/home/u/.claude/projects/-w/a.jsonl" in
  let key := cacheKeyOf w (str "/w") (940 * second) in
  let cached := cachedMetadata.mk transcript (str "Cached topic") 7 (str "main") in
  let st := mkStore {[ key := cached ]} [] in
  let result :=
    enrichSession (json := jsonref.decoder) (sorting := insertion.sorting) w
      (newSession 1234 (str "/w") (str "CLI") 0)
      (str "/home/u/.claude/projects") (str "/w") (Now w) st in
  metadataCache st !! key = Some cached /\
  metadata (fst result) = (StateActive, str "Cached topic", 7, str "main") /\
  accesses (snd result)
  = [ReadFile (str "/home/u/.claude/projects/-w/sessions-index.json");
     Glob (str "/home/u/.claude/projects/-w/*.jsonl");
     Stat transcript; Open transcript; Open transcript; Open transcript;
     Stat transcript; Open transcript].
Proof. vm_compute. repeat split. Qed.

(** Two passes over a transcript that the index locates: the second pass,
    ten seconds later and with another prompt in the index, finds the
    entry of the first, reports the cached topic, and opens the transcript
    once, for its state. *)
Lemma DiscoverAll_second_pass :
  let line := "{'type':'assistant','message':{'role':'assistant','content':'done'}}"%string in
  let first := discover (terminal (1000 * second) "Fix the bug" line) emptyStore in
  let second := discover (terminal (1010 * second) "Another prompt" line) (snd first) in
  map metadata (fst first) = [(StateWaiting, str "Fix the bug", 3, str "main")] /\
  map metadata (fst second) = [(StateWaiting, str "Fix the bug", 3, str "main")] /\
  drop (length (accesses (snd first))) (accesses (snd second))
  = [Glob (str "/home/u/.claude/ide/*.lock");
     ReadFile (str "/home/u/.claude/projects/-w/sessions-index.json");
     Stat (str "/home/u/.claude/projects/-w/a.jsonl");
     Open (str "/home/u/.claude/projects/-w/a.jsonl")].
Proof. vm_compute. repeat split. Qed.

(** An index of two entries: the one with the greater [fileMtime] is
    selected, wherever it stands. *)
Lemma findSessionFromIndex_example :
  let fs :=
    singleFile (str "i.json")
      (quoted "{'entries':[{'fullPath':'/old.jsonl','firstPrompt':'old','messageCount':1,'fileMtime':5,'gitBranch':'a'},{'fullPath':'/new.jsonl','firstPrompt':'new','messageCount':2,'fileMtime':9,'gitBranch':'b'}]}")
      0 in
  fst (findSessionFromIndex (json := jsonref.decoder)
         (sorting := insertion.sorting) fs (str "i.json") emptyStore)
  = mkLocated (str "/new.jsonl") (str "new") 2 (str "b") true.
Proof. vm_compute. reflexivity. Qed.

(** * Further properties

    Of the functions around those above: the rest of discovery, the
    matching of transcripts, the cleaning of topics and the arithmetic of
    the table. *)

(** ** [discover.go]: names and paths *)

Lemma ReplaceAll_map s old new :
  strings.ReplaceAll s old [new]
  = map (fun c => if byte_eqb c old then new else c) s.
Proof.
  unfold strings.ReplaceAll. induction s as [| c s IH]; [reflexivity |].
  cbn [flat_map map]. rewrite IH. now destruct (byte_eqb c old).
Qed.

(** The byte [EncodePath] writes for a byte of the path. *)
Lemma EncodePath_map path :
  EncodePath path
  = map (fun c => if byte_eqb c "/" || byte_eqb c "." then "-"%char else c) path.
Proof.
  unfold EncodePath. change (str "-") with ["-"%char].
  rewrite !ReplaceAll_map, map_map. apply map_ext. intros c.
  destruct (byte_eqb c "/") eqn:E; [reflexivity |]. reflexivity.
Qed.

(** X1.  [EncodePath] works byte by byte: every [/] and every [.] becomes
    a [-] and every other byte stays, so the encoded path has the length
    of the path, holds neither [/] nor [.], and encoding it again changes
    nothing. *)
Theorem EncodePath_flat (path : gostring) :
  length (EncodePath path) = length path /\
  ("/"%char ∉ EncodePath path) /\
  ("."%char ∉ EncodePath path) /\
  (forall i c, path !! i = Some c ->
     EncodePath path !! i
     = Some (if bool_decide (c = "/"%char \/ c = "."%char) then "-"%char else c)) /\
  EncodePath (EncodePath path) = EncodePath path.
Proof.
  rewrite !EncodePath_map. repeat split.
  - now rewrite length_map.
  - intros Hin. apply list_elem_of_fmap in Hin. destruct Hin as (c & Hc & _).
    destruct (byte_eqb c "/") eqn:E1; [discriminate |].
    destruct (byte_eqb c ".") eqn:E2; [discriminate |].
    cbn in Hc. subst c. discriminate.
  - intros Hin. apply list_elem_of_fmap in Hin. destruct Hin as (c & Hc & _).
    destruct (byte_eqb c "/") eqn:E1; [discriminate |].
    destruct (byte_eqb c ".") eqn:E2; [discriminate |].
    cbn in Hc. subst c. discriminate.
  - intros i c Hi. rewrite list_lookup_fmap, Hi. cbn. f_equal.
    destruct (byte_eqb c "/") eqn:E1.
    + apply byte_eqb_eq in E1. subst c. reflexivity.
    + destruct (byte_eqb c ".") eqn:E2.
      * apply byte_eqb_eq in E2. subst c. reflexivity.
      * apply byte_eqb_neq in E1, E2. cbn.
        rewrite bool_decide_eq_false_2; [reflexivity | tauto].
  - rewrite map_map. apply map_ext. intros c.
    destruct (byte_eqb c "/") eqn:E1; [reflexivity |].
    destruct (byte_eqb c ".") eqn:E2; [reflexivity |]. cbn.
    now rewrite E1, E2.
Qed.

(** X2.  [EncodePath] does not tell [/], [.] and [-] apart: two paths that
    differ only in which of the three stands at some place get the same
    project directory. *)
Theorem EncodePath_collides (a b : gostring) :
  EncodePath (a ++ "/"%char :: b) = EncodePath (a ++ "."%char :: b) /\
  EncodePath (a ++ "/"%char :: b) = EncodePath (a ++ "-"%char :: b).
Proof. rewrite !EncodePath_map, !map_app. split; reflexivity. Qed.

(** X3.  [shortenIDEName] never returns the empty string, returns either
    the name it is given or one of [VSCode], [Cursor] and [IDE], and
    shortening a short name changes nothing. *)
Theorem shortenIDEName_short (fullName : gostring) :
  shortenIDEName fullName <> [] /\
  shortenIDEName (shortenIDEName fullName) = shortenIDEName fullName /\
  (shortenIDEName fullName = fullName \/
   shortenIDEName fullName ∈ [str "VSCode"; str "Cursor"; str "IDE"]).
Proof.
  assert (H : (shortenIDEName fullName = fullName /\ fullName <> [] /\
               strings.Contains fullName (str "Visual Studio Code") = false /\
               strings.Contains fullName (str "Cursor") = false) \/
              shortenIDEName fullName ∈ [str "VSCode"; str "Cursor"; str "IDE"]).
  { unfold shortenIDEName.
    destruct (strings.Contains fullName (str "Visual Studio Code")) eqn:E1;
      [right; set_solver |].
    destruct (strings.Contains fullName (str "Cursor")) eqn:E2;
      [right; set_solver |].
    case_bool_decide as E3; [right; set_solver |]. now left. }
  destruct H as [(Hsame & Hne & E1 & E2) | Hin].
  - rewrite !Hsame. split; [exact Hne |]. split; [reflexivity | now left].
  - split; [| split; [| now right]].
    + rewrite !elem_of_cons, elem_of_nil in Hin.
      destruct Hin as [H | [H | [H | []]]]; rewrite H; discriminate.
    + rewrite !elem_of_cons, elem_of_nil in Hin.
      destruct Hin as [H | [H | [H | []]]]; rewrite H; reflexivity.
Qed.

Lemma TrimRight_slashes s n :
  (forall t x, s = t ++ [x] -> x <> "/"%char) ->
  strings.TrimRight (s ++ replicate n "/"%char) (str "/") = s.
Proof.
  intros Hlast. change (str "/") with ["/"%char].
  rewrite TrimRight_app_drop by apply TrimRight_replicate.
  now apply TrimRight_keep_all.
Qed.

Lemma last_no_slash pre name :
  name <> [] -> "/"%char ∉ name ->
  forall t x, pre ++ name = t ++ [x] -> x <> "/"%char.
Proof.
  intros Hne Hname t x E ->. apply Hname.
  destruct (rev name) as [| y r] eqn:Hr.
  { apply (f_equal (@rev _)) in Hr. rewrite rev_involutive in Hr. now subst. }
  apply (f_equal (@rev _)) in Hr. rewrite rev_involutive in Hr. cbn in Hr.
  subst name. rewrite app_assoc in E. apply app_inj_tail in E as [_ ->].
  apply elem_of_app. right. now left.
Qed.

Lemma Base_last pre name :
  name <> [] -> "/"%char ∉ name ->
  (pre = [] \/ exists p, pre = p ++ ["/"%char]) ->
  filepath.Base (pre ++ name) = name.
Proof.
  intros Hne Hname Hpre. unfold filepath.Base.
  rewrite bool_decide_eq_false_2 by (destruct pre, name; cbn; congruence).
  unfold filepath.trimSlashes.
  pose proof (TrimRight_slashes (pre ++ name) 0 (last_no_slash pre name Hne Hname))
    as Ht.
  cbn [replicate] in Ht. rewrite app_nil_r in Ht. rewrite Ht.
  destruct Hpre as [-> | [p ->]].
  - cbn [app]. apply LastIndexByte_None in Hname. rewrite Hname.
    now rewrite bool_decide_eq_false_2.
  - rewrite <- app_assoc. cbn [app].
    rewrite (LastIndexByte_last p name "/") by exact Hname.
    replace (length p + 1)%nat with (length (p ++ ["/"%char]))
      by (rewrite length_app; reflexivity).
    change (p ++ "/"%char :: name) with (p ++ ["/"%char] ++ name).
    rewrite (app_assoc p ["/"%char] name), drop_app_length.
    now rewrite bool_decide_eq_false_2.
Qed.

Lemma Dir_last pre name :
  "/"%char ∉ name ->
  filepath.Dir (pre ++ "/"%char :: name) = filepath.Clean (pre ++ ["/"%char]).
Proof.
  intros Hname. unfold filepath.Dir.
  rewrite (LastIndexByte_last pre name "/") by exact Hname.
  replace (length pre + 1)%nat with (length (pre ++ ["/"%char]))
    by (rewrite length_app; reflexivity).
  replace (pre ++ "/"%char :: name) with ((pre ++ ["/"%char]) ++ name)
    by (now rewrite <- app_assoc).
  now rewrite take_app_length.
Qed.

Lemma Join_snoc l x sep :
  strings.Join (l ++ [x]) sep
  = if bool_decide (l = []) then x else strings.Join l sep ++ sep ++ x.
Proof.
  induction l as [| a l IH]; [reflexivity |].
  rewrite bool_decide_eq_false_2 by done.
  cbn [app]. rewrite Join_cons by (destruct l; done).
  rewrite IH. destruct l as [| b l]; [reflexivity |].
  case_bool_decide; [done |].
  rewrite (Join_cons a) by done. now rewrite <- !app_assoc.
Qed.

(** [Clean] of a path whose last element is an ordinary name ends in that
    name. *)
Lemma Clean_last d parent :
  parent <> [] -> "/"%char ∉ parent -> parent <> str "." -> parent <> str ".." ->
  exists pre,
    filepath.Clean (d ++ "/"%char :: parent ++ ["/"%char]) = pre ++ parent /\
    (pre = [] \/ exists p, pre = p ++ ["/"%char]).
Proof.
  intros Hne Hslash Hdot Hdots. unfold filepath.Clean.
  set (rooted := strings.HasPrefix _ _).
  rewrite Split_app, Split_app, (Split_no_sep parent) by exact Hslash.
  cbn [strings.Split]. rewrite !fold_left_app. cbn [fold_left].
  set (stack := fold_left (filepath.step rooted) (strings.Split d "/") []).
  assert (Hstep : filepath.step rooted stack parent = parent :: stack).
  { unfold filepath.step. now rewrite !bool_decide_eq_false_2. }
  rewrite Hstep.
  change (filepath.step rooted (parent :: stack) []) with (parent :: stack).
  cbn [rev]. rewrite Join_snoc. cbv zeta.
  destruct (bool_decide_reflect (rev stack = [])) as [Hstack | Hstack].
  - exists (if rooted then str "/" else []).
    rewrite bool_decide_eq_false_2 by (destruct rooted, parent; cbn; congruence).
    split; [reflexivity |].
    destruct rooted; [right; now exists [] | now left].
  - exists ((if rooted then str "/" else []) ++ strings.Join (rev stack) (str "/") ++ str "/").
    rewrite bool_decide_eq_false_2.
    + split; [now rewrite <- !app_assoc |]. right.
      exists ((if rooted then str "/" else []) ++ strings.Join (rev stack) (str "/")).
      now rewrite <- app_assoc.
    + destruct rooted; [discriminate |]. cbn [app].
      intros E. apply app_eq_nil in E as [_ E]. destruct parent; cbn in E; congruence.
Qed.

Lemma ShortProjectName_two (d parent name : gostring) (n : nat) :
  name <> [] -> "/"%char ∉ name ->
  parent <> [] -> "/"%char ∉ parent ->
  parent <> str "." -> parent <> str ".." ->
  ShortProjectName (d ++ str "/" ++ parent ++ str "/" ++ name ++ replicate n "/"%char)
  = parent ++ str "/" ++ name.
Proof.
  intros Hname Hns Hparent Hps Hdot Hdots. unfold ShortProjectName.
  set (P := d ++ "/"%char :: parent ++ ["/"%char]).
  assert (E : d ++ str "/" ++ parent ++ str "/" ++ name ++ replicate n "/"%char
              = (P ++ name) ++ replicate n "/"%char).
  { unfold P. change (str "/") with ["/"%char].
    rewrite <- !app_assoc. cbn [app]. now rewrite <- !app_assoc. }
  rewrite E, TrimRight_slashes by now apply last_no_slash.
  assert (HP : P = (d ++ "/"%char :: parent) ++ ["/"%char]).
  { unfold P. now rewrite <- app_assoc. }
  rewrite Base_last; [| exact Hname | exact Hns | right; eexists; exact HP].
  assert (HD : filepath.Dir (P ++ name) = filepath.Clean P).
  { rewrite HP, <- app_assoc. cbn [app]. now apply Dir_last. }
  rewrite HD. unfold P.
  destruct (Clean_last d parent Hparent Hps Hdot Hdots) as (pre & -> & Hpre).
  rewrite Base_last by assumption.
  rewrite !bool_decide_eq_false_2; [reflexivity | exact Hparent | exact Hdot |].
  intros ->. apply Hps. now left.
Qed.

Lemma ShortProjectName_one (name : gostring) (n : nat) :
  name <> [] -> "/"%char ∉ name ->
  ShortProjectName (str "/" ++ name ++ replicate n "/"%char) = name /\
  ShortProjectName (name ++ replicate n "/"%char) = name.
Proof.
  intros Hname Hns. unfold ShortProjectName. split.
  - change (str "/" ++ name ++ replicate n "/"%char)
      with ((["/"%char] ++ name) ++ replicate n "/"%char).
    rewrite TrimRight_slashes by now apply last_no_slash.
    rewrite Base_last; [| exact Hname | exact Hns | right; now exists []].
    pose proof (Dir_last [] name Hns) as HD. cbn [app] in HD |- *.
    rewrite HD. reflexivity.
  - rewrite TrimRight_slashes by now apply (last_no_slash []).
    pose proof (Base_last [] name Hname Hns (or_introl eq_refl)) as HB.
    cbn [app] in HB. rewrite HB.
    unfold filepath.Dir. apply LastIndexByte_None in Hns. rewrite Hns.
    reflexivity.
Qed.

(** X4.  [ShortProjectName] disregards trailing slashes.  For a path of a
    single element, rooted or not, it returns that element; for a path
    that ends in two ordinary elements (the parent is neither [.] nor
    [..]) it returns [parent/name], whatever comes before them. *)
Theorem ShortProjectName_last_two (name : gostring) (n : nat) :
  name <> [] -> "/"%char ∉ name ->
  ShortProjectName (str "/" ++ name ++ replicate n "/"%char) = name /\
  ShortProjectName (name ++ replicate n "/"%char) = name /\
  (forall d parent,
     parent <> [] -> "/"%char ∉ parent ->
     parent <> str "." -> parent <> str ".." ->
     ShortProjectName
       (d ++ str "/" ++ parent ++ str "/" ++ name ++ replicate n "/"%char)
     = parent ++ str "/" ++ name).
Proof.
  intros Hname Hns.
  destruct (ShortProjectName_one name n Hname Hns) as [H1 H2].
  split; [exact H1 |]. split; [exact H2 |].
  intros d parent. now apply ShortProjectName_two.
Qed.

(** A byte that does not occur in a given text. *)
Ltac absent :=
  let H := fresh in
  vm_compute; intros H;
  repeat (apply elem_of_cons in H as [H | H]; [discriminate |]);
  now apply elem_of_nil in H.

(** [ShortProjectName_last_two] at [/Users/me/project/]. *)
Lemma ShortProjectName_last_two_witness :
  ShortProjectName (str "/Users/me/project/") = str "me/project".
Proof.
  destruct (ShortProjectName_last_two (str "project") 1) as (_ & _ & H);
    [discriminate | absent |].
  apply (H (str "/Users") (str "me")); try discriminate. absent.
Defined.

Lemma fold_Readlink w entries (m : gmap Z gostring) pid :
  fold_left
    (fun cwdMap entry =>
       match Readlink w (str "/proc/" ++ fmt.d (psEntry.PID entry) ++ str "/cwd") with
       | Some link => <[psEntry.PID entry := link]> cwdMap
       | None => cwdMap
       end)
    entries m !! pid
  = match (if bool_decide (pid ∈ map psEntry.PID entries)
           then Readlink w (str "/proc/" ++ fmt.d pid ++ str "/cwd") else None) with
    | Some link => Some link
    | None => m !! pid
    end.
Proof.
  revert m. induction entries as [| e entries IH]; intros m; cbn [fold_left map].
  - now rewrite bool_decide_eq_false_2 by apply not_elem_of_nil.
  - rewrite IH. destruct (decide (pid = psEntry.PID e)) as [-> | Hne].
    + rewrite (bool_decide_eq_true_2 (_ ∈ _ :: _)) by now left.
      destruct (bool_decide (psEntry.PID e ∈ map psEntry.PID entries)).
      * destruct (Readlink w _); reflexivity.
      * destruct (Readlink w _); [now rewrite lookup_insert_eq | reflexivity].
    + assert (Hiff : pid ∈ psEntry.PID e :: map psEntry.PID entries
                     <-> pid ∈ map psEntry.PID entries).
      { rewrite elem_of_cons. tauto. }
      rewrite (bool_decide_ext _ _ Hiff).
      destruct (bool_decide (pid ∈ map psEntry.PID entries)).
      * destruct (Readlink w (str "/proc/" ++ fmt.d pid ++ str "/cwd")); [reflexivity |].
        destruct (Readlink w _); [now rewrite lookup_insert_ne | reflexivity].
      * destruct (Readlink w _); [now rewrite lookup_insert_ne | reflexivity].
Qed.

(** X5.  On Linux [BatchResolveCWDs] maps exactly the PIDs of the entries
    whose link [/proc/<pid>/cwd] can be read, each to the target of its
    link. *)
Theorem BatchResolveCWDs_linux (w : World) (entries : list psEntry.t) (pid : Z) :
  GOOS w = str "linux" ->
  BatchResolveCWDs w entries !! pid
  = if bool_decide (pid ∈ map psEntry.PID entries)
    then Readlink w (str "/proc/" ++ fmt.d pid ++ str "/cwd")
    else None.
Proof.
  intros Hos. unfold BatchResolveCWDs.
  rewrite bool_decide_eq_true_2 by exact Hos.
  rewrite fold_Readlink, lookup_empty.
  destruct (bool_decide _); [| reflexivity]. now destruct (Readlink w _).
Qed.

(** [BatchResolveCWDs_linux] on the machine [ideAndTerminal]. *)
Lemma BatchResolveCWDs_linux_witness :
  BatchResolveCWDs ideAndTerminal (ParsePS (runPS ideAndTerminal)) !! 1234
  = Some (str "/w").
Proof.
  rewrite (BatchResolveCWDs_linux ideAndTerminal _ 1234); reflexivity.
Defined.

Lemma lsofLine_record digits path rest st :
  strings.nonEmpty digits && forallb strconv.isDigit digits = true ->
  0 < strconv.decimal digits <= strconv.maxInt ->
  NL ∉ path ->
  fold_left lsofLine (strings.Split (lsofRecord (digits, path) ++ rest) NL) st
  = fold_left lsofLine (strings.Split rest NL)
      (strconv.decimal digits, <[strconv.decimal digits := path]> st.2).
Proof.
  intros Hdigits Hrange Hpath. unfold lsofRecord. cbn [fst snd].
  assert (Hd : NL ∉ digits).
  { apply digits_not_elem; [| left; reflexivity].
    now apply andb_true_iff in Hdigits as [_ ?]. }
  rewrite <- !app_assoc. cbn [app].
  change (str "p" ++ digits ++ NL :: str "fcwd" ++ NL :: str "n" ++ path ++ NL :: rest)
    with (("p"%char :: digits) ++ NL :: str "fcwd" ++ NL :: ("n"%char :: path) ++ NL :: rest).
  rewrite Split_app, (Split_app (str "fcwd")), (Split_app ("n"%char :: path)).
  rewrite (Split_no_sep ("p"%char :: digits)), (Split_no_sep (str "fcwd")),
    (Split_no_sep ("n"%char :: path)).
  2:{ apply not_elem_of_cons. split; [discriminate | exact Hpath]. }
  2:{ absent. }
  2:{ apply not_elem_of_cons. split; [discriminate | exact Hd]. }
  rewrite !fold_left_app. cbn [fold_left]. f_equal.
  destruct st as [cur m]. cbn [snd].
  assert (Hp : lsofLine (cur, m) ("p"%char :: digits) = (strconv.decimal digits, m)).
  { cbn [lsofLine]. change (byte_eqb "p" "p") with true. cbn iota.
    now rewrite Atoi_digits by (try exact Hdigits; lia). }
  rewrite Hp.
  change (lsofLine (strconv.decimal digits, m) (str "fcwd"))
    with (strconv.decimal digits, m).
  cbn [lsofLine]. change (byte_eqb "n" "p") with false.
  change (byte_eqb "n" "n") with true. cbn iota.
  destruct (strconv.decimal digits =? 0) eqn:E; [| reflexivity].
  apply Z.eqb_eq in E. lia.
Qed.

Lemma fold_lsofRecords records st :
  Forall (fun r => strings.nonEmpty r.1 && forallb strconv.isDigit r.1 = true /\
                   0 < strconv.decimal r.1 <= strconv.maxInt /\ NL ∉ r.2) records ->
  (fold_left lsofLine (strings.Split (concat (map lsofRecord records)) NL) st).2
  = fold_left (fun m r => <[strconv.decimal r.1 := r.2]> m) records st.2.
Proof.
  intros Hall. revert st. induction Hall as [| [digits path] records Hr _ IH];
    intros st.
  - now destruct st.
  - cbn [map concat fold_left]. destruct Hr as (H1 & H2 & H3). cbn [fst snd] in *.
    rewrite lsofLine_record by assumption. now rewrite IH.
Qed.

(** X6.  Elsewhere [BatchResolveCWDs] asks [lsof] once for all the PIDs
    and does not ask it at all for no entries; it returns the empty map when
    [lsof] fails; and from an output of well-formed records it maps each
    PID the output names to the path of its record, a later record
    replacing an earlier one for the same PID. *)
Theorem BatchResolveCWDs_lsof (w : World) (entries : list psEntry.t) :
  GOOS w <> str "linux" ->
  let pidList :=
    strings.Join (map (fun entry => strconv.Itoa (psEntry.PID entry)) entries)
                 (str ",") in
  (entries = [] -> BatchResolveCWDs w entries = ∅) /\
  (lsofOutput w pidList = None -> BatchResolveCWDs w entries = ∅) /\
  (forall records,
     entries <> [] ->
     lsofOutput w pidList = Some (concat (map lsofRecord records)) ->
     Forall (fun r => strings.nonEmpty r.1 && forallb strconv.isDigit r.1 = true /\
                      0 < strconv.decimal r.1 <= strconv.maxInt /\ NL ∉ r.2)
            records ->
     BatchResolveCWDs w entries
     = fold_left (fun m r => <[strconv.decimal r.1 := r.2]> m) records ∅).
Proof.
  intros Hos pidList. unfold BatchResolveCWDs.
  rewrite (bool_decide_eq_false_2 (GOOS w = _)) by exact Hos.
  fold pidList. split; [| split].
  - intros ->. reflexivity.
  - intros ->. now destruct (bool_decide _).
  - intros records Hne -> Hall.
    rewrite bool_decide_eq_false_2 by exact Hne.
    now rewrite fold_lsofRecords.
Qed.

(** [BatchResolveCWDs_lsof] on the machine [mac]. *)
Lemma BatchResolveCWDs_lsof_witness :
  BatchResolveCWDs mac (ParsePS (runPS mac))
  = <[5678 := str "/Users/me/b"]> (<[1234 := str "/Users/me/a"]> ∅).
Proof.
  destruct (BatchResolveCWDs_lsof mac (ParsePS (runPS mac))) as (_ & _ & H);
    [discriminate |].
  apply (H [(str "1234", str "/Users/me/a"); (str "5678", str "/Users/me/b")]).
  - discriminate.
  - reflexivity.
  - repeat constructor; try (vm_compute; congruence); absent.
Defined.

Lemma cliCandidate_directory cwdMap sessions seenCWDs entry :
  cliCandidate cwdMap (sessions, seenCWDs) entry
  = match cliDirectory cwdMap entry with
    | Some cwd =>
        if seen seenCWDs cwd then (sessions, seenCWDs)
        else (sessions ++ [newSession (psEntry.PID entry) cwd (str "CLI")
                             (ParseEtime (psEntry.Etime entry))],
              <[cwd := true]> seenCWDs)
    | None => (sessions, seenCWDs)
    end.
Proof.
  unfold cliCandidate, cliDirectory.
  case_bool_decide; [reflexivity |].
  destruct (strings.Fields _) as [| command rest]; [reflexivity |].
  case_bool_decide; cbn [negb]; [| reflexivity].
  destruct (cwdMap !! _) as [cwd |]; [| reflexivity].
  case_bool_decide; reflexivity.
Qed.

(** The loop of [discoverCLISessions] from any point on. *)
Lemma fold_cliCandidate cwdMap entries acc seen0 :
  exists new seenCWDs,
    fold_left (cliCandidate cwdMap) entries (acc, seen0) = (acc ++ new, seenCWDs) /\
    Forall (fun s =>
              seen seen0 (Session.CWD s) = false /\
              exists before entry after,
                entries = before ++ entry :: after /\
                cliDirectory cwdMap entry = Some (Session.CWD s) /\
                s = newSession (psEntry.PID entry) (Session.CWD s) (str "CLI")
                      (ParseEtime (psEntry.Etime entry)) /\
                Forall (fun e => cliDirectory cwdMap e <> Some (Session.CWD s))
                       before) new /\
    (forall entry cwd,
       entry ∈ entries -> cliDirectory cwdMap entry = Some cwd ->
       seen seen0 cwd = false -> cwd ∈ map Session.CWD new) /\
    (forall c, seen seenCWDs c = true
               <-> seen seen0 c = true \/ c ∈ map Session.CWD new) /\
    NoDup (map Session.CWD new).
Proof.
  revert acc seen0. induction entries as [| e entries IH]; intros acc seen0.
  - exists [], seen0. cbn [fold_left]. rewrite app_nil_r.
    split; [reflexivity |]. split; [constructor |]. split; [| split].
    + intros entry cwd Hin. now apply elem_of_nil in Hin.
    + intros c. cbn. rewrite elem_of_nil. tauto.
    + constructor.
  - cbn [fold_left]. rewrite cliCandidate_directory.
    destruct (cliDirectory cwdMap e) as [cwd |] eqn:Hdir.
    2:{ destruct (IH acc seen0) as (new & seenCWDs & -> & Hall & Hcomplete & Hseen & Hnd).
        exists new, seenCWDs. split; [reflexivity |]. split; [| split; [| split]];
          try assumption.
        - eapply Forall_impl; [exact Hall |]. cbn beta.
          intros s (Hs & before & entry & after & -> & H1 & H2 & H3).
          split; [exact Hs |]. exists (e :: before), entry, after.
          repeat split; try assumption. constructor; [congruence | exact H3].
        - intros entry c Hin Hc Hsc. apply elem_of_cons in Hin as [-> | Hin];
            [congruence | eauto]. }
    destruct (seen seen0 cwd) eqn:Hcwd.
    { destruct (IH acc seen0) as (new & seenCWDs & -> & Hall & Hcomplete & Hseen & Hnd).
      exists new, seenCWDs. split; [reflexivity |]. split; [| split; [| split]];
        try assumption.
      - eapply Forall_impl; [exact Hall |]. cbn beta.
        intros s (Hs & before & entry & after & -> & H1 & H2 & H3).
        split; [exact Hs |]. exists (e :: before), entry, after.
        repeat split; try assumption. constructor; [| exact H3].
        rewrite Hdir. intros [= E]. congruence.
      - intros entry c Hin Hc Hsc. apply elem_of_cons in Hin as [-> | Hin];
          [| eauto]. rewrite Hdir in Hc. injection Hc as <-. congruence. }
    set (s0 := newSession (psEntry.PID e) cwd (str "CLI") (ParseEtime (psEntry.Etime e))).
    destruct (IH (acc ++ [s0]) (<[cwd := true]> seen0))
      as (new & seenCWDs & -> & Hall & Hcomplete & Hseen & Hnd).
    exists (s0 :: new), seenCWDs. rewrite <- app_assoc.
    split; [reflexivity |].
    assert (Hfresh : cwd ∉ map Session.CWD new).
    { intros Hin. apply list_elem_of_fmap in Hin. destruct Hin as (s & Hs & Hin).
      rewrite Forall_forall in Hall. destruct (Hall s Hin) as [Hn _].
      rewrite <- Hs in Hn.
      assert (seen (<[cwd := true]> seen0) cwd = true) by (apply seen_insert; now left).
      congruence. }
    split; [| split; [| split]].
    + constructor.
      * split; [exact Hcwd |]. exists [], e, entries. now repeat split.
      * eapply Forall_impl; [exact Hall |]. cbn beta.
        intros s (Hs & before & entry & after & -> & H1 & H2 & H3).
        assert (Hne : Session.CWD s <> cwd).
        { intros E. rewrite E in Hs.
          assert (seen (<[cwd := true]> seen0) cwd = true)
            by (apply seen_insert; now left).
          congruence. }
        split.
        -- destruct (seen seen0 (Session.CWD s)) eqn:E; [| reflexivity].
           assert (seen (<[cwd := true]> seen0) (Session.CWD s) = true)
             by (apply seen_insert; now right).
           congruence.
        -- exists (e :: before), entry, after. repeat split; try assumption.
           constructor; [| exact H3]. rewrite Hdir. intros [= E]. now symmetry in E.
    + intros entry c Hin Hc Hsc. cbn [map]. apply elem_of_cons.
      destruct (decide (c = cwd)) as [-> | Hne]; [now left | right].
      apply elem_of_cons in Hin as [-> | Hin]; [congruence |].
      apply (Hcomplete entry c Hin Hc).
      destruct (seen (<[cwd := true]> seen0) c) eqn:E; [| reflexivity].
      apply seen_insert in E as [-> | E]; congruence.
    + intros c. rewrite Hseen, seen_insert. cbn [map]. rewrite elem_of_cons.
      cbn [s0 newSession Session.CWD]. tauto.
    + cbn [map]. constructor; assumption.
Qed.

(** X7.  [discoverCLISessions] returns one session for every directory
    that is not in the seen-set and for which some process is a candidate
    (a terminal, a command whose first word is [claude] or a path to it, a
    known working directory that is not empty): the session of the first
    such process in the order of [ps], with the source [CLI].  No two of
    its sessions share a directory, none is for a directory of the
    seen-set, and the seen-set it leaves is the one it was given with the
    directories of its sessions added. *)
Theorem discoverCLISessions_first_per_directory
  (entries : list psEntry.t) (cwdMap : gmap Z gostring)
  (seenCWDs : gmap gostring bool) :
  let sessions := fst (discoverCLISessions entries cwdMap seenCWDs) in
  let seen' := snd (discoverCLISessions entries cwdMap seenCWDs) in
  (forall s, s ∈ sessions ->
     seen seenCWDs (Session.CWD s) = false /\
     exists before entry after,
       entries = before ++ entry :: after /\
       cliDirectory cwdMap entry = Some (Session.CWD s) /\
       s = newSession (psEntry.PID entry) (Session.CWD s) (str "CLI")
             (ParseEtime (psEntry.Etime entry)) /\
       Forall (fun e => cliDirectory cwdMap e <> Some (Session.CWD s)) before) /\
  (forall entry cwd,
     entry ∈ entries -> cliDirectory cwdMap entry = Some cwd ->
     seen seenCWDs cwd = false -> cwd ∈ map Session.CWD sessions) /\
  (forall c, seen seen' c = true
             <-> seen seenCWDs c = true \/ c ∈ map Session.CWD sessions) /\
  NoDup (map Session.CWD sessions).
Proof.
  intros sessions seen'. unfold sessions, seen', discoverCLISessions.
  destruct (fold_cliCandidate cwdMap entries [] seenCWDs)
    as (new & seenCWDs' & -> & Hall & Hcomplete & Hseen & Hnd).
  cbn [app fst snd]. split; [| split; [| split]]; try assumption.
  intros s Hs. rewrite Forall_forall in Hall. now apply Hall.
Qed.

(** X8.  The inner loop of [discoverIDESessions] takes the first process
    without a terminal whose working directory starts with the workspace
    as a string, whatever follows it: there is one exactly when some entry
    has [TTY] [??] and such a working directory. *)
Theorem workspaceProcess_prefix (entries : list psEntry.t)
  (cwdMap : gmap Z gostring) (workspace : gostring) :
  (forall entry,
     workspaceProcess entries cwdMap workspace = Some entry ->
     exists before after suffix,
       entries = before ++ entry :: after /\
       psEntry.TTY entry = str "??" /\
       cwdMap !! psEntry.PID entry = Some (workspace ++ suffix) /\
       Forall (fun e =>
                 psEntry.TTY e <> str "??" \/
                 forall suffix', cwdMap !! psEntry.PID e <> Some (workspace ++ suffix'))
              before) /\
  (forall entry suffix,
     entry ∈ entries -> psEntry.TTY entry = str "??" ->
     cwdMap !! psEntry.PID entry = Some (workspace ++ suffix) ->
     is_Some (workspaceProcess entries cwdMap workspace)).
Proof.
  unfold workspaceProcess.
  set (f := fun entry : psEntry.t =>
              bool_decide (psEntry.TTY entry = str "??")
              && match cwdMap !! psEntry.PID entry with
                 | Some cwd => strings.HasPrefix cwd workspace
                 | None => false
                 end).
  assert (Hf : forall e, f e = true
                 <-> psEntry.TTY e = str "??" /\
                     exists suffix, cwdMap !! psEntry.PID e = Some (workspace ++ suffix)).
  { intros e. unfold f. rewrite andb_true_iff, bool_decide_eq_true.
    destruct (cwdMap !! psEntry.PID e) as [cwd |].
    - rewrite HasPrefix_app. split.
      + intros [H1 [r ->]]. split; [exact H1 | now exists r].
      + intros [H1 [r [= ->]]]. split; [exact H1 | now exists r].
    - split; [intros [_ H]; discriminate | intros [_ [r H]]; discriminate]. }
  split.
  - induction entries as [| e entries IH]; intros entry; cbn [List.find];
      [discriminate |].
    destruct (f e) eqn:E.
    + intros [= <-]. apply Hf in E as [H1 [suffix H2]].
      exists [], entries, suffix. repeat split; try assumption. constructor.
    + intros H. destruct (IH entry H) as (before & after & suffix & -> & H1 & H2 & H3).
      exists (e :: before), after, suffix. repeat split; try assumption.
      constructor; [| exact H3].
      destruct (decide (psEntry.TTY e = str "??")) as [Ht | Ht]; [right | now left].
      intros suffix' Hs. assert (f e = true) by (apply Hf; eauto). congruence.
  - intros entry suffix Hin Htty Hcwd.
    destruct (List.find f entries) eqn:E; [eauto |].
    apply list_elem_of_In in Hin. pose proof (find_none _ _ E entry Hin) as Hn.
    assert (f entry = true) by (apply Hf; eauto). congruence.
Qed.

(** ** [bufio.Scanner]: lines *)

Lemma rawLines_nil : bufio.rawLines [] = [].
Proof. reflexivity. Qed.

Lemma rawLines_cons line rest :
  NL ∉ line -> bufio.rawLines (line ++ NL :: rest) = line :: bufio.rawLines rest.
Proof.
  intros Hline. unfold bufio.rawLines.
  rewrite Split_app, (Split_no_sep line) by exact Hline.
  cbn [app rev].
  destruct (rev (strings.Split rest NL)) as [| x r] eqn:E.
  { apply (f_equal (@rev _)) in E. rewrite rev_involutive in E.
    now apply Split_not_nil in E. }
  cbn [app]. destruct x as [| c x].
  - rewrite rev_app_distr. reflexivity.
  - apply (f_equal (@rev _)) in E. rewrite rev_involutive in E. now rewrite E.
Qed.

Lemma rawLines_last line :
  line <> [] -> NL ∉ line -> bufio.rawLines line = [line].
Proof.
  intros Hne Hline. unfold bufio.rawLines.
  rewrite Split_no_sep by exact Hline. cbn [rev app].
  destruct line; [congruence | reflexivity].
Qed.

Lemma ScanLines_cons max line rest :
  NL ∉ line -> Z.of_nat (length line) < max ->
  bufio.ScanLines max (line ++ NL :: rest)
  = bufio.dropCR line :: bufio.ScanLines max rest.
Proof.
  intros Hline Hfit. unfold bufio.ScanLines.
  rewrite rawLines_cons by exact Hline. cbn [bufio.takeFitting].
  destruct (Z.ltb_spec (Z.of_nat (length line)) max); [reflexivity | lia].
Qed.

Lemma ScanLines_long max line rest :
  NL ∉ line -> max <= Z.of_nat (length line) ->
  bufio.ScanLines max (line ++ NL :: rest) = [] /\
  bufio.ScanLines max line = [].
Proof.
  intros Hline Hlong. unfold bufio.ScanLines. split.
  - rewrite rawLines_cons by exact Hline. cbn [bufio.takeFitting].
    destruct (Z.ltb_spec (Z.of_nat (length line)) max); [lia | reflexivity].
  - destruct line as [| c line]; [reflexivity |].
    rewrite rawLines_last by (try exact Hline; discriminate).
    cbn [bufio.takeFitting].
    destruct (Z.ltb_spec (Z.of_nat (length (c :: line))) max); [lia | reflexivity].
Qed.

Lemma ScanLines_unlines max ls rest :
  Forall (fun l => (NL ∉ l) /\ Z.of_nat (length l) < max) ls ->
  bufio.ScanLines max (unlines ls ++ rest)
  = map bufio.dropCR ls ++ bufio.ScanLines max rest.
Proof.
  induction 1 as [| l ls [Hl Hfit] _ IH]; [reflexivity |].
  unfold unlines. cbn [map concat]. rewrite <- !app_assoc. cbn [app].
  rewrite ScanLines_cons by assumption. cbn [map app]. f_equal. exact IH.
Qed.

(** ** No claude process *)

Lemma Index_infix s sub :
  is_Some (strings.Index s sub) <-> exists a b, s = a ++ sub ++ b.
Proof.
  induction s as [| c s IH]; cbn [strings.Index].
  - destruct (strings.HasPrefix [] sub) eqn:E.
    + apply HasPrefix_app in E as [r E]. split; [| now eexists].
      intros _. exists [], r. exact E.
    + split; [intros [? H]; discriminate |].
      intros (a & b & H). symmetry in H.
      apply app_eq_nil in H as [-> H]. apply app_eq_nil in H as [-> ->].
      discriminate.
  - destruct (strings.HasPrefix (c :: s) sub) eqn:E.
    + apply HasPrefix_app in E as [r E]. split; [| now eexists].
      intros _. exists [], r. exact E.
    + rewrite fmap_is_Some, IH. split.
      * intros (a & b & ->). now exists (c :: a), b.
      * intros (a & b & H). destruct a as [| d a].
        -- cbn [app] in H. assert (strings.HasPrefix (c :: s) sub = true)
             by (apply HasPrefix_app; now exists b).
           congruence.
        -- injection H as -> ->. now exists a, b.
Qed.

Lemma Contains_infix s sub :
  strings.Contains s sub = true <-> exists a b, s = a ++ sub ++ b.
Proof.
  unfold strings.Contains. rewrite bool_decide_eq_true. apply Index_infix.
Qed.

Lemma trimLeftSpace_suffix s k : exists a, s = a ++ strings.trimLeftSpace s k.
Proof.
  revert k. induction s as [| c s IH]; intros k; cbn [strings.trimLeftSpace].
  - now exists [].
  - destruct k as [| k].
    + destruct (strings.spaceWidth (c :: s)) as [| w].
      * now exists [].
      * destruct (IH w) as [a Ha]. exists (c :: a). cbn [app]. now f_equal.
    + destruct (IH k) as [a Ha]. exists (c :: a). cbn [app]. now f_equal.
Qed.

Lemma trimRightSpaceRev_suffix s k :
  exists a, s = a ++ strings.trimRightSpaceRev s k.
Proof.
  revert k. induction s as [| c s IH]; intros k; cbn [strings.trimRightSpaceRev].
  - now exists [].
  - destruct k as [| k].
    + destruct (strings.spaceWidthEnd (c :: s)) as [| w].
      * now exists [].
      * destruct (IH w) as [a Ha]. exists (c :: a). cbn [app]. now f_equal.
    + destruct (IH k) as [a Ha]. exists (c :: a). cbn [app]. now f_equal.
Qed.

(** [TrimSpace] cuts the text at both ends and nowhere else. *)
Lemma TrimSpace_infix s : exists a b, s = a ++ strings.TrimSpace s ++ b.
Proof.
  unfold strings.TrimSpace.
  destruct (trimLeftSpace_suffix s 0) as [a Ha].
  destruct (trimRightSpaceRev_suffix (rev (strings.trimLeftSpace s 0)) 0) as [b Hb].
  exists a, (rev b). rewrite <- rev_app_distr, <- Hb, rev_involutive. exact Ha.
Qed.

Lemma Contains_TrimSpace s sub :
  strings.Contains (strings.TrimSpace s) sub = true ->
  strings.Contains s sub = true.
Proof.
  rewrite !Contains_infix. intros (a & b & H).
  destruct (TrimSpace_infix s) as (x & y & E).
  exists (x ++ a), (b ++ y). rewrite E at 1. rewrite H.
  now rewrite <- !app_assoc.
Qed.

Lemma ParsePS_no_target output :
  (forall line, line ∈ strings.Split output NL ->
     strings.Contains line (str "claude") = false) ->
  ParsePS output = [].
Proof.
  intros Hnone. unfold ParsePS. rewrite fold_parsePSLine. cbn [app].
  induction (strings.Split output NL) as [| line lines IH]; [reflexivity |].
  cbn [map]. rewrite filter_cons.
  assert (Hline : psAccepted (strings.TrimSpace line) = false).
  { unfold psAccepted, psTarget.
    destruct (strings.Contains (strings.TrimSpace line) (str "claude")) eqn:E.
    - apply Contains_TrimSpace in E. rewrite Hnone in E by now left. discriminate.
    - now rewrite andb_false_r. }
  rewrite Hline. cbn. apply IH. intros l Hl. apply Hnone. now right.
Qed.

(** X9.  Where text follows the closing tag of an [<ide_selection>]
    wrapper, [CleanTopic] cleans that text and forgets the selection: the
    result is that of cleaning the trimmed text alone (which must not
    itself start with such a wrapper). *)
Theorem CleanTopic_selection_text (inner after : gostring) :
  strings.Index (inner ++ str "</ide_selection>" ++ after) (str "</ide_selection>")
  = Some (length inner) ->
  strings.TrimSpace after <> [] ->
  strings.HasPrefix (strings.TrimSpace after) (str "<ide_selection>") = false ->
  CleanTopic (str "<ide_selection>" ++ inner ++ str "</ide_selection>" ++ after)
  = CleanTopic (strings.TrimSpace after).
Proof.
  intros Hclose Hafter Hprefix.
  assert (Hstrip : stripIDESelectionTag
                     (str "<ide_selection>" ++ inner ++ str "</ide_selection>" ++ after)
                   = (strings.TrimSpace after, true)).
  { unfold stripIDESelectionTag.
    change (strings.HasPrefix (str "<ide_selection>" ++ _) (str "<ide_selection>"))
      with true. cbn [negb].
    rewrite Index_selection_close, Hclose. cbn [fmap option_fmap option_map].
    change (length (str "</ide_selection>")) with 16%nat.
    assert (Hdrop : forall a b c d : gostring,
              drop (length a + length b + length c) (a ++ b ++ c ++ d) = d).
    { intros a b c d. rewrite !app_assoc, <- !length_app. apply drop_app_length. }
    change (15 + length inner + 16)%nat
      with (length (str "<ide_selection>") + length inner
            + length (str "</ide_selection>"))%nat.
    rewrite Hdrop.
    now rewrite bool_decide_eq_false_2 by exact Hafter. }
  unfold CleanTopic at 1. rewrite Hstrip.
  rewrite (bool_decide_eq_false_2 (_ ++ _ = [])) by discriminate.
  rewrite (bool_decide_eq_false_2 (strings.TrimSpace after = [])) by exact Hafter.
  cbn [andb]. unfold CleanTopic.
  rewrite (bool_decide_eq_false_2 (strings.TrimSpace after = [])) by exact Hafter.
  unfold stripIDESelectionTag at 1. rewrite Hprefix. cbn [negb andb]. reflexivity.
Qed.

(** [CleanTopic_selection_text] at a selection followed by a request. *)
Lemma CleanTopic_selection_text_witness :
  CleanTopic (str "<ide_selection>some code here</ide_selection> Fix the bug")
  = CleanTopic (str "Fix the bug").
Proof.
  apply (CleanTopic_selection_text (str "some code here") (str " Fix the bug"));
    [reflexivity | discriminate | reflexivity].
Defined.

(** ** [stripXMLAndNoise]: the shape of a topic *)

Lemma spaceWidth_zero s :
  strings.spaceWidth s = 0%nat
  <-> forall p, In p strings.spaceRunes -> strings.startsWith s p = false.
Proof.
  unfold strings.spaceWidth. split.
  - destruct (find _ _) as [p |] eqn:E.
    + apply find_some in E as [Hin _]. intros Hlen. exfalso.
      assert (Hpos : forallb (fun p => negb (length p =? 0)%nat) strings.spaceRunes = true)
        by reflexivity.
      rewrite forallb_forall in Hpos. specialize (Hpos p Hin).
      rewrite Hlen in Hpos. discriminate.
    + intros _ p Hin. now apply (find_none _ _ E).
  - intros Hnone. destruct (find _ _) as [p |] eqn:E; [| reflexivity].
    apply find_some in E as [Hin Hp]. rewrite Hnone in Hp by exact Hin.
    discriminate.
Qed.

Lemma startsWith_tail x t t' p :
  Forall (fun k => k <> 32) p ->
  t' = [] \/ (exists r, t' = SP :: r) ->
  strings.startsWith (x ++ t') p = true -> strings.startsWith (x ++ t) p = true.
Proof.
  intros Hp Ht'. revert x. induction Hp as [| k p Hk _ IH]; intros x; [reflexivity |].
  destruct x as [| d x]; cbn [app].
  - destruct Ht' as [-> | [r ->]]; cbn [strings.startsWith]; [discriminate |].
    change (code SP) with 32. destruct (Z.eqb_spec 32 k); [congruence | discriminate].
  - cbn [strings.startsWith]. rewrite !andb_true_iff. intros [H1 H2].
    split; [exact H1 | now apply IH].
Qed.

(** A white-space rune that starts at a byte of a word does so whatever
    follows the word, as far as that is nothing or a space. *)
Lemma spaceWidth_tail c h t t' :
  strings.spaceWidth (c :: h ++ t) = 0%nat ->
  t' = [] \/ (exists r, t' = SP :: r) ->
  strings.spaceWidth (c :: h ++ t') = 0%nat.
Proof.
  rewrite !spaceWidth_zero. intros Hnone Ht' p Hin.
  destruct (strings.startsWith (c :: h ++ t') p) eqn:E; [| reflexivity].
  rewrite <- (Hnone p Hin).
  assert (Htails : forallb (fun p => forallb (fun k => negb (k =? 32)) (tl p))
                           strings.spaceRunes = true) by reflexivity.
  rewrite forallb_forall in Htails. specialize (Htails p Hin).
  destruct p as [| k p]; [reflexivity |].
  cbn [tl] in Htails. cbn [strings.startsWith] in E |- *.
  apply andb_true_iff in E as [E1 E2]. rewrite E1. cbn [andb]. symmetry.
  apply (startsWith_tail h t t' p); [| exact Ht' | exact E2].
  rewrite forallb_forall in Htails. apply Forall_forall. intros k' Hk'.
  apply list_elem_of_In in Hk'. specialize (Htails k' Hk').
  apply negb_true_iff, Z.eqb_neq in Htails. exact Htails.
Qed.

Lemma splitSpace_prefix r h t :
  strings.splitSpace r 0 = h :: t -> exists tail, r = h ++ tail.
Proof.
  revert h t. induction r as [| c r IH]; intros h t; cbn [strings.splitSpace].
  - intros [= <- <-]. now exists [].
  - destruct (strings.spaceWidth (c :: r)) as [| k].
    + destruct (strings.splitSpace r 0) as [| h' t'] eqn:E.
      * intros [= <- <-]. now exists r.
      * intros [= <- <-]. destruct (IH h' t' eq_refl) as [tail ->].
        now exists tail.
    + intros [= <- _]. now exists (c :: r).
Qed.

Lemma word_nil : word [].
Proof. intros a c b t' E. now destruct a. Qed.

Lemma splitSpace_words s k : Forall word (strings.splitSpace s k).
Proof.
  revert k. induction s as [| c r IH]; intros k; cbn [strings.splitSpace].
  - constructor; [apply word_nil | constructor].
  - destruct k as [| k]; [| apply IH].
    destruct (strings.spaceWidth (c :: r)) as [| w] eqn:E.
    + pose proof (IH 0%nat) as Hr.
      destruct (strings.splitSpace r 0) as [| h t] eqn:Es.
      { now apply splitSpace_not_nil in Es. }
      destruct (splitSpace_prefix r h t Es) as [tail ->].
      apply Forall_cons in Hr as [Hh Ht]. constructor; [| exact Ht].
      intros a x b t' Hsplit Ht'. destruct a as [| y a].
      * injection Hsplit as <- <-. now apply (spaceWidth_tail c h tail t').
      * injection Hsplit as <- ->. now apply (Hh a x b t').
    + constructor; [apply word_nil | apply IH].
Qed.

Lemma Fields_words s :
  Forall (fun f => word f /\ f <> []) (strings.Fields s).
Proof.
  unfold strings.Fields. apply Forall_forall. intros f Hf.
  apply list_elem_of_In, filter_In in Hf as [Hin Hne].
  split.
  - pose proof (splitSpace_words s 0) as H. rewrite Forall_forall in H.
    apply H. now apply list_elem_of_In.
  - now destruct f.
Qed.

Lemma singleSpacesFrom_word w rest b :
  word w -> w <> [] -> rest = [] \/ (exists r, rest = SP :: r) ->
  singleSpacesFrom (w ++ rest) b = singleSpacesFrom rest false.
Proof.
  intros Hw Hne Hrest. revert b.
  induction w as [| c w IH]; intros b; [congruence |].
  cbn [app singleSpacesFrom].
  rewrite (Hw [] c w rest eq_refl Hrest).
  destruct w as [| d w]; [reflexivity |].
  apply IH; [| discriminate].
  intros a x y t' E. apply (Hw (c :: a) x y t'). cbn [app]. now f_equal.
Qed.

Lemma Join_words_nonempty ws :
  Forall (fun f => word f /\ f <> []) ws -> ws <> [] ->
  strings.Join ws [SP] <> [].
Proof.
  intros Hws Hne. destruct ws as [| w ws]; [congruence |].
  apply Forall_cons in Hws as [[_ Hw] _].
  destruct ws; cbn [strings.Join]; destruct w; cbn; congruence.
Qed.

Lemma singleSpaces_words ws b :
  Forall (fun f => word f /\ f <> []) ws ->
  ws = [] \/ singleSpacesFrom (strings.Join ws [SP]) b = true.
Proof.
  intros Hws. revert b. induction Hws as [| w ws [Hw Hne] Hws IH]; intros b;
    [now left |].
  right. destruct ws as [| w' ws].
  - cbn [strings.Join]. rewrite <- (app_nil_r w).
    rewrite singleSpacesFrom_word by (try assumption; now left). reflexivity.
  - rewrite Join_cons by discriminate. cbn [app].
    rewrite singleSpacesFrom_word by (try assumption; right; now eexists).
    cbn [singleSpacesFrom].
    rewrite spaceWidth_ascii by (vm_compute; reflexivity).
    change (strings.asciiSpace SP) with true. cbn iota.
    rewrite byte_eqb_refl. cbn [negb andb].
    destruct (IH true) as [H | H]; [discriminate | exact H].
Qed.

(** The white space of a joined text is its separators. *)
Lemma Join_words_space ws a q :
  Forall (fun f => word f /\ f <> []) ws ->
  strings.Join ws [SP] = a ++ q -> q <> [] ->
  strings.spaceWidth q <> 0%nat ->
  exists q', q = SP :: q' /\ q' <> [].
Proof.
  intros Hws. revert a. induction Hws as [| w ws [Hw Hne] Hws IH]; intros a E Hq Hsp.
  { cbn in E. symmetry in E. apply app_eq_nil in E as [_ ->]. congruence. }
  assert (Hcases : exists rest,
             strings.Join (w :: ws) [SP] = w ++ rest /\
             (rest = [] \/
              rest = SP :: strings.Join ws [SP] /\ ws <> [])).
  { destruct ws as [| w' ws].
    - exists []. cbn [strings.Join]. rewrite app_nil_r. split; [reflexivity | now left].
    - exists (SP :: strings.Join (w' :: ws) [SP]).
      rewrite Join_cons by discriminate. split; [reflexivity |]. right.
      split; [reflexivity | discriminate]. }
  destruct Hcases as (rest & Hjoin & Hrest). rewrite Hjoin in E.
  symmetry in E. apply app_eq_app in E as [l [[-> E2] | [-> ->]]].
  - destruct Hrest as [-> | [-> Hws']].
    + symmetry in E2. apply app_eq_nil in E2 as [_ ->]. congruence.
    + destruct l as [| x l].
      * cbn [app] in E2. subst q. eexists. split; [reflexivity |].
        now apply Join_words_nonempty.
      * injection E2 as <- E2. now apply (IH l).
  - destruct l as [| c l].
    + cbn [app] in Hsp, Hq |- *. destruct Hrest as [-> | [-> Hws']]; [congruence |].
      eexists. split; [reflexivity |]. now apply Join_words_nonempty.
    + exfalso. apply Hsp. cbn [app].
      apply (Hw a c l rest eq_refl).
      destruct Hrest as [-> | [-> _]]; [now left | right; now eexists].
Qed.

Lemma startsWith_split s p :
  strings.startsWith s p = true -> exists x y, s = x ++ y /\ map code x = p.
Proof.
  revert s. induction p as [| k p IH]; intros s; cbn [strings.startsWith].
  - intros _. now exists [], s.
  - destruct s as [| c s]; [discriminate |].
    rewrite andb_true_iff. intros [Hc Hs]. apply Z.eqb_eq in Hc.
    destruct (IH s Hs) as (x & y & -> & <-). exists (c :: x), y.
    split; [reflexivity |]. cbn [map]. now rewrite Hc.
Qed.

Lemma startsWith_codes q z : strings.startsWith (q ++ z) (map code q) = true.
Proof.
  induction q as [| c q IH]; [reflexivity |].
  cbn [app map strings.startsWith]. now rewrite Z.eqb_refl, IH.
Qed.

Lemma trimmed_words ws :
  Forall (fun f => word f /\ f <> []) ws ->
  trimmed (strings.Join ws [SP]) = true.
Proof.
  intros Hws. unfold trimmed. apply andb_true_iff. split; apply Nat.eqb_eq.
  - destruct Hws as [| w ws [Hw Hne] Hws]; [reflexivity |].
    destruct w as [| c b]; [congruence |].
    destruct ws as [| w' ws].
    + cbn [strings.Join]. rewrite <- (app_nil_r b).
      apply (Hw [] c b [] eq_refl). now left.
    + rewrite Join_cons by discriminate. cbn [app].
      apply (Hw [] c b _ eq_refl). right. now eexists.
  - unfold strings.spaceWidthEnd.
    destruct (find _ _) as [p |] eqn:E; [exfalso | reflexivity].
    apply find_some in E as [Hin Hp].
    apply startsWith_split in Hp as (x & y & Hrev & Hcodes).
    assert (HJ : strings.Join ws [SP] = rev y ++ rev x).
    { rewrite <- rev_app_distr, <- Hrev. now rewrite rev_involutive. }
    assert (Hq : map code (rev x) = p).
    { rewrite map_rev, Hcodes. apply rev_involutive. }
    assert (Hshape : forallb (fun p => negb (length p =? 0)%nat
                                       && negb ((hd 0 p =? 32) && (2 <=? length p)%nat))
                             strings.spaceRunes = true) by reflexivity.
    rewrite forallb_forall in Hshape. specialize (Hshape p Hin).
    apply andb_true_iff in Hshape as [Hlen Hhead].
    assert (Hne : rev x <> []).
    { intros H. rewrite H in Hq. cbn in Hq. subst p. discriminate. }
    destruct (Join_words_space ws (rev y) (rev x) Hws HJ Hne) as (q' & Hx & Hq').
    + intros H0. rewrite spaceWidth_zero in H0. specialize (H0 p Hin).
      rewrite <- Hq, <- (app_nil_r (rev x)) in H0 at 1.
      now rewrite startsWith_codes in H0.
    + rewrite Hx in Hq. cbn [map] in Hq. subst p.
      destruct q' as [| d q']; [congruence |]. discriminate.
Qed.

(** X10.  What [stripXMLAndNoise] returns has no white space at either
    end and no white space inside other than single spaces between words,
    hence no line feed; and this is what [CleanTopic] returns for a prompt
    that starts with neither IDE wrapper. *)
Theorem stripXMLAndNoise_normal (prompt : gostring) :
  let topic := stripXMLAndNoise prompt in
  singleSpaces topic = true /\
  trimmed topic = true /\
  (NL ∉ topic) /\
  (strings.HasPrefix prompt (str "<ide_selection>") = false ->
   strings.HasPrefix prompt (str "<ide_opened_file>") = false ->
   CleanTopic prompt = topic).
Proof.
  intros topic. unfold topic, stripXMLAndNoise.
  set (text := regexp.removeMatches noiseRegex _ true 0).
  pose proof (Fields_words text) as Hws.
  assert (Hsingle : singleSpaces (strings.Join (strings.Fields text) (str " ")) = true).
  { unfold singleSpaces. change (str " ") with [SP].
    destruct (singleSpaces_words (strings.Fields text) false Hws) as [-> | H];
      [reflexivity | exact H]. }
  split; [exact Hsingle |]. split; [now apply trimmed_words |].
  split; [now apply (singleSpaces_no_NL _ false) |].
  intros Hsel Hopen. unfold CleanTopic.
  case_bool_decide as Hempty; [subst prompt; reflexivity |].
  unfold stripIDESelectionTag. rewrite Hsel. cbn [negb andb].
  unfold stripIDEOpenedFileTag. rewrite Hopen. cbn [negb]. reflexivity.
Qed.

(** ** [stripXMLAndNoise]: no tag is left *)














(** X12.  [truncateString] returns the empty string for a width of zero
    or less and the string itself when its bytes fit the width; otherwise
    the first [maxLen - 1] bytes followed by the three bytes of the
    ellipsis, [maxLen + 2] bytes in all.  Truncating the result again to
    the same width changes nothing. *)
Theorem truncateString_fits (s : gostring) (maxLen : Z) :
  let r := tui.truncateString s maxLen in
  tui.truncateString r maxLen = r /\
  (maxLen <= 0 -> r = []) /\
  (Z.of_nat (length s) <= maxLen -> r = s) /\
  (0 < maxLen < Z.of_nat (length s) ->
     r = take (Z.to_nat (maxLen - 1)) s ++ tui.ellipsis /\
     Z.of_nat (length r) = maxLen + 2).
Proof.
  intros r. unfold r, tui.truncateString.
  destruct (Z.leb_spec maxLen 0) as [H0 | H0].
  { repeat split; try lia; try reflexivity.
    - intros Hs. destruct s; [reflexivity | cbn in Hs; lia]. }
  destruct (Z.leb_spec (Z.of_nat (length s)) maxLen) as [Hs | Hs].
  { repeat split; try lia; try reflexivity.
    destruct (Z.leb_spec (Z.of_nat (length s)) maxLen); [reflexivity | lia]. }
  destruct (Z.leb_spec maxLen 1) as [H1 | H1].
  { assert (maxLen = 1) by lia. subst maxLen. repeat split; try lia; reflexivity. }
  assert (Hlen : length (take (Z.to_nat (maxLen - 1)) s) = Z.to_nat (maxLen - 1)).
  { rewrite length_take. lia. }
  repeat split; try lia.
  - rewrite length_app, Hlen. cbn [length tui.ellipsis].
    destruct (Z.leb_spec (Z.of_nat (Z.to_nat (maxLen - 1) + 3)) maxLen); [lia |].
    rewrite <- Hlen at 1. now rewrite take_app_length.
  - rewrite length_app, Hlen. cbn [length tui.ellipsis]. lia.
Qed.

(** X13.  For a terminal of at least [minTerminalWidth] columns the widths
    [computeColumnWidths] returns add up, with the spacing it reserves
    (and two more columns for the branch when there is one), to exactly the
    width of the terminal; the project and topic columns keep their minimum
    widths, and the branch column appears from 104 columns on. *)
Theorem computeColumnWidths_fills (terminalWidth : Z) :
  tui.minTerminalWidth <= terminalWidth < 2 ^ 57 ->
  let cw := tui.computeColumnWidths terminalWidth in
  tui.state cw + tui.source cw + tui.project cw + tui.topic cw + tui.dur cw
  + tui.fixedColumnSpacing
  + (if 0 <? tui.branch cw then tui.branch cw + 2 else 0)
  = terminalWidth /\
  tui.minProjectColWidth <= tui.project cw /\
  tui.minTopicColWidth <= tui.topic cw /\
  tui.branch cw = (if 103 <? terminalWidth then 16 else 0).
Proof.
  intros [Hmin Hmax]. unfold tui.minTerminalWidth in Hmin.
  assert (H57 : 2 ^ 57 = 144115188075855872) by reflexivity.
  unfold tui.computeColumnWidths, tui.sub, int64.add, int64.mul,
    tui.fixedColumnSpacing, tui.branchColThreshold, tui.projectWidthPercent,
    tui.minProjectColWidth, tui.minTopicColWidth.
  change (int64.wrap (16 + 2)) with 18.
  rewrite (int64_wrap_small (terminalWidth - 3)) by (unfold int64.inRange; lia).
  rewrite (int64_wrap_small (terminalWidth - 3 - 7))
    by (unfold int64.inRange; lia).
  rewrite (int64_wrap_small (terminalWidth - 3 - 7 - 7))
    by (unfold int64.inRange; lia).
  rewrite (int64_wrap_small (terminalWidth - 3 - 7 - 7 - 6))
    by (unfold int64.inRange; lia).
  destruct (Z.ltb_spec 80 (terminalWidth - 3 - 7 - 7 - 6)) as [Hb | Hb].
  - rewrite (int64_wrap_small (terminalWidth - 3 - 7 - 7 - 6 - 18))
      by (unfold int64.inRange; lia).
    set (r := terminalWidth - 3 - 7 - 7 - 6 - 18).
    assert (Hr : 63 <= r < 2 ^ 57) by (unfold r; lia).
    rewrite (int64_wrap_small (r * 35)) by (unfold int64.inRange; lia).
    rewrite Z.quot_div_nonneg by lia.
    assert (Hq : 22 <= r * 35 / 100 /\ r * 35 / 100 * 100 <= r * 35).
    { split; [apply Z.div_le_lower_bound; lia |].
      rewrite Z.mul_comm. apply Z.mul_div_le. lia. }
    rewrite (int64_wrap_small (r - r * 35 / 100)) by (unfold int64.inRange; lia).
    destruct (Z.ltb_spec (r * 35 / 100) 10); [lia |].
    destruct (Z.ltb_spec (r - r * 35 / 100) 15); [lia |].
    cbn [tui.state tui.source tui.project tui.topic tui.dur tui.branch].
    destruct (Z.ltb_spec 103 terminalWidth); [| lia].
    repeat split; try lia. unfold r. cbn. lia.
  - set (r := terminalWidth - 3 - 7 - 7 - 6) in *.
    assert (Hr : 37 <= r <= 80) by (unfold r; lia).
    rewrite (int64_wrap_small (r * 35)) by (unfold int64.inRange; lia).
    rewrite Z.quot_div_nonneg by lia.
    assert (Hq : 12 <= r * 35 / 100 /\ r * 35 / 100 * 100 <= r * 35).
    { split; [apply Z.div_le_lower_bound; lia |].
      rewrite Z.mul_comm. apply Z.mul_div_le. lia. }
    rewrite (int64_wrap_small (r - r * 35 / 100)) by (unfold int64.inRange; lia).
    destruct (Z.ltb_spec (r * 35 / 100) 10); [lia |].
    destruct (Z.ltb_spec (r - r * 35 / 100) 15); [lia |].
    cbn [tui.state tui.source tui.project tui.topic tui.dur tui.branch].
    destruct (Z.ltb_spec 103 terminalWidth); [lia |].
    repeat split; try lia. unfold r. cbn. lia.
Qed.

(** [computeColumnWidths_fills] at the 120 columns of [runOnce]. *)
Lemma computeColumnWidths_fills_witness :
  let cw := tui.computeColumnWidths 120 in
  tui.state cw + tui.source cw + tui.project cw + tui.topic cw + tui.dur cw
  + tui.fixedColumnSpacing
  + (if 0 <? tui.branch cw then tui.branch cw + 2 else 0)
  = 120.
Proof.
  intros cw. destruct (computeColumnWidths_fills 120) as [H _];
    [vm_compute; split; [discriminate | reflexivity] | exact H].
Defined.

Lemma fold_countStates sessions a w i :
  0 <= a -> 0 <= w -> 0 <= i ->
  a + w + i + Z.of_nat (length sessions) <= strconv.maxInt ->
  let count state :=
    Z.of_nat (length (filter (fun s => Session.State s = state) sessions)) in
  fold_left
    (fun counts s =>
       let '(activeCount, waitingCount, idleCount) := counts in
       match Session.State s with
       | StateActive => (int64.add activeCount 1, waitingCount, idleCount)
       | StateWaiting => (activeCount, int64.add waitingCount 1, idleCount)
       | StateIdle => (activeCount, waitingCount, int64.add idleCount 1)
       | _ => counts
       end)
    sessions (a, w, i)
  = (a + count StateActive, w + count StateWaiting, i + count StateIdle).
Proof.
  revert a w i. induction sessions as [| s sessions IH]; intros a w i Ha Hw Hi Hfit count.
  - unfold count. cbn. now rewrite !Z.add_0_r.
  - cbn [fold_left]. unfold count. rewrite !filter_cons.
    cbn [length] in Hfit. unfold strconv.maxInt in *.
    assert (H63 : 2 ^ 63 = 9223372036854775808) by reflexivity.
    assert (H3 : forall x x' y y' z z' : Z,
              x = x' -> y = y' -> z = z' -> (x, y, z) = (x', y', z'))
      by congruence.
    destruct (Session.State s) eqn:E; unfold int64.add;
      try rewrite int64_wrap_small by (unfold int64.inRange; lia);
      rewrite IH by lia;
      repeat match goal with
             | |- context [decide (?x = ?y)] =>
                 destruct (decide (x = y)); try discriminate; try congruence
             end;
      cbn [length]; apply H3; lia.
Qed.

(** X14.  [countStates] counts the sessions that are Active, Waiting and
    Idle.  A session in any other state is in none of the three counts, so
    they add up to the number of sessions only when no session awaits
    input. *)
Theorem countStates_partition (sessions : list Session.t) :
  Z.of_nat (length sessions) <= strconv.maxInt ->
  let count state :=
    Z.of_nat (length (filter (fun s => Session.State s = state) sessions)) in
  tui.countStates sessions
  = (count StateActive, count StateWaiting, count StateIdle) /\
  count StateActive + count StateWaiting + count StateIdle + count StateInput
  = Z.of_nat (length sessions).
Proof.
  intros Hfit count. split.
  - unfold tui.countStates. rewrite fold_countStates by lia. reflexivity.
  - unfold count. clear Hfit count.
    induction sessions as [| s sessions IH]; [reflexivity |].
    rewrite !filter_cons. cbn [length].
    destruct (Session.State s);
      repeat match goal with
             | |- context [decide (?x = ?y)] =>
                 destruct (decide (x = y)); try discriminate; try congruence
             end;
      cbn [length]; lia.
Qed.

(** [countStates_partition] at three sessions, one of which awaits input. *)
Lemma countStates_partition_witness :
  tui.countStates
    [newSession 1 (str "/a") (str "CLI") 0;
     setState (newSession 2 (str "/b") (str "CLI") 0) StateInput;
     setState (newSession 3 (str "/c") (str "CLI") 0) StateIdle]
  = (1, 0, 1).
Proof.
  destruct (countStates_partition
              [newSession 1 (str "/a") (str "CLI") 0;
               setState (newSession 2 (str "/b") (str "CLI") 0) StateInput;
               setState (newSession 3 (str "/c") (str "CLI") 0) StateIdle])
    as [H _]; [vm_compute; discriminate | exact H].
Defined.

(** ** [ParsePS]: the fields of an entry *)

Lemma splitSpace_word f : word f -> strings.splitSpace f 0 = [f].
Proof.
  induction f as [| c f IH]; intros Hw; [reflexivity |].
  cbn [strings.splitSpace].
  pose proof (Hw [] c f [] eq_refl (or_introl eq_refl)) as Hc.
  rewrite app_nil_r in Hc. rewrite Hc.
  rewrite IH; [reflexivity |].
  intros a x b t' E. apply (Hw (c :: a) x b t'). cbn [app]. now f_equal.
Qed.

Lemma Fields_word f : word f -> f <> [] -> strings.Fields f = [f].
Proof.
  intros Hw Hne. unfold strings.Fields. rewrite splitSpace_word by exact Hw.
  destruct f; [congruence | reflexivity].
Qed.

(** X24.  Every entry [ParsePS] returns has an elapsed time and a terminal
    that are one white-space-free, non-empty field each, and a command
    that is not empty and is already normalised: it has no leading,
    trailing or repeated white space, so collapsing its white space
    leaves it as it is. *)
Theorem ParsePS_entries (output : gostring) :
  Forall (fun entry =>
            strings.Fields (psEntry.Etime entry) = [psEntry.Etime entry] /\
            strings.Fields (psEntry.TTY entry) = [psEntry.TTY entry] /\
            psEntry.Command entry <> [] /\
            strings.Join (strings.Fields (psEntry.Command entry)) (str " ")
            = psEntry.Command entry)
         (ParsePS output).
Proof.
  unfold ParsePS. rewrite fold_parsePSLine. cbn [app].
  apply Forall_forall. intros e He.
  apply list_elem_of_fmap in He as (line & -> & Hline).
  apply list_elem_of_filter in Hline as [Hacc _].
  unfold psAccepted in Hacc. apply Is_true_true in Hacc.
  apply andb_true_iff in Hacc as [_ Hwf].
  unfold psWellFormed in Hwf. apply andb_true_iff in Hwf as [Hlen _].
  apply Nat.leb_le in Hlen.
  pose proof (Fields_words line) as Hws.
  unfold psEntryOf. cbn [psEntry.Etime psEntry.TTY psEntry.Command].
  destruct (strings.Fields line) as [| f0 [| f1 [| f2 [| f3 rest]]]];
    cbn [length] in Hlen; try lia.
  apply Forall_cons in Hws as [_ Hws].
  apply Forall_cons in Hws as [[Hw1 Hn1] Hws].
  apply Forall_cons in Hws as [[Hw2 Hn2] Hws].
  cbn [nth drop].
  repeat split.
  - now apply Fields_word.
  - now apply Fields_word.
  - now apply Join_words_nonempty.
  - apply Fields_Join_single.
    + destruct (singleSpaces_words (f3 :: rest) false Hws) as [? | H];
        [discriminate | exact H].
    + now apply trimmed_words.
Qed.

(** ** The engine, further *)

Section FurtherEngineProperties.

Context {json : JSON} {sorting : Sort}.

(** X15.  [DetectState] opens the transcript at most once, and not at all
    when it was modified less than 30 seconds ago; it leaves the cache as it
    is, and its answer does not depend on the cache or on what was read
    before. *)
Theorem DetectState_reads_once (fs : os.FS) (path : gostring)
  (mtime now : time.Time) (st st' : Store) :
  snd (DetectState fs path mtime now st)
  = mkStore (metadataCache st)
      (accesses st ++ (if now - mtime <? 30 * time.Second then [] else [Open path])) /\
  fst (DetectState fs path mtime now st) = fst (DetectState fs path mtime now st').
Proof.
  split; [| apply DetectState_value].
  pose proof (DetectState_accesses fs path mtime now st) as Ha.
  pose proof (cacheFixed_DetectState fs path mtime now st) as Hc.
  rewrite time_Sub_ltb in Ha by (vm_compute; split; [reflexivity | discriminate]).
  destruct (snd (DetectState fs path mtime now st)) as [c a].
  cbn [metadataCache accesses] in Ha, Hc. now subst.
Qed.

(** X16.  Every session [DiscoverAll] returns stands for a claude process
    of the process table: it has the PID of an entry of [ParsePS], the
    duration [ParseEtime] reads from that entry's elapsed time, and the
    project label of its own working directory; a session whose source is
    not [CLI] comes from a process without a terminal. *)
Theorem DiscoverAll_sessions_are_processes (w : World) (st : Store)
  (s : Session.t) :
  s ∈ fst (DiscoverAll w st) ->
  exists entry,
    entry ∈ ParsePS (runPS w) /\
    Session.PID s = psEntry.PID entry /\
    Session.Duration s = ParseEtime (psEntry.Etime entry) /\
    Session.Project s = ShortProjectName (Session.CWD s) /\
    (Session.Source s = Source.mk (str "CLI") \/ psEntry.TTY entry = str "??").
Proof.
  intros Hs.
  destruct (DiscoverAll_run w st) as (seenCWDs & _ & Hrun). cbv zeta in Hrun.
  set (entries := ParsePS (runPS w)) in *.
  set (cwdMap := BatchResolveCWDs w entries) in *.
  set (ide := fst (discoverIDESessions w _ entries cwdMap st)) in *.
  set (cli := fst (discoverCLISessions entries cwdMap seenCWDs)) in *.
  apply list_elem_of_lookup in Hs as [i Hi].
  destruct (Forall2_lookup_r _ _ _ _ _ Hrun Hi) as (s0 & Hs0 & Henr).
  destruct (enriched_keeps _ _ Henr) as (Hpid & Hcwd & Hsrc & Hproj & Hdur).
  rewrite Hpid, Hcwd, Hsrc, Hproj, Hdur.
  apply list_elem_of_lookup_2 in Hs0. apply elem_of_app in Hs0 as [Hin | Hin].
  - pose proof (discoverIDESessions_sessions w
                  (filepath.Join [HOME w; str ".claude"]) entries cwdMap st) as Hide.
    fold ide in Hide. rewrite Forall_forall in Hide.
    destruct (Hide s0 Hin)
      as (path & file & lockFile & workspace & rest & entry & _ & _ & _ & _ & _ & Hproc & ->).
    unfold workspaceProcess in Hproc. apply find_some in Hproc as [Hentry Hf].
    apply andb_true_iff in Hf as [Htty _]. apply bool_decide_eq_true in Htty.
    exists entry. split; [now apply list_elem_of_In |]. repeat split. now right.
  - destruct (discoverCLISessions_sessions entries cwdMap seenCWDs) as [Hcli _].
    fold cli in Hcli. rewrite Forall_forall in Hcli.
    destruct (Hcli s0 Hin) as [(entry & command & rest & Hentry & _ & _ & _ & _ & E) _].
    exists entry. split; [exact Hentry |]. rewrite E. repeat split. now left.
Qed.

(** X17.  When no line of the output of [ps] holds the word [claude] (in
    particular when [ps] fails), [DiscoverAll] returns no session and
    neither reads a file nor touches the cache. *)
Theorem DiscoverAll_no_claude (w : World) (st : Store) :
  (forall line, line ∈ strings.Split (runPS w) NL ->
     strings.Contains line (str "claude") = false) ->
  DiscoverAll w st = ([], st).
Proof.
  intros Hnone. unfold DiscoverAll.
  rewrite (ParsePS_no_target _ Hnone). reflexivity.
Qed.

Lemma ideLock_run w entries cwdMap sessions path st :
  ideLock w entries cwdMap sessions path st
  = (sessions ++ option_list (lockSession w entries cwdMap path),
     mkStore (metadataCache st) (accesses st ++ [ReadFile path])).
Proof.
  unfold ideLock, lockSession. rewrite mbind_run, os_ReadFile_run. cbn [fst snd].
  destruct (os.files (fileSystem w) !! path) as [file |];
    cbn [fmap option_fmap option_map mbind option_bind];
    [| now rewrite mret_run, app_nil_r].
  destruct (Unmarshal_ideLockFile (os.contents file)) as [lockFile |];
    cbn [mbind option_bind]; [| now rewrite mret_run, app_nil_r].
  destruct (ideLockFile.WorkspaceFolders lockFile) as [| workspace rest];
    cbn [head mbind option_bind]; [now rewrite mret_run, app_nil_r |].
  unfold isProcessAlive.
  destruct (ideLockFile.PID lockFile =? 0); cbn [orb];
    [now rewrite mret_run, app_nil_r |].
  destruct (processAlive w (ideLockFile.PID lockFile)); cbn [negb];
    [| now rewrite mret_run, app_nil_r].
  destruct (workspaceProcess entries cwdMap workspace) as [entry |];
    cbn [mbind option_bind option_list]; rewrite mret_run;
    [reflexivity | now rewrite app_nil_r].
Qed.

Lemma foldM_ideLock w entries cwdMap paths sessions st :
  foldM (ideLock w entries cwdMap) paths sessions st
  = (sessions ++ omap (lockSession w entries cwdMap) paths,
     mkStore (metadataCache st) (accesses st ++ map ReadFile paths)).
Proof.
  revert sessions st. induction paths as [| path paths IH]; intros sessions st;
    cbn [foldM omap map].
  - rewrite mret_run. cbn [omap map]. rewrite !app_nil_r. destruct st; reflexivity.
  - rewrite mbind_run, ideLock_run, IH.
    cbn [fst snd metadataCache accesses list_omap].
    rewrite <- !app_assoc. cbn [app].
    now destruct (lockSession w entries cwdMap path).
Qed.

(** X18.  [discoverIDESessions] asks for the lock files once, reads each of
    them once, in the order of the answer, and nothing else; its sessions
    are those the lock files give, in that order, at most one for each
    lock file.  It leaves the cache as it is. *)
Theorem discoverIDESessions_lock_files (w : World) (claudeDir : gostring)
  (entries : list psEntry.t) (cwdMap : gmap Z gostring) (st : Store) :
  let pattern :=
    filepath.Join [filepath.Join [claudeDir; str "ide"]; str "*.lock"] in
  let lockFiles := default [] (os.Glob (fileSystem w) pattern) in
  let sessions := omap (lockSession w entries cwdMap) lockFiles in
  discoverIDESessions w claudeDir entries cwdMap st
  = (sessions,
     mkStore (metadataCache st)
       (accesses st ++ Glob pattern :: map ReadFile lockFiles)) /\
  (length sessions <= length lockFiles)%nat.
Proof.
  intros pattern lockFiles sessions. split.
  - unfold discoverIDESessions. fold pattern.
    rewrite mbind_run, filepath_Glob_run. cbn [fst snd].
    unfold sessions, lockFiles.
    destruct (os.Glob (fileSystem w) pattern) as [[| path paths] |];
      cbn [default]; try (rewrite mret_run; reflexivity).
    rewrite foldM_ideLock. cbn [app metadataCache accesses].
    now rewrite <- app_assoc.
  - unfold sessions. generalize lockFiles. intros l.
    induction l as [| path l IH]; [reflexivity |].
    change (omap (lockSession w entries cwdMap) (path :: l))
      with (match lockSession w entries cwdMap path with
            | Some s => s :: omap (lockSession w entries cwdMap) l
            | None => omap (lockSession w entries cwdMap) l
            end).
    destruct (lockSession w entries cwdMap path); cbn [length]; lia.
Qed.

Lemma firstPromptOf_length lines : (length (firstPromptOf lines) <= 200)%nat.
Proof.
  induction lines as [| line lines IH]; cbn [firstPromptOf]; [cbn; lia |].
  destruct (bool_decide (line = [])); [exact IH |].
  destruct (Unmarshal_jsonlLine line) as [entry |]; [| exact IH].
  destruct (negb _); [exact IH |].
  destruct (_ || _); [exact IH |].
  apply truncatePrompt_length.
Qed.

(** X19.  [extractFirstPrompt] opens the transcript once and returns at
    most 200 bytes, the empty string when the transcript cannot be opened.
    Only the first 30 lines count: what follows them has no part in the
    result. *)
Theorem extractFirstPrompt_bounded (fs : os.FS) (path : gostring) (st : Store) :
  let prompt := fst (extractFirstPrompt fs path st) in
  (length prompt <= 200)%nat /\
  snd (extractFirstPrompt fs path st)
  = mkStore (metadataCache st) (accesses st ++ [Open path]) /\
  (os.files fs !! path = None -> prompt = []) /\
  (forall file ls rest,
     os.files fs !! path = Some file ->
     os.contents file = unlines ls ++ rest ->
     length ls = 30%nat ->
     Forall (fun l => (NL ∉ l) /\ Z.of_nat (length l) < 1024 * 1024) ls ->
     prompt = firstPromptOf (map bufio.dropCR ls)).
Proof.
  intros prompt. unfold prompt. rewrite extractFirstPrompt_run. cbn [fst snd].
  split; [| split; [reflexivity | split]].
  - destruct (os.files fs !! path); [apply firstPromptOf_length | cbn; lia].
  - now intros ->.
  - intros file ls rest -> Htext Hlen Hls. rewrite Htext.
    rewrite ScanLines_unlines by exact Hls.
    rewrite take_app_length' by (rewrite length_map; now rewrite Hlen).
    reflexivity.
Qed.

(** X20.  [countLines] is 0 for a file that cannot be opened and otherwise
    the number of lines of the file, a last line without a line feed
    included; the count stops at the first line of 1 MiB or more, which the
    scanner's buffer cannot hold. *)
Theorem countLines_counts (fs : os.FS) (path : gostring) (st : Store) :
  let count := fst (countLines fs path st) in
  (os.files fs !! path = None -> count = 0) /\
  (forall file ls rest,
     os.files fs !! path = Some file ->
     os.contents file = unlines ls ++ rest ->
     Forall (fun l => (NL ∉ l) /\ Z.of_nat (length l) < 1024 * 1024) ls ->
     (rest = [] -> count = Z.of_nat (length ls)) /\
     (rest <> [] -> NL ∉ rest -> Z.of_nat (length rest) < 1024 * 1024 ->
        count = Z.of_nat (length ls) + 1) /\
     (forall long more,
        NL ∉ long -> 1024 * 1024 <= Z.of_nat (length long) ->
        rest = long \/ rest = long ++ NL :: more ->
        count = Z.of_nat (length ls))).
Proof.
  intros count. unfold count. rewrite countLines_run. cbn [fst].
  split; [now intros -> |].
  intros file ls rest -> Htext Hls. rewrite Htext.
  rewrite ScanLines_unlines by exact Hls.
  rewrite length_app, length_map. split; [| split].
  - intros ->. cbn. lia.
  - intros Hne Hnl Hfit. unfold bufio.ScanLines.
    rewrite rawLines_last by assumption. cbn [bufio.takeFitting].
    unfold maxScannerBufferBytes.
    destruct (Z.ltb_spec (Z.of_nat (length rest)) (1024 * 1024)); [cbn; lia | lia].
  - intros long more Hnl Hlong Hrest.
    destruct (ScanLines_long maxScannerBufferBytes long more Hnl Hlong) as [H1 H2].
    destruct Hrest as [-> | ->]; [rewrite H2 | rewrite H1]; cbn; lia.
Qed.

(** The newest of the files met so far, the first among equals. *)
Lemma fold_newestStep fs matches :
  [] ∉ matches ->
  let r := fold_left (newestStep fs) matches ([], time.zero) in
  (r.1 = [] /\ forall q, q ∈ matches -> os.files fs !! q = None) \/
  (exists before after info,
     matches = before ++ r.1 :: after /\
     os.files fs !! r.1 = Some info /\ os.ModTime info = r.2 /\
     (forall q i, q ∈ before -> os.files fs !! q = Some i ->
        os.ModTime i < os.ModTime info) /\
     (forall q i, q ∈ after -> os.files fs !! q = Some i ->
        os.ModTime i <= os.ModTime info)).
Proof.
  induction matches as [| p matches IH] using rev_ind; intros Hne r.
  - left. split; [reflexivity |]. intros q Hq. now apply elem_of_nil in Hq.
  - unfold r. rewrite fold_left_app. cbn [fold_left].
    assert (Hne' : [] ∉ matches).
    { intros H. apply Hne, elem_of_app. now left. }
    assert (Hp : p <> []).
    { intros ->. apply Hne, elem_of_app. right. now left. }
    specialize (IH Hne'). cbv zeta in IH.
    set (r0 := fold_left (newestStep fs) matches ([], time.zero)) in *.
    clearbody r0. clear r.
    destruct (os.files fs !! p) as [info |] eqn:Hinfo.
    2:{ assert (Hs : newestStep fs r0 p = r0)
          by (unfold newestStep; now rewrite Hinfo).
        rewrite Hs.
        destruct IH as [[H1 H2] | (before & after & i0 & E & Hi0 & Ht & Hb & Ha)].
        - left. split; [exact H1 |]. intros q Hq.
          apply elem_of_app in Hq as [Hq | Hq]; [auto |].
          apply list_elem_of_singleton in Hq. now subst.
        - right. exists before, (after ++ [p]), i0.
          split; [subst matches; now rewrite <- app_assoc |].
          repeat split; try assumption.
          intros q i Hq Hqi. apply elem_of_app in Hq as [Hq | Hq]; [eauto |].
          apply list_elem_of_singleton in Hq. subst. congruence. }
    destruct IH as [[H1 H2] | (before & after & i0 & E & Hi0 & Ht & Hb & Ha)].
    + assert (Hs : newestStep fs r0 p = (p, os.ModTime info)).
      { unfold newestStep. rewrite Hinfo, H1.
        now rewrite bool_decide_eq_true_2 by reflexivity. }
      rewrite Hs. cbn [fst snd].
      right. exists matches, [], info. repeat split; try assumption.
      * intros q i Hq Hqi. rewrite (H2 q Hq) in Hqi. discriminate.
      * intros q i Hq. now apply elem_of_nil in Hq.
    + assert (Hr0 : r0.1 <> []).
      { intros H. apply Hne'. rewrite E, <- H. apply elem_of_app. right. now left. }
      destruct (Z.ltb_spec r0.2 (os.ModTime info)) as [Hlt | Hge].
      * assert (Hs : newestStep fs r0 p = (p, os.ModTime info)).
        { unfold newestStep, time.After. rewrite Hinfo.
          destruct (Z.ltb_spec r0.2 (os.ModTime info)); [| lia].
          now rewrite orb_true_r. }
        rewrite Hs. cbn [fst snd]. right. exists matches, [], info.
        repeat split; try assumption.
        -- intros q i Hq Hqi. rewrite E in Hq.
           apply elem_of_app in Hq as [Hq | Hq].
           ++ specialize (Hb q i Hq Hqi). lia.
           ++ apply elem_of_cons in Hq as [-> | Hq].
              ** rewrite Hi0 in Hqi. injection Hqi as <-. lia.
              ** specialize (Ha q i Hq Hqi). lia.
        -- intros q i Hq. now apply elem_of_nil in Hq.
      * assert (Hs : newestStep fs r0 p = r0).
        { unfold newestStep, time.After. rewrite Hinfo.
          rewrite bool_decide_eq_false_2 by exact Hr0.
          destruct (Z.ltb_spec r0.2 (os.ModTime info)); [lia | reflexivity]. }
        rewrite Hs. right. exists before, (after ++ [p]), i0.
        split; [subst matches; now rewrite <- app_assoc |].
        repeat split; try assumption.
        intros q i Hq Hqi. apply elem_of_app in Hq as [Hq | Hq]; [eauto |].
        apply list_elem_of_singleton in Hq. subst q.
        rewrite Hinfo in Hqi. injection Hqi as <-. lia.
Qed.

(** X21.  [findSessionFallback] finds a transcript exactly when one of the
    paths [filepath.Glob] returns can be examined; it then selects the
    most recently modified of them, the first in the order of the answer
    among equals, and counts its lines.  When none can be examined it has
    asked for the matches and examined each once, and opened nothing. *)
Theorem findSessionFallback_newest (fs : os.FS) (projectDir : gostring)
  (st : Store) :
  let pattern := filepath.Join [projectDir; str "*.jsonl"] in
  let matches := default [] (os.Glob fs pattern) in
  let located := fst (findSessionFallback fs projectDir st) in
  [] ∉ matches ->
  ((forall q, q ∈ matches -> os.files fs !! q = None) ->
     found located = false /\
     accesses (snd (findSessionFallback fs projectDir st))
     = accesses st ++ Glob pattern :: map Stat matches) /\
  (forall q, q ∈ matches -> is_Some (os.files fs !! q) ->
     found located = true /\
     exists before after info,
       matches = before ++ fullPath located :: after /\
       os.files fs !! fullPath located = Some info /\
       (forall q i, q ∈ before -> os.files fs !! q = Some i ->
          os.ModTime i < os.ModTime info) /\
       (forall q i, q ∈ after -> os.files fs !! q = Some i ->
          os.ModTime i <= os.ModTime info) /\
       messageCount located
       = Z.of_nat (length (bufio.ScanLines maxScannerBufferBytes
                             (os.contents info)))).
Proof.
  intros pattern matches located Hne.
  pose proof (fold_newestStep fs matches Hne) as Hfold. cbv zeta in Hfold.
  assert (Hrun : findSessionFallback fs projectDir st
                 = match matches with
                   | [] => (notFound,
                            mkStore (metadataCache st) (accesses st ++ [Glob pattern]))
                   | _ =>
                     (let r := fold_left (newestStep fs) matches ([], time.zero) in
                      let st1 := mkStore (metadataCache st)
                                   ((accesses st ++ [Glob pattern])
                                    ++ map Stat matches) in
                      if bool_decide (r.1 = []) then (notFound, st1)
                      else
                        (firstPrompt ← extractFirstPrompt fs r.1;
                         messageCount ← countLines fs r.1;
                         lastLine ← ReadLastLine fs r.1;
                         let '(gitBranch, firstPrompt) :=
                           if bool_decide (lastLine = []) then ([], firstPrompt)
                           else
                             match Unmarshal_jsonlLine lastLine with
                             | None => ([], firstPrompt)
                             | Some lastEntry =>
                                 (jsonlLine.GitBranch lastEntry,
                                  if bool_decide (firstPrompt = [])
                                     && negb (bool_decide (jsonlLine.Slug lastEntry = []))
                                  then jsonlLine.Slug lastEntry
                                  else firstPrompt)
                             end in
                         mret (mkLocated r.1 firstPrompt messageCount gitBranch true))
                          st1)
                   end).
  { unfold findSessionFallback. fold pattern.
    rewrite mbind_run, filepath_Glob_run. cbn [fst snd]. unfold matches.
    destruct (os.Glob fs pattern) as [[| p ps] |]; cbn [default];
      try (rewrite mret_run; reflexivity).
    rewrite mbind_run, foldM_newestFile. cbn [fst snd metadataCache accesses].
    cbv zeta. destruct (fold_left _ _ _) as [np nt]. cbn [fst].
    destruct (bool_decide (np = [])); [now rewrite mret_run | reflexivity]. }
  split.
  - intros Hnone. unfold located. rewrite Hrun.
    destruct matches as [| p ps] eqn:Em.
    { cbn [fst snd accesses map]. split; [reflexivity | reflexivity]. }
    rewrite <- Em in *. cbv zeta.
    destruct Hfold as [[H1 _] | (before & after & info & E & Hinfo & _)].
    + rewrite bool_decide_eq_true_2 by exact H1. cbn [fst snd accesses].
      split; [reflexivity |]. now rewrite <- app_assoc.
    + exfalso. rewrite (Hnone (fold_left (newestStep fs) matches ([], time.zero)).1) in Hinfo;
        [discriminate |].
      rewrite E at 2. apply elem_of_app. right. now left.
  - intros q Hq [i Hi]. unfold located. rewrite Hrun.
    destruct matches as [| p ps] eqn:Em; [now apply elem_of_nil in Hq |].
    rewrite <- Em in *. cbv zeta.
    destruct Hfold as [[_ H2] | (before & after & info & E & Hinfo & _ & Hb & Ha)].
    { rewrite (H2 q Hq) in Hi. discriminate. }
    set (r := fold_left (newestStep fs) matches ([], time.zero)) in *.
    assert (Hr : r.1 <> []).
    { intros H. apply Hne. rewrite E, <- H. apply elem_of_app. right. now left. }
    rewrite bool_decide_eq_false_2 by exact Hr.
    rewrite !mbind_run. rewrite extractFirstPrompt_run, countLines_run.
    cbn [fst snd]. rewrite Hinfo.
    match goal with
    | |- context [let '(_, _) := ?x in _] => destruct x as [branch prompt]
    end.
    rewrite mret_run. cbn [fst found fullPath messageCount].
    split; [reflexivity |]. exists before, after, info. now repeat split.
Qed.

(** X22.  A session for whose directory there is neither an index nor a
    transcript comes out of [enrichSession] Idle and otherwise unchanged;
    the index has been read for and the transcripts asked for, once each,
    and the cache is as it was. *)
Theorem enrichSession_no_transcript (w : World) (session : Session.t)
  (projectsDir cwd : gostring) (now : time.Time) (st : Store) :
  let fs := fileSystem w in
  let projectDir := filepath.Join [projectsDir; EncodePath cwd] in
  let indexPath := filepath.Join [projectDir; str "sessions-index.json"] in
  let pattern := filepath.Join [projectDir; str "*.jsonl"] in
  os.files fs !! indexPath = None ->
  default [] (os.Glob fs pattern) = [] ->
  enrichSession w session projectsDir cwd now st
  = (setState session StateIdle,
     mkStore (metadataCache st)
       (accesses st ++ [ReadFile indexPath; Glob pattern])).
Proof.
  intros fs projectDir indexPath pattern Hindex Hglob.
  rewrite enrichSession_located. cbv zeta. fold fs projectDir indexPath.
  rewrite findSessionFromIndex_run, Hindex. cbn [fst snd found notFound].
  rewrite mbind_run. unfold findSessionFallback. fold pattern.
  rewrite mbind_run, filepath_Glob_run. cbn [fst snd].
  assert (Hnone : match os.Glob fs pattern with
                  | Some (p :: ps) => False | _ => True end).
  { destruct (os.Glob fs pattern) as [[| p ps] |]; cbn in Hglob;
      [exact I | discriminate | exact I]. }
  destruct (os.Glob fs pattern) as [[| p ps] |]; [| contradiction |];
    rewrite mret_run; cbn [fst snd]; unfold enrichLocated; cbn [found notFound negb];
    rewrite mret_run; cbn [metadataCache accesses]; now rewrite <- app_assoc.
Qed.

(** X23.  [EnrichSessions] returns as many sessions as it is given, in the
    same order, each changed in its state, topic, branch and message count
    at most; and it removes or changes no entry of the cache. *)
Theorem EnrichSessions_frame (w : World) (sessions : list Session.t)
  (claudeDir : gostring) (st : Store) :
  let result := EnrichSessions w sessions claudeDir st in
  Forall2 enriched sessions (fst result) /\
  length (fst result) = length sessions /\
  map Session.CWD (fst result) = map Session.CWD sessions /\
  (forall key value,
     metadataCache st !! key = Some value ->
     metadataCache (snd result) !! key = Some value).
Proof.
  intros result. unfold result, EnrichSessions.
  pose proof (enrichEach_enriched w (filepath.Join [claudeDir; str "projects"])
                (Now w) sessions st) as H.
  split; [exact H |]. split; [symmetry; eapply Forall2_length; exact H |].
  split; [now apply enriched_CWDs |].
  intros key value Hkey.
  now apply (lookup_weaken _ _ _ _ Hkey (cacheGrows_enrichEach _ _ _ _ st)).
Qed.

(** ** The cache across passes *)

Lemma valueFixed_ret {A} (a : A) : valueFixed (mret a).
Proof. intros st st'. reflexivity. Qed.

Lemma valueFixed_bind {A B} (m : M A) (f : A -> M B) :
  valueFixed m -> (forall a, valueFixed (f a)) -> valueFixed (m ≫= f).
Proof.
  intros Hm Hf st st'. rewrite !mbind_run.
  rewrite (Hm st st'). apply Hf.
Qed.

Lemma valueFixed_foldM {A B} (f : B -> A -> M B) (l : list A) (b : B) :
  (forall b a, valueFixed (f b a)) -> valueFixed (foldM f l b).
Proof.
  intros Hf. revert b. induction l as [| a l IH]; intros b; cbn [foldM].
  - apply valueFixed_ret.
  - apply valueFixed_bind; [apply Hf | assumption].
Qed.

Lemma valueFixed_Open fs path : valueFixed (os_Open fs path).
Proof. intros st st'. reflexivity. Qed.

Lemma valueFixed_ReadFile fs path : valueFixed (os_ReadFile fs path).
Proof. intros st st'. reflexivity. Qed.

Lemma valueFixed_Stat fs path : valueFixed (os_Stat fs path).
Proof. intros st st'. reflexivity. Qed.

Lemma valueFixed_Glob fs pattern : valueFixed (filepath_Glob fs pattern).
Proof. intros st st'. reflexivity. Qed.

Ltac value_fixed :=
  repeat first
    [ apply valueFixed_ret
    | apply valueFixed_Open | apply valueFixed_ReadFile | apply valueFixed_Stat
    | apply valueFixed_Glob
    | assumption
    | apply valueFixed_bind; [| intros ?]
    | apply valueFixed_foldM; intros ? ?
    | match goal with
      | |- valueFixed (match ?x with _ => _ end) => destruct x
      end ].

Lemma valueFixed_ReadLastLine fs path : valueFixed (ReadLastLine fs path).
Proof. intros st st'. apply ReadLastLine_value. Qed.

Lemma valueFixed_extractFirstPrompt fs path :
  valueFixed (extractFirstPrompt fs path).
Proof. intros st st'. now rewrite !extractFirstPrompt_run. Qed.

Lemma valueFixed_countLines fs path : valueFixed (countLines fs path).
Proof. intros st st'. now rewrite !countLines_run. Qed.

Lemma valueFixed_findSessionFromIndex fs path :
  valueFixed (findSessionFromIndex fs path).
Proof. intros st st'. now rewrite !findSessionFromIndex_run. Qed.

Lemma valueFixed_findSessionFallback fs dir :
  valueFixed (findSessionFallback fs dir).
Proof.
  pose proof (valueFixed_ReadLastLine fs).
  pose proof (valueFixed_extractFirstPrompt fs).
  pose proof (valueFixed_countLines fs).
  unfold findSessionFallback.
  apply valueFixed_bind; [apply valueFixed_Glob | intros matches].
  destruct matches as [[| m ms] |]; try apply valueFixed_ret.
  apply valueFixed_bind.
  { apply valueFixed_foldM. intros [p t] a. unfold newestFile. value_fixed. }
  intros [newestPath t].
  destruct (bool_decide (newestPath = [])); [apply valueFixed_ret |].
  apply valueFixed_bind; [apply valueFixed_extractFirstPrompt | intros fp].
  apply valueFixed_bind; [apply valueFixed_countLines | intros mc].
  apply valueFixed_bind; [apply valueFixed_ReadLastLine | intros ll].
  destruct (bool_decide (ll = [])); [apply valueFixed_ret |].
  destruct (Unmarshal_jsonlLine ll); apply valueFixed_ret.
Qed.

Lemma valueFixed_discoverIDESessions w claudeDir entries cwdMap :
  valueFixed (discoverIDESessions w claudeDir entries cwdMap).
Proof.
  unfold discoverIDESessions.
  apply valueFixed_bind; [apply valueFixed_Glob | intros lockFiles].
  destruct lockFiles as [[| l ls] |]; try apply valueFixed_ret.
  apply valueFixed_foldM. intros sessions path. unfold ideLock. value_fixed.
Qed.

(** What [enrichSession] leaves in the cache depends on the cache it
    starts with, and on nothing else of the store or the clock. *)
Lemma enrichLocated_cache w session cwd now now' located st st0 :
  metadataCache st0 = metadataCache st ->
  metadataCache (snd (enrichLocated w session cwd now' located st0))
  = metadataCache (snd (enrichLocated w session cwd now located st)).
Proof.
  intros Heq.
  destruct (found located) eqn:Hfound;
    [| unfold enrichLocated; now rewrite Hfound].
  destruct (os.files (fileSystem w) !! fullPath located) as [info |] eqn:Hinfo.
  2:{ unfold enrichLocated. rewrite Hfound. cbn [negb].
      rewrite !mbind_run, !os_Stat_run, Hinfo. exact Heq. }
  destruct (metadataCache st !! cacheKeyOf w cwd (os.ModTime info))
    as [cached |] eqn:Hc.
  - pose proof Hc as Hc0. rewrite <- Heq in Hc0.
    rewrite (enrichLocated_hit _ _ _ _ _ _ _ _ Hfound Hinfo Hc).
    rewrite (enrichLocated_hit _ _ _ _ _ _ _ _ Hfound Hinfo Hc0).
    exact Heq.
  - pose proof Hc as Hc0. rewrite <- Heq in Hc0.
    destruct (enrichLocated_miss w session cwd now located st info
                Hfound Hinfo Hc) as [reqs ->].
    destruct (enrichLocated_miss w session cwd now' located st0 info
                Hfound Hinfo Hc0) as [reqs' ->].
    cbn [snd metadataCache]. rewrite Heq.
    now rewrite (fallbackTopic_value _ _ _ st0 st).
Qed.

(** Once a session has been enriched, enriching it again, at any instant
    and in any store that kept the cache, gives what enriching it without
    that cache gives. *)
Lemma enrichLocated_again w session cwd now now' located st st0 st2 :
  metadataCache st0 = metadataCache st ->
  metadataCache (snd (enrichLocated w session cwd now located st))
  ⊆ metadataCache st2 ->
  fst (enrichLocated w session cwd now' located st2)
  = fst (enrichLocated w session cwd now' located st0).
Proof.
  intros Heq Hsub.
  destruct (found located) eqn:Hfound;
    [| unfold enrichLocated; now rewrite Hfound].
  destruct (os.files (fileSystem w) !! fullPath located) as [info |] eqn:Hinfo.
  2:{ unfold enrichLocated. rewrite Hfound. cbn [negb].
      rewrite !mbind_run, !os_Stat_run, Hinfo. reflexivity. }
  destruct (metadataCache st !! cacheKeyOf w cwd (os.ModTime info))
    as [cached |] eqn:Hc.
  - pose proof Hc as Hc0. rewrite <- Heq in Hc0.
    rewrite (enrichLocated_hit _ _ _ _ _ _ _ _ Hfound Hinfo Hc) in Hsub.
    cbn [snd metadataCache] in Hsub.
    pose proof (lookup_weaken _ _ _ _ Hc Hsub) as Hc2.
    rewrite (enrichLocated_hit _ _ _ _ _ _ _ _ Hfound Hinfo Hc2).
    rewrite (enrichLocated_hit _ _ _ _ _ _ _ _ Hfound Hinfo Hc0).
    cbn [fst]. f_equal. apply DetectState_value.
  - pose proof Hc as Hc0. rewrite <- Heq in Hc0.
    destruct (enrichLocated_miss w session cwd now located st info
                Hfound Hinfo Hc) as [reqs Hrun].
    rewrite Hrun in Hsub. cbn [snd metadataCache] in Hsub.
    assert (Hc2 : metadataCache st2 !! cacheKeyOf w cwd (os.ModTime info)
                  = Some (cachedMetadata.mk (fullPath located)
                            (fst (fallbackTopic (fileSystem w) (fullPath located)
                                    (CleanTopic (firstPrompt located)) st))
                            (messageCount located) (gitBranch located))).
    { eapply lookup_weaken; [| exact Hsub]. apply lookup_insert_eq. }
    rewrite (enrichLocated_hit _ _ _ _ _ _ _ _ Hfound Hinfo Hc2).
    destruct (enrichLocated_miss w session cwd now' located st0 info
                Hfound Hinfo Hc0) as [reqs' Hrun'].
    rewrite Hrun'. cbn [fst cachedMetadata.Topic cachedMetadata.Messages
                          cachedMetadata.Branch cachedMetadata.FullPath].
    rewrite (fallbackTopic_value _ _ _ st0 st).
    f_equal. apply DetectState_value.
Qed.

Lemma enrichSession_locate w projectsDir cwd :
  exists locate : M Located,
    valueFixed locate /\ cacheFixed locate /\
    forall session now st,
      enrichSession w session projectsDir cwd now st
      = enrichLocated w (setState session StateIdle) cwd now (fst (locate st))
          (snd (locate st)).
Proof.
  set (fs := fileSystem w).
  set (projectDir := filepath.Join [projectsDir; EncodePath cwd]).
  set (indexPath := filepath.Join [projectDir; str "sessions-index.json"]).
  exists (located ← findSessionFromIndex fs indexPath;
          (if negb (found located) then findSessionFallback fs projectDir
           else mret located)).
  split; [| split].
  - apply valueFixed_bind; [apply valueFixed_findSessionFromIndex | intros l].
    destruct (negb (found l));
      [apply valueFixed_findSessionFallback | apply valueFixed_ret].
  - apply cacheFixed_bind; [apply cacheFixed_findSessionFromIndex | intros l].
    destruct (negb (found l));
      [apply cacheFixed_findSessionFallback | apply cacheFixed_ret].
  - intros session now st. unfold enrichSession. cbv zeta.
    now rewrite !mbind_run.
Qed.

Lemma enrichSession_cache_clock w session projectsDir cwd now now' st st0 :
  metadataCache st0 = metadataCache st ->
  metadataCache (snd (enrichSession w session projectsDir cwd now' st0))
  = metadataCache (snd (enrichSession w session projectsDir cwd now st)).
Proof.
  intros Heq.
  destruct (enrichSession_locate w projectsDir cwd) as (locate & Hv & Hf & Hrun).
  rewrite !Hrun. rewrite (Hv st0 st).
  apply enrichLocated_cache. now rewrite !Hf.
Qed.

Lemma enrichSession_again w session projectsDir cwd now now' st st0 st2 :
  metadataCache st0 = metadataCache st ->
  metadataCache (snd (enrichSession w session projectsDir cwd now st))
  ⊆ metadataCache st2 ->
  fst (enrichSession w session projectsDir cwd now' st2)
  = fst (enrichSession w session projectsDir cwd now' st0).
Proof.
  destruct (enrichSession_locate w projectsDir cwd) as (locate & Hv & Hf & Hrun).
  rewrite !Hrun. rewrite (Hv st2 st), (Hv st0 st).
  intros Heq Hsub.
  apply (enrichLocated_again _ _ _ now now' _ (snd (locate st))).
  - now rewrite !Hf.
  - now rewrite Hf.
Qed.

Lemma enrichEach_again w projectsDir now now' sessions st st0 st2 :
  metadataCache st0 = metadataCache st ->
  metadataCache (snd (enrichEach w projectsDir now sessions st))
  ⊆ metadataCache st2 ->
  fst (enrichEach w projectsDir now' sessions st2)
  = fst (enrichEach w projectsDir now' sessions st0).
Proof.
  revert st st0 st2.
  induction sessions as [| s rest IH]; intros st st0 st2 Heq Hsub;
    [reflexivity |].
  cbn [enrichEach] in *. rewrite !mbind_run in *. rewrite !mret_run in *.
  cbn [fst snd] in *.
  set (st1 := snd (enrichSession w s projectsDir (Session.CWD s) now st)) in *.
  assert (Hhead : metadataCache st1 ⊆ metadataCache st2).
  { etrans; [apply (cacheGrows_enrichEach w projectsDir now rest st1) | exact Hsub]. }
  rewrite (enrichSession_again _ _ _ _ now now' st st0 st2 Heq Hhead). f_equal.
  apply (IH st1).
  - now apply enrichSession_cache_clock.
  - etrans; [exact Hsub |].
    apply (cacheGrows_enrichSession w s projectsDir (Session.CWD s) now' st2).
Qed.

Lemma enrichEach_later w now projectsDir t sessions :
  enrichEach (later w now) projectsDir t sessions
  = enrichEach w projectsDir t sessions.
Proof.
  induction sessions as [| s rest IH]; [reflexivity |].
  cbn [enrichEach]. now rewrite IH.
Qed.

(** X25.  The cache never changes what a pass returns on an unchanged
    machine.  After a pass over a machine, and whatever passes over
    whatever machines follow it, a pass over the first machine at any
    later instant returns the sessions it would return from the store
    the first pass started with. *)
Theorem DiscoverAll_cache_transparent (w : World) (between : list World)
  (now : time.Time) (st : Store) :
  fst (DiscoverAll (later w now)
         (snd (passes between (snd (DiscoverAll w st)))))
  = fst (DiscoverAll (later w now) st).
Proof.
  pose proof (cacheGrows_passes between (snd (DiscoverAll w st))) as Hgrow.
  set (st2 := snd (passes between (snd (DiscoverAll w st)))) in *.
  revert Hgrow. unfold DiscoverAll.
  change (runPS (later w now)) with (runPS w).
  change (HOME (later w now)) with (HOME w).
  change (BatchResolveCWDs (later w now)) with (BatchResolveCWDs w).
  set (claudeDir := filepath.Join [HOME w; str ".claude"]).
  set (entries := ParsePS (runPS w)).
  case_bool_decide as Hentries; [reflexivity |].
  change (discoverIDESessions (later w now)) with (discoverIDESessions w).
  rewrite !mbind_run.
  pose proof (valueFixed_discoverIDESessions w claudeDir entries
                (BatchResolveCWDs w entries)) as Hv.
  pose proof (cacheFixed_discoverIDESessions w claudeDir entries
                (BatchResolveCWDs w entries)) as Hf.
  rewrite (Hv st2 st).
  destruct (fold_left claimIDE _ _) as [sessions seenCWDs].
  destruct (discoverCLISessions _ _ _) as [cli seen'].
  unfold EnrichSessions.
  rewrite !enrichEach_later. change (Now (later w now)) with now.
  intros Hgrow. apply (enrichEach_again _ _ (Now w) now _ _ _ _ eq_refl).
  now rewrite (Hf st2).
Qed.

End FurtherEngineProperties.

(** [DiscoverAll_no_claude] on the machine [quiet]. *)
Lemma DiscoverAll_no_claude_witness :
  discover quiet emptyStore = ([], emptyStore).
Proof.
  apply (DiscoverAll_no_claude (json := jsonref.decoder)
           (sorting := insertion.sorting) quiet emptyStore).
  intros line Hin. vm_compute in Hin.
  repeat (apply elem_of_cons in Hin as [-> | Hin]; [reflexivity |]).
  now apply elem_of_nil in Hin.
Defined.

(** [findSessionFallback_newest] on a directory with one transcript. *)
Lemma findSessionFallback_newest_witness :
  let w := terminalNoIndex (1000 * second)
             "{'type':'user','message':{'role':'user','content':'Fix the bug'}}" in
  found (fst (findSessionFallback (json := jsonref.decoder) (fileSystem w)
                (str "/home/u/.claude/projects/-w") emptyStore)) = true.
Proof.
  intros w.
  assert (Hne : [] ∉ default [] (os.Glob (fileSystem w)
                   (filepath.Join [str "/home/u/.claude/projects/-w"; str "*.jsonl"])))
    by absent.
  destruct (findSessionFallback_newest (json := jsonref.decoder) (fileSystem w)
              (str "/home/u/.claude/projects/-w") emptyStore Hne) as [_ H].
  destruct (H (str "/home/u/.claude/projects/-w/a.jsonl")) as [Hfound _].
  - vm_compute. left.
  - vm_compute. eauto.
  - exact Hfound.
Defined.

(** [enrichSession_no_transcript] on the machine [ideAndTerminal], which
    has no transcripts. *)
Lemma enrichSession_no_transcript_witness :
  enrichSession (json := jsonref.decoder) (sorting := insertion.sorting)
    ideAndTerminal (newSession 1234 (str "/w") (str "CLI") 0)
    (str "/home/u/.claude/projects") (str "/w") (Now ideAndTerminal) emptyStore
  = (setState (newSession 1234 (str "/w") (str "CLI") 0) StateIdle,
     mkStore ∅
       [ReadFile (str "/home/u/.claude/projects/-w/sessions-index.json");
        Glob (str "/home/u/.claude/projects/-w/*.jsonl")]).
Proof.
  apply (enrichSession_no_transcript (json := jsonref.decoder)
           (sorting := insertion.sorting) ideAndTerminal
           (newSession 1234 (str "/w") (str "CLI") 0)
           (str "/home/u/.claude/projects") (str "/w") (Now ideAndTerminal)
           emptyStore); reflexivity.
Defined.

(** [DiscoverAll_sessions_are_processes] at the session of
    [ideAndTerminal]. *)
Lemma DiscoverAll_sessions_are_processes_witness :
  let s :=
    setState (newSession 5678 (str "/w") (str "VSCode") (300 * time.Second))
             StateIdle in
  exists entry,
    entry ∈ ParsePS (runPS ideAndTerminal) /\
    Session.PID s = psEntry.PID entry /\
    Session.Duration s = ParseEtime (psEntry.Etime entry) /\
    Session.Project s = ShortProjectName (Session.CWD s) /\
    (Session.Source s = Source.mk (str "CLI") \/ psEntry.TTY entry = str "??").
Proof.
  intros s.
  apply (DiscoverAll_sessions_are_processes (json := jsonref.decoder)
           (sorting := insertion.sorting) ideAndTerminal emptyStore s).
  vm_compute. left.
Defined.

(** Two claude processes in terminals in one directory give one session,
    that of the first. *)
Lemma discoverCLISessions_example :
  let entries :=
    ParsePS (lines ["  PID   ELAPSED TTY      COMMAND";
                    " 1234     10:30 ttys001  /usr/local/bin/claude";
                    " 5678      5:00 ttys002  claude --resume"]) in
  map origin
    (fst (discoverCLISessions entries
            (BatchResolveCWDs ideAndTerminal entries) ∅))
  = [(1234, str "/w", str "CLI")].
Proof. vm_compute. reflexivity. Qed.

(** The lines of a transcript, with and without a final line feed. *)
Lemma countLines_example :
  fst (countLines (singleFile (str "t.jsonl") (unlines [str "{1}"; str "{2}"]) 0)
         (str "t.jsonl") emptyStore) = 2 /\
  fst (countLines
         (singleFile (str "t.jsonl") (unlines [str "{1}"; str "{2}"] ++ str "{3}") 0)
         (str "t.jsonl") emptyStore) = 3.
Proof. vm_compute. split; reflexivity. Qed.
